(** * Billman: billing periods, bill aggregation and the WhatsApp parser

    A shallow embedding of [src/lib/services/billingService.ts] and
    [src/lib/services/whatsappParser.ts] together with the parts of the
    ECMAScript runtime they rely on ([Date], [RegExp], [String], [Map]).

    Conventions of the embedding:
    - a JavaScript number that is known to be an integer or [NaN] is an
      [option Z] ([None] is [NaN]);
    - a [Date] is its time value (milliseconds since the epoch); the host
      time zone is UTC, so local time and time value coincide;
    - the amount the parser reads is the exact rational of its decimal
      digits ([Q]); the arithmetic of a bill is that of IEEE 754 doubles
      ([Double]), on the doubles nearest to the amounts;
    - a string is the list of its UTF-16 code units. *)

From Stdlib Require Import ZArith NArith QArith Qround List Bool Lia String Ascii.
From Stdlib Require Import SpecFloat.
From Stdlib Require Import Sorting.Sorted Sorting.Permutation Setoid.
Import ListNotations.



(** ** ECMAScript numbers restricted to integers and NaN *)

Module Num.
Local Open Scope Z_scope.

Definition number := option Z.
Definition NaN : number := None.

Definition add (a b : number) : number :=
  match a, b with Some x, Some y => Some (x + y) | _, _ => None end.
Definition sub (a b : number) : number :=
  match a, b with Some x, Some y => Some (x - y) | _, _ => None end.

(** Relational operators: every comparison with [NaN] is false. *)
Definition lt (a b : number) : bool :=
  match a, b with Some x, Some y => x <? y | _, _ => false end.
Definition le (a b : number) : bool :=
  match a, b with Some x, Some y => x <=? y | _, _ => false end.
Definition gt (a b : number) : bool := lt b a.
Definition ge (a b : number) : bool := le b a.

End Num.

(** ** The Date object (ECMA-262, section 21.4) *)

Module JSDate.
Import Num.
Local Open Scope Z_scope.

Definition msPerDay : Z := 86400000.
Definition msPerHour : Z := 3600000.
Definition msPerMinute : Z := 60000.
Definition msPerSecond : Z := 1000.
Definition maxTime : Z := 8640000000000000.

Definition Day (t : Z) : Z := t / msPerDay.
Definition TimeWithinDay (t : Z) : Z := t mod msPerDay.

Definition DaysInYear (y : Z) : Z :=
  if negb (y mod 4 =? 0) then 365
  else if negb (y mod 100 =? 0) then 366
  else if negb (y mod 400 =? 0) then 365
  else 366.

Definition DayFromYear (y : Z) : Z :=
  365 * (y - 1970) + (y - 1969) / 4 - (y - 1901) / 100 + (y - 1601) / 400.

Definition TimeFromYear (y : Z) : Z := msPerDay * DayFromYear y.

(** [YearFromTime t] is the largest [y] with [TimeFromYear y <= t]; it is
    computed from an estimate that is off by at most one
    (see [YearFromDay_spec]). *)
Definition YearFromDay (d : Z) : Z :=
  let y := 1970 + (400 * d) / 146097 in
  if d <? DayFromYear y then y - 1
  else if DayFromYear (y + 1) <=? d then y + 1
  else y.

Definition YearFromTime (t : Z) : Z := YearFromDay (Day t).

Definition InLeapYear (t : Z) : Z :=
  if DaysInYear (YearFromTime t) =? 366 then 1 else 0.

Definition DayWithinYear (t : Z) : Z := Day t - DayFromYear (YearFromTime t).

Definition MonthFromTime (t : Z) : Z :=
  let d := DayWithinYear t in
  let leap := InLeapYear t in
  if d <? 31 then 0
  else if d <? 59 + leap then 1
  else if d <? 90 + leap then 2
  else if d <? 120 + leap then 3
  else if d <? 151 + leap then 4
  else if d <? 181 + leap then 5
  else if d <? 212 + leap then 6
  else if d <? 243 + leap then 7
  else if d <? 273 + leap then 8
  else if d <? 304 + leap then 9
  else if d <? 334 + leap then 10
  else 11.

Definition DateFromTime (t : Z) : Z :=
  let d := DayWithinYear t in
  let leap := InLeapYear t in
  match MonthFromTime t with
  | 0 => d + 1
  | 1 => d - 30
  | 2 => d - 58 - leap
  | 3 => d - 89 - leap
  | 4 => d - 119 - leap
  | 5 => d - 150 - leap
  | 6 => d - 180 - leap
  | 7 => d - 211 - leap
  | 8 => d - 242 - leap
  | 9 => d - 272 - leap
  | 10 => d - 303 - leap
  | _ => d - 333 - leap
  end.

Definition HourFromTime (t : Z) : Z := (t / msPerHour) mod 24.
Definition MinFromTime (t : Z) : Z := (t / msPerMinute) mod 60.

(** Number of days of year [y] that precede its month [mn] (0-based). *)
Definition DaysBeforeMonth (y mn : Z) : Z :=
  let leap := if DaysInYear y =? 366 then 1 else 0 in
  match mn with
  | 0 => 0
  | 1 => 31
  | 2 => 59 + leap
  | 3 => 90 + leap
  | 4 => 120 + leap
  | 5 => 151 + leap
  | 6 => 181 + leap
  | 7 => 212 + leap
  | 8 => 243 + leap
  | 9 => 273 + leap
  | 10 => 304 + leap
  | _ => 334 + leap
  end.

(** MakeDay: the day number of the first of month [mn] of year [ym], plus
    [dt - 1]. The arguments are already integers here. *)
Definition MakeDay (year month date : number) : number :=
  match year, month, date with
  | Some y, Some m, Some dt =>
      let ym := y + m / 12 in
      let mn := m mod 12 in
      Some (DayFromYear ym + DaysBeforeMonth ym mn + dt - 1)
  | _, _, _ => None
  end.

Definition MakeTime (hour min sec ms : number) : number :=
  match hour, min, sec, ms with
  | Some h, Some m, Some s, Some milli =>
      Some (h * msPerHour + m * msPerMinute + s * msPerSecond + milli)
  | _, _, _, _ => None
  end.

Definition MakeDate (day time : number) : number :=
  match day, time with
  | Some d, Some t => Some (d * msPerDay + t)
  | _, _ => None
  end.

Definition TimeClip (time : number) : number :=
  match time with
  | Some t => if Z.abs t <=? maxTime then Some t else None
  | None => None
  end.

(** The two-digit year rule of the [Date] constructor. *)
Definition MakeFullYear (y : number) : number :=
  match y with
  | Some yi => if (0 <=? yi) && (yi <=? 99) then Some (1900 + yi) else Some yi
  | None => None
  end.

(** A Date object: its time value, [NaN] when the date is invalid. *)
Record Date : Type := mkDate { getTime : number }.

Definition InvalidDate : Date := mkDate NaN.

(** [new Date(year, month, date, hours, minutes)] *)
Definition newDate5 (y m dt h mi : number) : Date :=
  mkDate (TimeClip (MakeDate (MakeDay (MakeFullYear y) m dt)
                             (MakeTime h mi (Some 0) (Some 0)))).

(** [new Date(year, month, date)] *)
Definition newDate3 (y m dt : number) : Date :=
  newDate5 y m dt (Some 0) (Some 0).

(** [new Date(d)] for a Date [d] *)
Definition copyDate (d : Date) : Date := mkDate (TimeClip (getTime d)).

Definition getFullYear (d : Date) : number := option_map YearFromTime (getTime d).
Definition getMonth (d : Date) : number := option_map MonthFromTime (getTime d).
Definition getDate (d : Date) : number := option_map DateFromTime (getTime d).
Definition getHours (d : Date) : number := option_map HourFromTime (getTime d).
Definition getMinutes (d : Date) : number := option_map MinFromTime (getTime d).

(** [d.setFullYear(y)]: an invalid date is read as time value [+0]. *)
Definition setFullYear (d : Date) (y : number) : Date :=
  let t := match getTime d with Some t => t | None => 0 end in
  let newDate := MakeDay y (Some (MonthFromTime t)) (Some (DateFromTime t)) in
  mkDate (TimeClip (MakeDate newDate (Some (TimeWithinDay t)))).

(** [d.setMonth(m)]: an invalid date stays invalid. *)
Definition setMonth (d : Date) (m : number) : Date :=
  match getTime d with
  | None => InvalidDate
  | Some t =>
      let newDate :=
        MakeDate (MakeDay (Some (YearFromTime t)) m (Some (DateFromTime t)))
                 (Some (TimeWithinDay t)) in
      mkDate (TimeClip newDate)
  end.

(** Relational operators on Dates compare the time values. *)
Definition date_le (a b : Date) : bool := Num.le (getTime a) (getTime b).
Definition date_gt (a b : Date) : bool := Num.gt (getTime a) (getTime b).

End JSDate.

(** ** Strings: lists of UTF-16 code units *)

Module JSString.
Local Open Scope N_scope.

Definition jsstring := list N.

(** Decoding of a UTF-8 literal of this file into UTF-16 code units. *)
Fixpoint utf16 (s : string) : jsstring :=
  match s with
  | EmptyString => []
  | String a s1 =>
      let b0 := N_of_ascii a in
      if b0 <? 0x80 then b0 :: utf16 s1
      else
        match s1 with
        | EmptyString => [b0]
        | String a1 s2 =>
            let b1 := N_of_ascii a1 in
            if b0 <? 0xE0 then
              ((b0 - 0xC0) * 64 + (b1 - 0x80)) :: utf16 s2
            else
              match s2 with
              | EmptyString => [b0; b1]
              | String a2 s3 =>
                  let b2 := N_of_ascii a2 in
                  if b0 <? 0xF0 then
                    ((b0 - 0xE0) * 4096 + (b1 - 0x80) * 64 + (b2 - 0x80)) :: utf16 s3
                  else
                    match s3 with
                    | EmptyString => [b0; b1; b2]
                    | String a3 s4 =>
                        let b3 := N_of_ascii a3 in
                        let cp := (b0 - 0xF0) * 262144 + (b1 - 0x80) * 4096
                                  + (b2 - 0x80) * 64 + (b3 - 0x80) in
                        (0xD800 + (cp - 0x10000) / 1024)
                          :: (0xDC00 + (cp - 0x10000) mod 1024) :: utf16 s4
                    end
              end
        end
  end.

Fixpoint eqb (a b : jsstring) : bool :=
  match a, b with
  | [], [] => true
  | x :: a', y :: b' => (x =? y) && eqb a' b'
  | _, _ => false
  end.

Definition isEmpty {A : Type} (s : list A) : bool :=
  match s with [] => true | _ => false end.

Definition inRange (lo hi c : N) : bool := (lo <=? c) && (c <=? hi).

(** WhiteSpace and LineTerminator code units: the class [\s], and what
    [trim] removes. *)
Definition isWhiteSpace (c : N) : bool :=
  inRange 9 13 c || (c =? 32) || (c =? 0xA0) || (c =? 0x1680)
  || inRange 0x2000 0x200A c || (c =? 0x2028) || (c =? 0x2029)
  || (c =? 0x202F) || (c =? 0x205F) || (c =? 0x3000) || (c =? 0xFEFF).

Definition isLineTerminator (c : N) : bool :=
  (c =? 10) || (c =? 13) || (c =? 0x2028) || (c =? 0x2029).

Definition isDigit (c : N) : bool := inRange 48 57 c.
Definition isUpper (c : N) : bool := inRange 65 90 c.
Definition isLower (c : N) : bool := inRange 97 122 c.
Definition isAsciiLetter (c : N) : bool := isUpper c || isLower c.
(** [\w] *)
Definition isWordChar (c : N) : bool := isAsciiLetter c || isDigit c || (c =? 95).
(** [ঀ-৿] *)
Definition isBengali (c : N) : bool := inRange 0x980 0x9FF c.

Fixpoint trimStart (s : jsstring) : jsstring :=
  match s with
  | c :: s' => if isWhiteSpace c then trimStart s' else s
  | [] => []
  end.

Definition trimEnd (s : jsstring) : jsstring := rev (trimStart (rev s)).

Definition trim (s : jsstring) : jsstring := trimEnd (trimStart s).

(** [toLowerCase]: ASCII letters are folded; every other code unit is left
    as it is (Bengali script is caseless, and the case tables of other
    scripts are not modelled). *)
Definition lowerUnit (c : N) : N := if isUpper c then c + 32 else c.
Definition toLowerCase (s : jsstring) : jsstring := map lowerUnit s.

Fixpoint startsWith (p s : jsstring) : bool :=
  match p, s with
  | [], _ => true
  | x :: p', y :: s' => (x =? y) && startsWith p' s'
  | _ :: _, [] => false
  end.

(** [s.includes(p)] *)
Fixpoint includes (s p : jsstring) : bool :=
  startsWith p s || match s with [] => false | _ :: s' => includes s' p end.

(** [arr.includes(x)] for an array of strings *)
Definition arrayIncludes (arr : list jsstring) (x : jsstring) : bool :=
  existsb (eqb x) arr.

(** [s.split(sep)] for a one-unit separator [sep] *)
Fixpoint splitUnit (sep : N) (s : jsstring) : list jsstring :=
  match s with
  | [] => [[]]
  | c :: s' =>
      if c =? sep then [] :: splitUnit sep s'
      else match splitUnit sep s' with
           | w :: ws => (c :: w) :: ws
           | [] => [[c]]
           end
  end.

(** [s.substring(0, n)] *)
Definition substring0 (n : nat) (s : jsstring) : jsstring := firstn n s.

(** Decimal digits of a natural number, as in [Number.prototype.toString]. *)
Fixpoint digitsFuel (fuel : nat) (n : N) (acc : jsstring) : jsstring :=
  match fuel with
  | O => acc
  | S fuel' =>
      let acc' := (48 + n mod 10) :: acc in
      if n <? 10 then acc' else digitsFuel fuel' (n / 10) acc'
  end.

Definition natToString (n : N) : jsstring := digitsFuel (S (N.to_nat (N.size n))) n [].

Definition intToString (z : Z) : jsstring :=
  match z with
  | Zneg p => 45 :: natToString (Npos p)
  | _ => natToString (Z.to_N z)
  end.

(** Value of a string of decimal digits. *)
Definition digitsValue (s : jsstring) : N :=
  fold_left (fun acc c => acc * 10 + (c - 48)) s 0.

End JSString.

(** ** Regular expressions: a backtracking matcher (ECMA-262, section 22.2)

    Only the constructs the sources use.  A quantified group of the
    sources never contains a capture that an iteration would have to reset,
    so captures are kept as they were last set. *)

Module RegExp.
Import JSString.

Inductive regex : Type :=
| Empty : regex                          (* the empty pattern *)
| Char : (N -> bool) -> regex             (* one code unit of a class *)
| Seq : regex -> regex -> regex
| Alt : regex -> regex -> regex            (* r1|r2 *)
| Star : bool -> regex -> regex            (* r* when greedy, r*? otherwise *)
| Group : nat -> regex -> regex            (* the n-th capturing group *)
| Bol : regex                            (* ^ (no m flag) *)
| Eol : regex                            (* $ (no m flag) *)
| Lookahead : regex -> regex.             (* (?=r) *)

Definition captures := list (nat * jsstring).

Fixpoint capture (n : nat) (c : captures) : option jsstring :=
  match c with
  | [] => None
  | (i, s) :: c' => if Nat.eqb i n then Some s else capture n c'
  end.

(** A match state: the index reached, the input left, the captures. *)
Definition mstate : Type := nat * jsstring * captures.

Fixpoint run (r : regex) (pos : nat) (rest : jsstring) (caps : captures)
             (k : nat -> jsstring -> captures -> option mstate) {struct r}
  : option mstate :=
  match r with
  | Empty => k pos rest caps
  | Char p =>
      match rest with
      | c :: rest' => if p c then k (S pos) rest' caps else None
      | [] => None
      end
  | Seq r1 r2 =>
      run r1 pos rest caps (fun pos' rest' caps' => run r2 pos' rest' caps' k)
  | Alt r1 r2 =>
      match run r1 pos rest caps k with
      | Some m => Some m
      | None => run r2 pos rest caps k
      end
  | Star greedy r1 =>
      (fix loop (fuel : nat) (pos : nat) (rest : jsstring) (caps : captures)
         : option mstate :=
         match fuel with
         | O => k pos rest caps
         | S fuel' =>
             let again :=
               run r1 pos rest caps
                   (fun pos' rest' caps' =>
                      if Nat.ltb pos pos' then loop fuel' pos' rest' caps'
                      else None) in
             if greedy then
               match again with
               | Some m => Some m
               | None => k pos rest caps
               end
             else
               match k pos rest caps with
               | Some m => Some m
               | None => again
               end
         end) (List.length rest) pos rest caps
  | Group n r1 =>
      run r1 pos rest caps
          (fun pos' rest' caps' =>
             k pos' rest' ((n, firstn (pos' - pos) rest) :: caps'))
  | Bol => if Nat.eqb pos 0 then k pos rest caps else None
  | Eol => match rest with [] => k pos rest caps | _ :: _ => None end
  | Lookahead r1 =>
      match run r1 pos rest caps (fun p s c => Some (p, s, c)) with
      | Some (_, _, caps') => k pos rest caps'
      | None => None
      end
  end.

(** The match of [r] that starts exactly at index [pos]. *)
Definition matchAt (r : regex) (pos : nat) (rest : jsstring) : option mstate :=
  run r pos rest [] (fun p s c => Some (p, s, c)).

(** A successful match: where it starts, the matched text, the captures and
    the input that follows it. *)
Record Match : Type := mkMatch {
  index : nat;
  matched : jsstring;
  groups : captures;
  following : jsstring
}.

(** [r.exec(s)] from index [pos] on: the leftmost match. *)
Fixpoint execFrom (r : regex) (pos : nat) (rest : jsstring) : option Match :=
  match matchAt r pos rest with
  | Some (e, after, caps) => Some (mkMatch pos (firstn (e - pos) rest) caps after)
  | None =>
      match rest with
      | [] => None
      | _ :: rest' => execFrom r (S pos) rest'
      end
  end.

(** [s.match(r)] for a regular expression without the g flag. *)
Definition exec (r : regex) (s : jsstring) : option Match := execFrom r 0 s.

(** [r.test(s)] *)
Definition test (r : regex) (s : jsstring) : bool :=
  match exec r s with Some _ => true | None => false end.

(** The value of a capture of a match; [undefined] is read as the empty
    string where the sources go on to use it as a string. *)
Definition group (n : nat) (m : Match) : jsstring :=
  match capture n (groups m) with Some s => s | None => [] end.

(** All matches of a regular expression with the g flag, left to right;
    after an empty match the search moves on by one code unit. *)
Fixpoint allMatchesFuel (fuel : nat) (r : regex) (pos : nat) (rest : jsstring)
  : list Match :=
  match fuel with
  | O => []
  | S fuel' =>
      match execFrom r pos rest with
      | None => []
      | Some m =>
          let e := (index m + List.length (matched m))%nat in
          if isEmpty (matched m) then
            match following m with
            | [] => [m]
            | _ :: after' => m :: allMatchesFuel fuel' r (S e) after'
            end
          else m :: allMatchesFuel fuel' r e (following m)
      end
  end.

Definition allMatches (r : regex) (s : jsstring) : list Match :=
  allMatchesFuel (S (List.length s)) r 0 s.

(** [s.match(r)] for [r] with the g flag: the matched texts, [null] when
    there is none. *)
Definition matchGlobal (r : regex) (s : jsstring) : option (list jsstring) :=
  match allMatches r s with
  | [] => None
  | ms => Some (map matched ms)
  end.

(** [s.replace(r, f)] for [r] with the g flag and a replacer function [f]
    of the matched text. *)
Fixpoint replaceMatches (f : jsstring -> jsstring) (ms : list Match)
                        (pos : nat) (rest : jsstring) : jsstring :=
  match ms with
  | [] => rest
  | m :: ms' =>
      let skip := (index m - pos)%nat in
      let len := List.length (matched m) in
      firstn skip rest ++ f (matched m)
        ++ replaceMatches f ms' (index m + len) (skipn (skip + len) rest)
  end.

Definition replaceAllWith (r : regex) (f : jsstring -> jsstring) (s : jsstring)
  : jsstring :=
  replaceMatches f (allMatches r s) 0 s.

(** [s.replace(r, by)] for [r] with the g flag and a replacement text
    without [$] patterns. *)
Definition replaceAll (r : regex) (by_ : jsstring) (s : jsstring) : jsstring :=
  replaceAllWith r (fun _ => by_) s.

(** [s.replace(r, by)] for [r] without the g flag: the first match only. *)
Definition replaceFirst (r : regex) (by_ : jsstring) (s : jsstring) : jsstring :=
  match exec r s with
  | None => s
  | Some m => firstn (index m) s ++ by_ ++ following m
  end.

(** [s.split(r)]: at each index [q] the separator is tried in place; a
    separator that ends where the current piece starts is skipped.  [piece]
    holds, in reverse, the code units from the piece's start [p] up to [q],
    so the separator ends at [p] when it is empty and [piece] is empty. *)
Fixpoint splitFuel (fuel : nat) (r : regex) (piece : jsstring)
                   (q : nat) (rest : jsstring) : list jsstring :=
  match fuel with
  | O => [rev piece ++ rest]
  | S fuel' =>
      match rest with
      | [] => [rev piece]
      | c :: rest' =>
          match matchAt r q rest with
          | Some (e, after, _) =>
              if Nat.eqb e q && isEmpty piece
              then splitFuel fuel' r (c :: piece) (S q) rest'
              else rev piece :: splitFuel fuel' r [] e after
          | None => splitFuel fuel' r (c :: piece) (S q) rest'
          end
      end
  end.

Definition split (r : regex) (s : jsstring) : list jsstring :=
  match s with
  | [] => match matchAt r 0 [] with Some _ => [] | None => [[]] end
  | _ => splitFuel (S (2 * List.length s)) r [] 0 s
  end.

(** *** Notation for patterns *)

Definition chr (c : N) : regex := Char (N.eqb c).
Definition digit : regex := Char isDigit.                 (* \d *)
Definition space : regex := Char isWhiteSpace.            (* \s *)
Definition dot : regex := Char (fun c => negb (isLineTerminator c)).
Definition plus (r : regex) : regex := Seq r (Star true r).  (* r+ *)
Definition star (r : regex) : regex := Star true r.           (* r* *)
Definition opt (r : regex) : regex := Alt r Empty.            (* r? *)
Definition plusLazy (r : regex) : regex := Seq r (Star false r). (* r+? *)

(** [r{n}] and [r{n,n+k}] *)
Fixpoint times (n : nat) (r : regex) : regex :=
  match n with O => Empty | S n' => Seq r (times n' r) end.
Fixpoint upto (k : nat) (r : regex) : regex :=
  match k with O => Empty | S k' => opt (Seq r (upto k' r)) end.
Definition rep (n m : nat) (r : regex) : regex := Seq (times n r) (upto (m - n) r).

(** A literal text, and the same under the i flag: Canonicalize folds the
    ASCII letters and never maps a code unit above 127 onto one below. *)
Definition canonicalize (c : N) : N := if isLower c then (c - 32)%N else c.
Definition chrI (c : N) : regex :=
  Char (fun x => N.eqb (canonicalize x) (canonicalize c)).
Fixpoint lit (s : jsstring) : regex :=
  match s with [] => Empty | c :: s' => Seq (chr c) (lit s') end.
Fixpoint litI (s : jsstring) : regex :=
  match s with [] => Empty | c :: s' => Seq (chrI c) (litI s') end.

End RegExp.

(** ** Numbers with fractions: money amounts as exact rationals

    Every operation returns the reduced fraction, so that two equal amounts
    are the same term, as two equal JavaScript numbers are the same value. *)

Module Money.
Import JSString.

Definition fadd (a b : Q) : Q := Qred (a + b).
Definition fsub (a b : Q) : Q := Qred (a - b).
Definition fmul (a b : Q) : Q := Qred (a * b).
Definition fdiv (a b : Q) : Q := Qred (a / b).
Definition ofZ (z : Z) : Q := inject_Z z.

(** [Math.round]: the nearest integer, a tie going up. *)
Definition Math_round (x : Q) : Q := inject_Z (Qfloor (x + (1 # 2))).

(** [a > b] and [a <= b] *)
Definition gtb (a b : Q) : bool := negb (Qle_bool a b).
Definition leb (a b : Q) : bool := Qle_bool a b.

(** [parseFloat] of a text [digits] or [digits.digits]. *)
Definition parseDecimal (intPart fracPart : jsstring) : Q :=
  Qred (inject_Z (Z.of_N (digitsValue intPart))
        + inject_Z (Z.of_N (digitsValue fracPart))
          / inject_Z (10 ^ Z.of_nat (List.length fracPart))).

Definition parseFloat (s : jsstring) : Q :=
  match splitUnit 46 s with
  | [i] => parseDecimal i []
  | i :: f :: _ => parseDecimal i f
  | [] => 0
  end.

(** The decimal expansion printed by [Number.prototype.toString], for an
    amount that has a finite one. *)
Fixpoint fractionDigits (fuel : nat) (r d : N) : jsstring :=
  match fuel with
  | O => []
  | S fuel' =>
      if (r =? 0)%N then []
      else ((48 + (r * 10) / d) :: fractionDigits fuel' ((r * 10) mod d) d)%N
  end.

Definition toString (q : Q) : jsstring :=
  let q := Qred q in
  let n := Z.abs_N (Qnum q) in
  let d := Npos (Qden q) in
  let sign := if (Qnum q <? 0)%Z then [45%N] else [] in
  let frac := fractionDigits (S (Pos.size_nat (Qden q))) (n mod d)%N d in
  sign ++ natToString (n / d)%N
       ++ match frac with [] => [] | _ => 46%N :: frac end.

End Money.

(** ** Numbers as IEEE 754 doubles

    The binary64 format of the Standard Library's specification of
    floating-point arithmetic: 53 bits of significand, results rounded to
    the nearest double, a tie going to the even significand. *)

Module Double.
Local Open Scope Z_scope.

Definition prec : Z := 53.
Definition emax : Z := 1024.

Definition double : Type := spec_float.

Definition NaN : double := S754_nan.

Definition add : double -> double -> double := SFadd prec emax.
Definition sub : double -> double -> double := SFsub prec emax.
Definition mul : double -> double -> double := SFmul prec emax.
Definition div : double -> double -> double := SFdiv prec emax.

(** The Number value for an integer. *)
Definition ofZ (z : Z) : double := binary_normalize prec emax z 0 false.

(** The Number value for a rational: the nearest double. *)
Definition ofQ (q : Q) : double :=
  match Qnum q with
  | Z0 => S754_zero false
  | Zpos n =>
      let '(m, e, l) := SFdiv_core_binary prec emax (Zpos n) 0 (Zpos (Qden q)) 0 in
      binary_round_aux prec emax false m e l
  | Zneg n =>
      let '(m, e, l) := SFdiv_core_binary prec emax (Zpos n) 0 (Zpos (Qden q)) 0 in
      binary_round_aux prec emax true m e l
  end.

(** [Math.round]: the nearest integer, a tie going up; [-0] for what lies
    in [[-0.5, 0)]; an integer, a zero, an infinity and [NaN] as they
    are. *)
Definition Math_round (x : double) : double :=
  match x with
  | S754_finite s m e =>
      if 0 <=? e then x
      else
        let k := 2 ^ (- e) in
        let n := if s then Zneg m else Zpos m in
        let r := (2 * n + k) / (2 * k) in
        if r =? 0 then S754_zero s else ofZ r
  | _ => x
  end.

(** [x > 0] *)
Definition isPositive (x : double) : bool :=
  match x with
  | S754_finite false _ _ | S754_infinity false => true
  | _ => false
  end.

Definition isNaN (x : double) : bool :=
  match x with S754_nan => true | _ => false end.

(** A finite double is a multiple of [2 ^ -1074]; [scaled x] is that
    multiple. *)
Definition scaled (x : double) : Z :=
  match x with
  | S754_finite s m e => (if s then Zneg m else Zpos m) * 2 ^ (e + 1074)
  | _ => 0
  end.

(** [x <= y], by value. *)
Definition leb (x y : double) : bool :=
  match x, y with
  | S754_nan, _ | _, S754_nan => false
  | S754_infinity true, _ => true
  | _, S754_infinity false => true
  | S754_infinity false, _ => false
  | _, S754_infinity true => false
  | _, _ => scaled x <=? scaled y
  end.

End Double.

(** ** The data model ([src/lib/types]) *)

Module Types.
Import Num JSDate JSString.

Record Transaction : Type := mkTransaction {
  id : jsstring;
  date : Date;
  sender : jsstring;
  item : jsstring;
  amount : Q;
  originalMessage : option jsstring;
  createdAt : Date;
  updatedAt : Date
}.

Record ParseError : Type := mkParseError {
  line : Z;
  message : jsstring;
  originalText : jsstring
}.

Record ParseSummary : Type := mkParseSummary {
  totalLines : Z;
  successfulTransactions : Z;
  failedLines : Z;
  duplicatesSkipped : Z;
  processingTime : Q
}.

Record BillItem : Type := mkBillItem {
  billItem : jsstring;       (* the field [item] of a BillItem *)
  quantity : Z;
  unitPrice : Double.double;
  totalPrice : Double.double
}.

End Types.

(** ** Effects of the run-time: exceptions, the clock and the random source *)

Module Runtime.
Import Num JSDate JSString.

(** A thrown [Error] object. *)
Record Error : Type := mkError { errorName : jsstring; errorMessage : jsstring }.

Inductive Completion (A : Type) : Type :=
| Normal : A -> Completion A
| Throw : Error -> Completion A.
Arguments Normal {A} _.
Arguments Throw {A} _.

(** What a run reads from outside: the successive readings of the clock,
    of [Math.random] and of [performance.now]. *)
Record World : Type := mkWorld {
  tick : nat;
  clockAt : nat -> Z;
  randomAt : nat -> jsstring;
  perfAt : nat -> Q
}.

Definition advance (w : World) : World :=
  mkWorld (S (tick w)) (clockAt w) (randomAt w) (perfAt w).

Definition M (A : Type) : Type := World -> Completion A * World.

Definition ret {A : Type} (a : A) : M A := fun w => (Normal a, w).

Definition bind {A B : Type} (c : M A) (f : A -> M B) : M B :=
  fun w =>
    match c w with
    | (Normal a, w') => f a w'
    | (Throw e, w') => (Throw e, w')
    end.

Definition throw {A : Type} (e : Error) : M A := fun w => (Throw e, w).

(** [try { body } catch (error) { handler }] *)
Definition tryCatch {A : Type} (body : M A) (handler : Error -> M A) : M A :=
  fun w =>
    match body w with
    | (Normal a, w') => (Normal a, w')
    | (Throw e, w') => handler e w'
    end.

Definition lift {A : Type} (c : Completion A) : M A := fun w => (c, w).

(** [Date.now()] *)
Definition Date_now : M Z := fun w => (Normal (clockAt w (tick w)), advance w).

(** [new Date()] *)
Definition newDateNow : M Date :=
  fun w => (Normal (mkDate (TimeClip (Some (clockAt w (tick w))))), advance w).

(** [Math.random().toString(36).substr(2, 9)] *)
Definition Math_random_base36 : M jsstring :=
  fun w => (Normal (randomAt w (tick w)), advance w).

(** [performance.now()] *)
Definition performance_now : M Q :=
  fun w => (Normal (perfAt w (tick w)), advance w).

(** Exceptions without the world. *)
Definition bindC {A B : Type} (c : Completion A) (f : A -> Completion B)
  : Completion B :=
  match c with
  | Normal a => f a
  | Throw e => Throw e
  end.

(** [for (const x of xs) { acc = body(acc, x) }] where the body may throw. *)
Fixpoint forEachC {A S : Type} (body : S -> A -> Completion S) (xs : list A)
                  (acc : S) : Completion S :=
  match xs with
  | [] => Normal acc
  | x :: xs' => bindC (body acc x) (forEachC body xs')
  end.

Fixpoint forEachM {A S : Type} (body : S -> A -> M S) (xs : list A) (acc : S)
  : M S :=
  match xs with
  | [] => ret acc
  | x :: xs' => bind (body acc x) (forEachM body xs')
  end.

Definition ReferenceError (name : jsstring) : Error :=
  mkError (utf16 "ReferenceError") (name ++ utf16 " is not defined").

Definition TypeError (what : jsstring) : Error :=
  mkError (utf16 "TypeError") (what ++ utf16 " is not a function").

End Runtime.

(** ** BillingService ([src/lib/services/billingService.ts]) *)

Module BillingService.
Import Num JSDate JSString Money Types Runtime.
Local Open Scope Z_scope.

Record Period : Type := mkPeriod { startDate : Date; endDate : Date }.

Definition maxIterations : Z := 1000.

(** The variables the [while] loop of [generateMonthPeriods] updates. *)
Record LoopState : Type := mkLoopState {
  currentStart : Date;
  iterations : Z;
  periods : list Period
}.

Definition loopCondition (endDate : Date) (st : LoopState) : bool :=
  date_le (currentStart st) endDate && (iterations st <? maxIterations).

Definition loopBody (endDate : Date) (st : LoopState) : LoopState :=
  let currentStart := currentStart st in
  (* End date is 14th of next month *)
  let currentEnd :=
    newDate3 (getFullYear currentStart) (Num.add (getMonth currentStart) (Some 1))
             (Some 14) in
  (* Handle month overflow (December to January) *)
  let currentEnd :=
    if Num.lt (getMonth currentEnd) (getMonth currentStart)
    then setFullYear currentEnd (Num.add (getFullYear currentEnd) (Some 1))
    else currentEnd in
  (* Don't go beyond the requested end date *)
  let periodEnd :=
    if date_gt currentEnd endDate then copyDate endDate else copyDate currentEnd in
  let periods :=
    periods st ++ [mkPeriod (copyDate currentStart) (copyDate periodEnd)] in
  (* Move to next month period (15th of next month) *)
  let currentStart :=
    newDate3 (getFullYear currentStart) (Num.add (getMonth currentStart) (Some 1))
             (Some 15) in
  (* Handle month overflow (December to January) *)
  let currentStart :=
    if Num.gt (getMonth currentStart) (Some 11)
    then setMonth (setFullYear currentStart
                               (Num.add (getFullYear currentStart) (Some 1)))
                  (Some 0)
    else currentStart in
  mkLoopState currentStart (iterations st + 1) periods.

(** The loop, unfolded at most [fuel] times ([loop_exits] shows that
    [maxIterations] unfoldings reach the exit). *)
Fixpoint while (fuel : nat) (endDate : Date) (st : LoopState) : LoopState :=
  match fuel with
  | O => st
  | S fuel' =>
      if loopCondition endDate st then while fuel' endDate (loopBody endDate st)
      else st
  end.

Definition initialStart (startDate : Date) : Date :=
  (* Start from the 15th of the month containing startDate *)
  let currentStart :=
    newDate3 (getFullYear startDate) (getMonth startDate) (Some 15) in
  (* If startDate is before the 15th, start from previous month's 15th *)
  let currentStart :=
    if Num.lt (getDate startDate) (Some 15)
    then newDate3 (getFullYear startDate) (Num.sub (getMonth startDate) (Some 1))
                  (Some 15)
    else currentStart in
  (* Ensure we don't go to previous year if month is negative (January) *)
  if Num.lt (getMonth currentStart) (Some 0)
  then newDate3 (Num.sub (getFullYear currentStart) (Some 1)) (Some 11) (Some 15)
  else currentStart.

Definition maxIterationsMessage : jsstring :=
  Eval vm_compute in
  utf16 "⚠️ Max iterations reached in generateMonthPeriods - possible infinite loop".

(** The outcome of a call: how it completes and what it wrote with
    [console.error]. *)
Record Outcome : Type := mkOutcome {
  completion : Completion (list Period);
  consoleErrors : list jsstring
}.

Definition generateMonthPeriodsWith (fuel : nat) (startDate endDate : Date)
  : Outcome :=
  let final :=
    while fuel endDate (mkLoopState (initialStart startDate) 0 []) in
  mkOutcome (Normal (periods final))
            (if maxIterations <=? iterations final then [maxIterationsMessage]
             else []).

(** The loop ends within [maxIterations] turns. *)
Definition generateMonthPeriods (startDate endDate : Date) : Outcome :=
  generateMonthPeriodsWith (Z.to_nat maxIterations) startDate endDate.

(** *** combineItems *)

(** [quantity] counts the transactions of an array, which has fewer than
    [2 ^ 32] elements: an integer that a double holds exactly. *)
Record ItemData : Type := mkItemData {
  dataQuantity : Z;
  dataTotalPrice : Double.double;
  dataUnitPrice : Double.double
}.

(** A [Map] with string keys, in insertion order. *)
Definition ItemMap : Type := list (jsstring * ItemData).

Definition mapHas (key : jsstring) (m : ItemMap) : bool :=
  existsb (fun e => JSString.eqb (fst e) key) m.

Fixpoint mapUpdate (key : jsstring) (f : ItemData -> ItemData) (m : ItemMap)
  : ItemMap :=
  match m with
  | [] => []
  | (k, v) :: m' =>
      if JSString.eqb k key then (k, f v) :: m' else (k, v) :: mapUpdate key f m'
  end.

(** [transaction.amount], the Number. *)
Definition amountOf (transaction : Transaction) : Double.double :=
  Double.ofQ (amount transaction).

Definition addTransaction (itemMap : ItemMap) (transaction : Transaction)
  : ItemMap :=
  let itemKey := trim (toLowerCase (item transaction)) in
  if mapHas itemKey itemMap then
    mapUpdate itemKey
      (fun existing =>
         let quantity := dataQuantity existing + 1 in
         let totalPrice := Double.add (dataTotalPrice existing) (amountOf transaction) in
         (* Update unit price to average *)
         mkItemData quantity totalPrice (Double.div totalPrice (Double.ofZ quantity)))
      itemMap
  else
    itemMap ++ [(itemKey,
                 mkItemData 1 (amountOf transaction) (amountOf transaction))].

(** [Array.prototype.sort] with a comparator: a stable sort, here by
    insertion.  An element goes after another when the comparator is
    positive; [NaN] counts as 0.  The result of a stable sort is determined
    when the comparator is consistent. *)
Fixpoint insertSorted {A : Type} (cmp : A -> A -> Double.double) (x : A)
                      (l : list A) : list A :=
  match l with
  | [] => [x]
  | y :: l' =>
      if Double.isPositive (cmp x y) then y :: insertSorted cmp x l'
      else x :: y :: l'
  end.

Definition sort {A : Type} (cmp : A -> A -> Double.double) (l : list A) : list A :=
  fold_right (insertSorted cmp) [] l.

(** Round to 2 decimal places: [Math.round(x * 100) / 100] *)
Definition round2 (x : Double.double) : Double.double :=
  Double.div (Double.Math_round (Double.mul x (Double.ofZ 100))) (Double.ofZ 100).

Definition combineItems (transactions : list Transaction) : list BillItem :=
  let itemMap := fold_left addTransaction transactions [] in
  (* Convert to BillItem array *)
  let billItems :=
    map (fun e =>
           mkBillItem (fst e) (dataQuantity (snd e))
                      (round2 (dataUnitPrice (snd e)))
                      (round2 (dataTotalPrice (snd e))))
        itemMap in
  (* Sort by total price descending *)
  sort (fun a b => Double.sub (totalPrice b) (totalPrice a)) billItems.

End BillingService.


(** ** [src/lib/validation/schemas] and [src/lib/utils/helpers] *)

Module Helpers.
Import Num JSDate JSString RegExp Runtime.
Local Open Scope bool_scope.

(** [generateId]: [`${Date.now()}-${Math.random().toString(36).substr(2, 9)}`] *)
Definition generateId : M jsstring :=
  bind Date_now (fun now =>
  bind Math_random_base36 (fun r =>
  ret (intToString now ++ utf16 "-" ++ r))).

Definition normalizeSenderName (sender : jsstring) : jsstring :=
  substring0 100
    (* Keep only alphanumeric, spaces, and Bengali characters *)
    (replaceAll
       (Char (fun c => negb (isWordChar c || isWhiteSpace c || isBengali c)))
       []
       (* Replace multiple spaces with single space *)
       (replaceAll (plus space) (utf16 " ") (trim sender))).

End Helpers.

(** ** WhatsAppParser ([src/lib/services/whatsappParser.ts])

    The calls of [console.log] are left out, except the two whose argument
    cannot be evaluated (they name the undeclared variable [item]). *)

Module WhatsAppParser.
Import Num JSDate JSString RegExp Money Types Runtime Helpers.
Local Open Scope bool_scope.

Notation "x <- c1 ;; c2" := (bind c1 (fun x => c2))
  (at level 61, c1 at next level, right associativity).

Definition ch (a : ascii) : regex := chr (N_of_ascii a).
Definition seq (rs : list regex) : regex := fold_right Seq Empty rs.

(** [[a-zA-Zঀ-৿]] *)
Definition isItemChar (c : N) : bool := isAsciiLetter c || isBengali c.
Definition itemChar : regex := Char isItemChar.

(** [/^(\d{1,2}\/\d{1,2}\/\d{2,4}),\s*(\d{1,2}:\d{2})\s*(am|pm)?\s*-\s*([^:]+):\s*(.+)$/i] *)
Definition messagePattern : regex :=
  seq [ Bol;
        Group 1 (seq [rep 1 2 digit; ch "/"; rep 1 2 digit; ch "/"; rep 2 4 digit]);
        ch ","; star space;
        Group 2 (seq [rep 1 2 digit; ch ":"; rep 2 2 digit]);
        star space;
        opt (Group 3 (Alt (litI (utf16 "am")) (litI (utf16 "pm"))));
        star space; ch "-"; star space;
        Group 4 (plus (Char (fun c => negb (N.eqb c 58))));
        ch ":"; star space;
        Group 5 (plus dot);
        Eol ].

(** [/^(\d{1,2})\s+([ঀ-৿]+)\s+(\d{4})/] *)
Definition dateOnlyPattern : regex :=
  seq [ Bol; Group 1 (rep 1 2 digit); plus space;
        Group 2 (plus (Char isBengali)); plus space;
        Group 3 (rep 4 4 digit) ].

Definition bibaran : jsstring := Eval vm_compute in utf16 "বিবরণ".
Definition kena : jsstring := Eval vm_compute in utf16 "কেনা".

(** [/বিবরণ\s+/gi] *)
Definition bibaranPrefix : regex := seq [litI bibaran; plus space].

(** [/কেনা\s+(\d+)/i] *)
Definition kenaPattern : regex :=
  seq [litI kena; plus space; Group 1 (plus digit)].

(** [/বিবরণ\s+(.+?)(?=\s*moriom|$)/i] *)
Definition descriptionPattern : regex :=
  seq [ litI bibaran; plus space; Group 1 (plusLazy dot);
        Lookahead (Alt (seq [star space; litI (utf16 "moriom")]) Eol) ].

(** [/বিবরণ\s+([a-zA-Zঀ-৿]+)\s*$/i] *)
Definition itemOnlyPattern : regex :=
  seq [litI bibaran; plus space; Group 1 (plus itemChar); star space; Eol].

(** [/([a-zA-Zঀ-৿]+)(\d+)/] *)
Definition attachedPattern : regex :=
  seq [Group 1 (plus itemChar); Group 2 (plus digit)].

(** [/^[a-zA-Zঀ-৿]/] *)
Definition startsWithItemChar : regex := seq [Bol; itemChar].

(** [/^\d+(\.\d+)?$/] *)
Definition numberPattern : regex :=
  seq [Bol; plus digit; opt (Group 1 (seq [ch "."; plus digit])); Eol].

(** [/^\d+$/] *)
Definition allDigits : regex := seq [Bol; plus digit; Eol].

Definition convertBengaliNumerals (text : jsstring) : jsstring :=
  let bengaliToWestern : list (jsstring * jsstring) :=
    map (fun e => (utf16 (fst e), utf16 (snd e)))
        [ ("০", "0"); ("১", "1"); ("২", "2"); ("৩", "3"); ("৪", "4");
          ("৫", "5"); ("৬", "6"); ("৭", "7"); ("৮", "8"); ("৯", "9") ]%string in
  replaceAllWith (Char (inRange 0x9E6 0x9EF))
    (fun m =>
       match find (fun e => JSString.eqb (fst e) m) bengaliToWestern with
       | Some e => snd e
       | None => m
       end)
    text.

(** The value of a property of the object literal [ITEM_MAP]: a text, or
    what the literal inherits from [Object.prototype] under the names
    [constructor] and [__proto__], which is not a string. *)
Inductive ItemValue : Type :=
| ItemString : jsstring -> ItemValue
| InheritedProperty : ItemValue.

(** The entries in the order of the source; a key written twice there
    carries the same text both times. *)
Definition ITEM_MAP : list (jsstring * jsstring) :=
  Eval vm_compute in
  map (fun e => (utf16 (fst e), utf16 (snd e)))
  [ ("dudh", "milk");
    ("dhud", "milk");
    ("tedars", "tissues");
    ("dim", "eggs");
    ("moris", "chillies");
    ("tel", "oil");
    ("alo", "potato");
    ("chal", "rice");
    ("ata", "flour");
    ("piaz", "onion");
    ("rosun", "garlic");
    ("ada", "ginger");
    ("holud", "turmeric");
    ("jira", "cumin");
    ("saban", "soap");
    ("vimbar", "vim");
    ("rin", "rin");
    ("rc", "rc cola");
    ("coff", "coffee");
    ("koyel", "koyel");
    ("koyel60", "koyel");
    ("koyle", "koyel");
    ("koyl", "koyel");
    ("tel", "oil");
    ("teel", "oil");
    ("teil", "oil");
    ("chal", "rice");
    ("chaal", "rice");
    ("chall", "rice");
    ("alo", "potato");
    ("aloo", "potato");
    ("aluu", "potato");
    ("dim", "eggs");
    ("deem", "eggs");
    ("dimm", "eggs");
    ("piaz", "onion");
    ("piyaz", "onion");
    ("peaz", "onion");
    ("rosun", "garlic");
    ("roshun", "garlic");
    ("rosoon", "garlic");
    ("saban", "soap");
    ("sabun", "soap");
    ("sabon", "soap");
    ("rc", "rc cola");
    ("arr", "rc cola");
    ("arsi", "rc cola");
    ("majoni", "mayonnaise");
    ("mosla", "spice");
    ("chini", "sugar");
    ("ghee", "ghee");
    ("dal", "lentils");
    ("beson", "gram flour");
    ("semai", "vermicelli");
    ("muri", "puffed rice");
    ("chanachur", "chanachur");
    ("biscuits", "biscuits");
    ("paratha", "paratha");
    ("chapati", "chapati");
    ("noodles", "noodles");
    ("pasta", "pasta");
    ("sauce", "sauce");
    ("kismis", "raisins");
    ("badam", "almonds");
    ("tissue", "tissue");
    ("paste", "toothpaste");
    ("shampoo", "shampoo");
    ("brush", "brush");
    ("razor", "razor");
    ("freedom", "freedom pad");
    ("whisper", "whisper pad");
    ("harpic", "harpic");
    ("lizol", "lizol");
    ("savlon", "savlon");
    ("ponds", "ponds");
    ("lux", "lux soap");
    ("dew", "dew");
    ("sprite", "sprite");
    ("coke", "coke");
    ("pepsi", "pepsi") ]%string.

(** [ITEM_MAP[key]], [undefined] being [None] *)
Definition itemMapGet (key : jsstring) : option ItemValue :=
  match find (fun e => JSString.eqb (fst e) key) ITEM_MAP with
  | Some e => Some (ItemString (snd e))
  | None =>
      if JSString.eqb key (utf16 "constructor") || JSString.eqb key (utf16 "__proto__")
      then Some InheritedProperty
      else None
  end.

(** [/\d+$/] *)
Definition trailingDigits : regex := seq [plus digit; Eol].

Definition absDiff (a b : nat) : nat := (a - b) + (b - a).

Definition standardizeTerminology (item : jsstring) : ItemValue :=
  (* Apply case-insensitive mapping *)
  let lowerItem := toLowerCase item in
  (* First check exact match *)
  match itemMapGet lowerItem with
  | Some v => v
  | None =>
      (* Check for typos by removing trailing numbers *)
      let withoutNumbers := replaceFirst trailingDigits [] lowerItem in
      match itemMapGet withoutNumbers with
      | Some v => v
      | None =>
          (* Check for partial matches (typos) *)
          match find (fun e =>
                        (includes (fst e) lowerItem || includes lowerItem (fst e))
                        && Nat.leb (absDiff (List.length (fst e))
                                            (List.length lowerItem)) 2)
                     ITEM_MAP with
          | Some e => ItemString (snd e)
          | None => ItemString item
          end
      end
  end.

Definition invalidItems : list jsstring :=
  Eval vm_compute in
  map utf16
  [ (* System words *)
    "নং"; "pm"; "am"; "monir"; "munia"; "mustari"; "null"; "total";
    "https"; "http"; "www"; "com"; "org"; "net"; "co"; "bd";
    "deleted"; "message"; "media"; "omitted"; "encrypted";
    (* Totals and summaries (don't include these as transactions) *)
    "কেনা"; "বাকি"; "পূর্বের"; "বর্তমান"; "লেনদেন"; "রেকর্ড"; "পরিশোধ";
    (* Month names in English *)
    "january"; "february"; "march"; "april"; "may"; "june";
    "july"; "august"; "september"; "october"; "november"; "december";
    "jan"; "feb"; "mar"; "apr"; "may"; "jun"; "jul"; "aug"; "sep"; "oct"; "nov"; "dec";
    (* Month names in Bengali (including all variations) *)
    "জানুয়ারি"; "জানুয়ারী"; "ফেব্রুয়ারি"; "ফেব্রুয়ারী"; "মার্চ"; "এপ্রিল";
    "মে"; "জুন"; "জুলাই"; "আগস্ট"; "সেপ্টেম্বর"; "অক্টোবর"; "নভেম্বর"; "ডিসেম্বর";
    "জুমা"; "জুম্মা"; "জুমার"; "জুম্মার"; "জমা";
    (* Additional month-related words *)
    "মাস"; "বছর"; "দিন"; "সপ্তাহ"; "তারিখ";
    (* Other Bengali system words *)
    "যেভাবে"; "পেমেন্ট"; "করতে"; "পারবেন"; "কাস্টমার"; "মোবাইল";
    "দোকানের"; "সুপার"; "কোডে"; "আপনার"; "বিকাশ"; "রকেট"; "ব্যাংক";
    "অ্যাপ"; "থেকে"; "স্ক্যান"; "করে"; "বিস্তারিত"; "লিংকে"; "দেখুন";
    "মৌরি"; "দিও"; "lagbe"; "dio"; "takar"; "তাকার"; "টাকার"; "joma"; "জমা" ]%string.

Definition isValidItem (item : jsstring) : bool :=
  let lowerItem := toLowerCase item in
  (* Skip if it's in the invalid list *)
  if arrayIncludes invalidItems lowerItem then false
  (* Skip if it looks like a phone number part *)
  else if test allDigits item || Nat.ltb 20 (List.length item) then false
  else true.

Definition Pair : Type := (ItemValue * Q)%type.

(** Strategy 1: consecutive words [words[i]], [words[i + 1]]. *)
Fixpoint adjacentWords (words : list jsstring) : list (jsstring * jsstring) :=
  match words with
  | w1 :: ((w2 :: _) as rest) => (w1, w2) :: adjacentWords rest
  | _ => []
  end.

Definition findSimpleItemAmountPairs (text : jsstring) : Completion (list Pair) :=
  (* Convert Bengali numerals to Western numerals *)
  let convertedText := convertBengaliNumerals text in
  (* Strategy 1: Standard "item amount" pattern (including Bengali text) *)
  let words := split (plus space) convertedText in
  bindC
    (forEachC
       (fun (pairs : list Pair) (w : jsstring * jsstring) =>
          let (currentWord, nextWord) := w in
          (* Check if current word is text and next word is number *)
          if test startsWithItemChar currentWord && test numberPattern nextWord then
            let rawItem := trim currentWord in
            let standardizedItem := standardizeTerminology rawItem in
            let amount := parseFloat nextWord in
            (* Skip invalid items (phone numbers, system words) and unrealistic amounts *)
            if isValidItem rawItem && gtb amount 0 && leb amount 1000
            then Normal (pairs ++ [(standardizedItem, amount)])
            else Throw (ReferenceError (utf16 "item"))
          else Normal pairs)
       (adjacentWords words) [])
    (fun pairs =>
  (* Strategy 2: Numbers attached to words (like "tel173", "rc40") *)
  match matchGlobal attachedPattern convertedText with
  | None => Normal pairs
  | Some attachedMatches =>
      forEachC
        (fun (pairs : list Pair) (match_ : jsstring) =>
           match exec attachedPattern match_ with
           | None => Normal pairs
           | Some result =>
               let rawItem := trim (group 1 result) in
               let attachedNumber := parseFloat (group 2 result) in
               (* Check if this looks like a typo (item name + number that's not a price) *)
               let standardizedItem :=
                 standardizeTerminology (rawItem ++ group 2 result) in
               let isTypo :=
                 match standardizedItem with
                 | ItemString s => negb (JSString.eqb s (rawItem ++ group 2 result))
                 | InheritedProperty => true
                 end in
               if isTypo then
                 (* Don't use the attached number as price for typos *)
                 Normal pairs
               else if isValidItem rawItem && gtb attachedNumber 0
                       && leb attachedNumber 1000 then
                 let finalItem := standardizeTerminology rawItem in
                 Normal (pairs ++ [(finalItem, attachedNumber)])
               else Throw (ReferenceError (utf16 "item"))
           end)
        attachedMatches pairs
  end).

(** [p.item.toLowerCase()] on a pair: a [TypeError] unless the item is a
    string. *)
Definition itemToLowerCase (what : jsstring) (p : Pair) : Completion jsstring :=
  match fst p with
  | ItemString s => Normal (toLowerCase s)
  | InheritedProperty => Throw (TypeError what)
  end.

Fixpoint mapC {A B : Type} (f : A -> Completion B) (xs : list A)
  : Completion (list B) :=
  match xs with
  | [] => Normal []
  | x :: xs' => bindC (f x) (fun y => bindC (mapC f xs') (fun ys => Normal (y :: ys)))
  end.

Definition findItemsWithoutAmounts (text : jsstring) (existingPairs : list Pair)
  : Completion (list jsstring) :=
  bindC (mapC (itemToLowerCase (utf16 "p.item.toLowerCase")) existingPairs)
    (fun existingItems =>
  (* Find standalone items (words that look like items but have no associated number) *)
  let words := split (plus space) text in
  Normal
    (fold_left
       (fun itemsWithoutAmounts word =>
          let cleanWord := replaceAll (Char (fun c => negb (isItemChar c))) [] word in
          if Nat.ltb 2 (List.length cleanWord)
             && isValidItem cleanWord
             && negb (arrayIncludes existingItems (toLowerCase cleanWord))
             && negb (test digit word)
          then itemsWithoutAmounts ++ [cleanWord]
          else itemsWithoutAmounts)
       words [])).

Record ExtractedItem : Type := mkExtractedItem {
  extractedItem : ItemValue;
  extractedAmount : option Q
}.

Record SuspiciousTransaction : Type := mkSuspicious {
  suspiciousId : jsstring;
  suspiciousDate : Date;
  suspiciousSender : jsstring;
  suspiciousMessage : jsstring;
  reason : jsstring;
  extractedItems : list ExtractedItem
}.

Record Extraction : Type := mkExtraction {
  extractedTransactions : list Transaction;
  suspicious : list SuspiciousTransaction
}.

(** The object literal of a new transaction: the id, the copy of the date
    and the two bookkeeping dates are evaluated in this order. *)
Definition newTransaction (date : Date) (sender item : jsstring) (amount : Q)
                          (text : jsstring) : M Transaction :=
  id <- generateId ;;
  created <- newDateNow ;;
  updated <- newDateNow ;;
  ret (mkTransaction id (copyDate date) sender item amount (Some text)
                     created updated).

Definition newSuspicious (date : Date) (sender text reason : jsstring)
                         (items : list ExtractedItem) : M SuspiciousTransaction :=
  id <- generateId ;;
  ret (mkSuspicious id (copyDate date) sender text reason items).

Definition validateAndExtractTransactions
    (text sender : jsstring) (date : Date) (lineNumber : Z) : M Extraction :=
  (* Convert Bengali numerals first *)
  let convertedText := convertBengaliNumerals text in
  (* Check for "কেনা" (bought) pattern with Bengali or English numbers *)
  match exec kenaPattern convertedText with
  | Some kenaMatch =>
      let totalAmount := parseFloat (group 1 kenaMatch) in
      (* Extract item description from "বিবরণ" section if available *)
      let itemDescription :=
        match exec descriptionPattern convertedText with
        | Some descriptionMatch => trim (group 1 descriptionMatch)
        | None => utf16 "purchase"
        end in
      t <- newTransaction date sender itemDescription totalAmount text ;;
      ret (mkExtraction [t] [])
  | None =>
      (* Fallback to original parsing if no "কেনা" pattern found *)
      pairs <- lift (findSimpleItemAmountPairs convertedText) ;;
      (* Find items without amounts *)
      itemsWithoutAmounts <- lift (findItemsWithoutAmounts convertedText pairs) ;;
      (* Handle transactions without amounts *)
      suspicious1 <-
        (if isEmpty pairs && isEmpty itemsWithoutAmounts then
           match exec itemOnlyPattern convertedText with
           | Some itemOnlyMatch =>
               let item := trim (group 1 itemOnlyMatch) in
               if isValidItem item then
                 s <- newSuspicious date sender text (utf16 "no_amount")
                        [mkExtractedItem (standardizeTerminology item) None] ;;
                 ret [s]
               else ret []
           | None => ret []
           end
         else ret []) ;;
      suspicious2 <-
        (if negb (isEmpty itemsWithoutAmounts) then
           s <- newSuspicious date sender text (utf16 "missing_items")
                  (map (fun p => mkExtractedItem (fst p) (Some (snd p))) pairs
                   ++ map (fun i => mkExtractedItem (ItemString i) None)
                          itemsWithoutAmounts) ;;
           ret (suspicious1 ++ [s])
         else ret suspicious1) ;;
      (* Create transactions for valid pairs *)
      transactions <-
        forEachM
          (fun (transactions : list Transaction) (pair : Pair) =>
             if gtb (snd pair) 0 then
               match fst pair with
               | ItemString item =>
                   if isValidItem item then
                     t <- newTransaction date sender item (snd pair) text ;;
                     ret (transactions ++ [t])
                   else ret transactions
               | InheritedProperty =>
                   throw (TypeError (utf16 "item.toLowerCase"))
               end
             else ret transactions)
          pairs [] ;;
      ret (mkExtraction transactions suspicious2)
  end.

(** [dateStr.split('/').map(Number)] and the like, on texts of digits. *)
Definition numbersOf (sep : N) (s : jsstring) : list Z :=
  map (fun part => Z.of_N (digitsValue part)) (splitUnit sep s).

Definition parseDate (dateStr timeStr : jsstring) (ampm : option jsstring)
  : option Date :=
  (* Parse date (DD/MM/YYYY or DD/MM/YY) *)
  match numbersOf 47 dateStr, numbersOf 58 timeStr with
  | day :: month :: year :: _, hours :: minutes :: _ =>
      let fullYear := if (year <? 100)%Z then (2000 + year)%Z else year in
      (* Parse time *)
      let adjustedHours :=
        match ampm with
        | Some ((_ :: _) as ampm) =>
            if JSString.eqb (toLowerCase ampm) (utf16 "pm") && negb (hours =? 12)%Z
            then (hours + 12)%Z
            else if JSString.eqb (toLowerCase ampm) (utf16 "am") && (hours =? 12)%Z
            then 0%Z
            else hours
        | _ => hours
        end in
      let date :=
        newDate5 (Some fullYear) (Some (month - 1)%Z) (Some day)
                 (Some adjustedHours) (Some minutes) in
      (* Validate the date *)
      match getTime date with
      | None => None
      | Some _ => Some date
      end
  | _, _ => None
  end.

Definition bengaliMonths : list (jsstring * Z) :=
  Eval vm_compute in
  map (fun e : string * Z => (utf16 (fst e), snd e))
      [ ("জানুয়ারি", 0%Z); ("ফেব্রুয়ারি", 1%Z); ("মার্চ", 2%Z); ("এপ্রিল", 3%Z);
        ("মে", 4%Z); ("জুন", 5%Z); ("জুলাই", 6%Z); ("আগস্ট", 7%Z);
        ("সেপ্টেম্বর", 8%Z); ("অক্টোবর", 9%Z); ("নভেম্বর", 10%Z);
        ("ডিসেম্বর", 11%Z) ]%string.

(** [parseInt] of a text that starts with a digit: its leading digits. *)
Fixpoint leadingDigits (s : jsstring) : jsstring :=
  match s with
  | c :: s' => if isDigit c then c :: leadingDigits s' else []
  | [] => []
  end.

Definition parseInt (s : jsstring) : number :=
  match leadingDigits (trimStart s) with
  | [] => NaN
  | ds => Some (Z.of_N (digitsValue ds))
  end.

Definition parseDateFromComponents (day month year : jsstring) : option Date :=
  (* Convert Bengali numerals *)
  let dayNum := parseInt (convertBengaliNumerals day) in
  let yearNum := parseInt (convertBengaliNumerals year) in
  match find (fun e => JSString.eqb (fst e) month) bengaliMonths with
  | Some e => Some (newDate3 yearNum (Some (snd e)) dayNum)
  | None => None
  end.

(** The variables the loop of [enhancedContextBasedParsing] updates. *)
Record Context : Type := mkContext {
  transactions : list Transaction;
  currentDate : option Date;
  currentSender : jsstring;
  errors : list ParseError
}.

Definition monir : jsstring := Eval vm_compute in utf16 "monir".

Definition catchLine (i : nat) (line : jsstring) (ctx : Context) (error : Error)
  : M Context :=
  ret (mkContext (transactions ctx) (currentDate ctx) (currentSender ctx)
                 (errors ctx
                  ++ [mkParseError (Z.of_nat i + 1) (errorMessage error) line])).

(** One turn of the loop, for the line of index [i].  In the [try] block
    only [validateAndExtractTransactions] can throw, and the assignments to
    [currentDate] and [currentSender] precede it. *)
Definition processLine (ctx : Context) (entry : nat * jsstring) : M Context :=
  let (i, raw) := entry in
  let line := trim raw in
  if isEmpty line then ret ctx
  else
    (* Check if this is a message header *)
    match exec messagePattern line with
    | Some messageMatch =>
        let dateStr := group 1 messageMatch in
        let timeStr := group 2 messageMatch in
        let ampm := capture 3 (groups messageMatch) in
        let sender := group 4 messageMatch in
        let message := group 5 messageMatch in
        let currentDate := parseDate dateStr timeStr ampm in
        let currentSender := normalizeSenderName sender in
        let ctx := mkContext (transactions ctx) currentDate currentSender (errors ctx) in
        (* Process the message part only for Monir with valid date (case insensitive) *)
        match currentDate with
        | Some date =>
            if JSString.eqb (toLowerCase currentSender) monir then
              tryCatch
                (result <- validateAndExtractTransactions message currentSender date
                                                          (Z.of_nat i + 1) ;;
                 ret (mkContext (transactions ctx ++ extractedTransactions result)
                                currentDate currentSender (errors ctx)))
                (catchLine i line ctx)
            else ret ctx
        | None => ret ctx
        end
    | None =>
        (* This is a continuation line or standalone line *)
        match exec dateOnlyPattern line with
        | Some dateOnlyMatch =>
            (* This is a date line, update current date but don't create transactions *)
            match parseDateFromComponents (group 1 dateOnlyMatch)
                                          (group 2 dateOnlyMatch)
                                          (group 3 dateOnlyMatch) with
            | Some parsedDate =>
                ret (mkContext (transactions ctx) (Some parsedDate)
                               (currentSender ctx) (errors ctx))
            | None => ret ctx
            end
        | None =>
            (* Use the most recent valid context from previous message header *)
            let useSender :=
              if isEmpty (currentSender ctx) then utf16 "unknown"
              else currentSender ctx in
            useDate <- match currentDate ctx with
                       | Some d => ret d
                       | None => newDateNow
                       end ;;
            (* Only process continuation lines if the current sender is Monir *)
            if JSString.eqb (toLowerCase useSender) monir then
              tryCatch
                (result <- validateAndExtractTransactions line useSender useDate
                                                          (Z.of_nat i + 1) ;;
                 ret (mkContext (transactions ctx ++ extractedTransactions result)
                                (currentDate ctx) (currentSender ctx) (errors ctx)))
                (catchLine i line ctx)
            else ret ctx
        end
    end.

Fixpoint indexed {A : Type} (i : nat) (l : list A) : list (nat * A) :=
  match l with
  | [] => []
  | x :: l' => (i, x) :: indexed (S i) l'
  end.

(** The function returns the transactions; the errors are pushed onto the
    array the caller passed. *)
Definition enhancedContextBasedParsing (lines : list jsstring)
                                       (errors : list ParseError)
  : M (list Transaction * list ParseError) :=
  ctx <- forEachM processLine (indexed 0 lines) (mkContext [] None [] errors) ;;
  ret (transactions ctx, WhatsAppParser.errors ctx).

(** *** contextBasedCategorizing *)

Definition getNormalizedItemKey (item : jsstring) : jsstring :=
  trim
    (replaceAll (plus space) []                      (* Remove spaces *)
       (replaceAll                                    (* Keep only letters and Bengali *)
          (Char (fun c => negb (isWordChar c || isWhiteSpace c || isBengali c))) []
          (replaceAll (plus digit) []                 (* Remove all numbers *)
             (toLowerCase item)))).

(** [new Set(xs)]: the distinct elements, in the order of first occurrence. *)
Fixpoint distinctUnits (seen : list N) (xs : list N) : list N :=
  match xs with
  | [] => []
  | x :: xs' =>
      if existsb (N.eqb x) seen then distinctUnits seen xs'
      else x :: distinctUnits (x :: seen) xs'
  end.

(** [intersection.size / union.size]; [None] is the [NaN] of [0 / 0]. *)
Definition calculateSimilarity (str1 str2 : jsstring) : option Q :=
  let set1 := distinctUnits [] str1 in
  let set2 := distinctUnits [] str2 in
  let intersection := filter (fun x => existsb (N.eqb x) set2) set1 in
  let union := distinctUnits [] (set1 ++ set2) in
  match union with
  | [] => None
  | _ => Some (fdiv (ofZ (Z.of_nat (List.length intersection)))
                    (ofZ (Z.of_nat (List.length union))))
  end.

(** A [Map] with string keys, in insertion order. *)
Definition StringMap (V : Type) : Type := list (jsstring * V).

Definition mapGet {V : Type} (key : jsstring) (m : StringMap V) : option V :=
  match find (fun e => JSString.eqb (fst e) key) m with
  | Some e => Some (snd e)
  | None => None
  end.

Fixpoint mapSet {V : Type} (key : jsstring) (v : V) (m : StringMap V)
  : StringMap V :=
  match m with
  | [] => [(key, v)]
  | (k, v0) :: m' =>
      if JSString.eqb k key then (k, v) :: m' else (k, v0) :: mapSet key v m'
  end.

(** [nameCount.set(name, (nameCount.get(name) || 0) + 1)] for every name *)
Definition countNames (itemNames : list jsstring) : StringMap Z :=
  fold_left
    (fun nameCount name =>
       mapSet name (match mapGet name nameCount with
                    | Some n => n + 1
                    | None => 0 + 1
                    end)%Z nameCount)
    itemNames [].

(** [/^\d/] *)
Definition leadingDigit : regex := seq [Bol; digit].

Definition chooseBestItemName (itemNames : list jsstring) : jsstring :=
  (* Count frequency of each name *)
  let nameCount := countNames itemNames in
  (* Choose the most frequent name, or the shortest clean name *)
  let bestName := hd [] itemNames in
  let '(bestName, maxCount) :=
    fold_left
      (fun (st : jsstring * Z) (e : jsstring * Z) =>
         let '(bestName, maxCount) := st in
         let '(name, count) := e in
         if (maxCount <? count)%Z
            || ((count =? maxCount)%Z
                && Nat.ltb (List.length name) (List.length bestName))
         then (name, count)
         else (bestName, maxCount))
      nameCount (bestName, 0%Z) in
  (* Prefer names without leading numbers *)
  let cleanNames := filter (fun name => negb (test leadingDigit name)) itemNames in
  match cleanNames with
  | [] => bestName
  | _ =>
      let cleanNameCount := countNames cleanNames in
      (* If clean name appears at least 50% as much *)
      match find (fun e : jsstring * Z => (maxCount <=? 2 * snd e)%Z)
                 cleanNameCount with
      | Some e => fst e
      | None => bestName
      end
  end.

Definition setItem (t : Transaction) (item : jsstring) : Transaction :=
  mkTransaction (id t) (date t) (sender t) item (amount t) (originalMessage t)
                (createdAt t) (updatedAt t).

Definition setHas (key : jsstring) (set : list jsstring) : bool :=
  existsb (JSString.eqb key) set.

Definition groupOf (key : jsstring) (m : StringMap (list Transaction))
  : list Transaction :=
  match mapGet key m with Some g => g | None => [] end.

Definition contextBasedCategorizing (transactions : list Transaction)
  : list Transaction :=
  (* Step 1: Group items by exact similarity *)
  let exactGroups : StringMap (list Transaction) :=
    fold_left
      (fun exactGroups transaction =>
         let normalizedItem := getNormalizedItemKey (item transaction) in
         mapSet normalizedItem (groupOf normalizedItem exactGroups ++ [transaction])
                exactGroups)
      transactions [] in
  (* Step 2: Merge groups with high similarity (percentage-based) *)
  let groupKeys := map fst exactGroups in
  let '(mergedGroups, _) :=
    fold_left
      (fun (st : StringMap (list Transaction) * list jsstring) key1 =>
         let '(mergedGroups, processed) := st in
         if setHas key1 processed then st
         else
           let mainGroup := groupOf key1 exactGroups in
           (* Find similar groups *)
           let '(similarGroups, processed) :=
             fold_left
               (fun (st2 : list (list Transaction) * list jsstring) key2 =>
                  let '(similarGroups, processed) := st2 in
                  if negb (JSString.eqb key1 key2) && negb (setHas key2 processed) then
                    match calculateSimilarity key1 key2 with
                    | Some similarity =>
                        if gtb similarity (2 # 10) then
                          (similarGroups ++ [groupOf key2 exactGroups],
                           processed ++ [key2])
                        else st2
                    | None => st2
                    end
                  else st2)
               groupKeys ([mainGroup], processed) in
           (* Merge all similar groups *)
           let allTransactions := List.concat similarGroups in
           let bestItemName := chooseBestItemName (map item allTransactions) in
           (mapSet key1 (map (fun t => setItem t bestItemName) allTransactions)
                   mergedGroups,
            processed ++ [key1]))
      groupKeys ([], []) in
  List.concat (map snd mergedGroups).

(** *** removeDuplicates *)

(** [Math.floor(transaction.date.getTime() / (5 * 60 * 1000))], printed. *)
Definition dateKey (d : Date) : jsstring :=
  match getTime d with
  | Some t => intToString (t / (5 * 60 * 1000))%Z
  | None => utf16 "NaN"
  end.

(** [`${transaction.sender}-${transaction.item}-${transaction.amount}-${dateKey}`] *)
Definition duplicateKey (transaction : Transaction) : jsstring :=
  sender transaction ++ utf16 "-" ++ item transaction ++ utf16 "-"
    ++ Money.toString (amount transaction) ++ utf16 "-"
    ++ dateKey (date transaction).

Fixpoint removeDuplicatesFrom (seen : list jsstring) (transactions : list Transaction)
  : list Transaction :=
  match transactions with
  | [] => []
  | transaction :: rest =>
      let key := duplicateKey transaction in
      if setHas key seen then removeDuplicatesFrom seen rest
      else transaction :: removeDuplicatesFrom (key :: seen) rest
  end.

Definition removeDuplicates (transactions : list Transaction) : list Transaction :=
  removeDuplicatesFrom [] transactions.

(** *** parseFile *)

Record ParseResult : Type := mkParseResult {
  resultTransactions : list Transaction;
  resultErrors : list ParseError;
  summary : ParseSummary;
  suspiciousTransactions : list SuspiciousTransaction
}.

(** Step 1 of [parseFile]: the lines without the prefix, trimmed, the empty
    ones left out. *)
Definition preprocess (content : jsstring) : list jsstring :=
  filter (fun line => negb (isEmpty line))
         (map (fun line => trim (replaceAll bibaranPrefix [] line))
              (splitUnit 10 content)).

Definition parseFile (content : jsstring) : M ParseResult :=
  startTime <- performance_now ;;
  let errors : list ParseError := [] in
  let suspiciousTransactions : list SuspiciousTransaction := [] in
  (* Step 1: Pre-parsing *)
  let lines := splitUnit 10 content in
  let processedLines := preprocess content in
  (* Step 2: Parse with enhanced filtering and validation *)
  parsed <- enhancedContextBasedParsing processedLines errors ;;
  let '(allTransactions, errors) := parsed in
  (* Step 3: Group similar items using context-based categorizing *)
  let groupedTransactions := contextBasedCategorizing allTransactions in
  (* Step 4: Remove duplicates to prevent inflated counts *)
  let uniqueTransactions := removeDuplicates groupedTransactions in
  let duplicatesSkipped :=
    (Z.of_nat (List.length groupedTransactions)
     - Z.of_nat (List.length uniqueTransactions))%Z in
  now_ <- performance_now ;;
  let processingTime := fsub now_ startTime in
  let summary :=
    mkParseSummary (Z.of_nat (List.length lines))
                   (Z.of_nat (List.length uniqueTransactions))
                   (Z.of_nat (List.length errors))
                   duplicatesSkipped processingTime in
  ret (mkParseResult uniqueTransactions errors summary suspiciousTransactions).

End WhatsAppParser.

(** ** BillingService: the period of one month
    ([createMonthPeriod], [src/lib/services/billingService.ts]) *)

Module BillingPeriods.
Import Num JSDate JSString Types Runtime BillingService.
Local Open Scope Z_scope.

(** ['month' | 'custom'] *)
Inductive PeriodType : Type := typeMonth | typeCustom.

(** A [BillingPeriod]: the two dates and the [type]. *)
Record BillingPeriod : Type := mkBillingPeriod {
  period : Period;
  type : PeriodType
}.

(** [new Date(year, month, date, hours, minutes, seconds)] *)
Definition newDate6 (y m dt h mi s : number) : Date :=
  mkDate (TimeClip (MakeDate (MakeDay (MakeFullYear y) m dt)
                             (MakeTime h mi s (Some 0)))).

(** [year] and [month] are integers here. *)
Definition createMonthPeriod (year month : Z) : BillingPeriod :=
  (* Month billing period: 15th of (month-1) to 14th of month *)
  let startDate := newDate3 (Some year) (Some (month - 1)) (Some 15) in
  let endDate :=
    newDate6 (Some year) (Some month) (Some 14) (Some 23) (Some 59) (Some 59) in
  mkBillingPeriod (mkPeriod startDate endDate) typeMonth.

End BillingPeriods.

(** * Facts about the Date model *)

Module DateFacts.
Import Num JSDate.
Local Open Scope Z_scope.

Lemma DaysInYear_cases y : DaysInYear y = 365 \/ DaysInYear y = 366.
Proof.
  unfold DaysInYear.
  repeat match goal with |- context [if ?b then _ else _] => destruct b end; auto.
Qed.

Lemma DayFromYear_succ y : DayFromYear (y + 1) = DayFromYear y + DaysInYear y.
Proof.
  unfold DayFromYear, DaysInYear.
  repeat match goal with |- context [?a =? ?b] => destruct (Z.eqb_spec a b) end;
    cbn [negb]; Z.div_mod_to_equations; lia.
Qed.

Lemma DayFromYear_mono y1 y2 : y1 <= y2 -> DayFromYear y1 <= DayFromYear y2.
Proof. unfold DayFromYear. intros. Z.div_mod_to_equations. lia. Qed.

Lemma YearFromDay_spec d :
  DayFromYear (YearFromDay d) <= d < DayFromYear (YearFromDay d + 1).
Proof.
  unfold YearFromDay.
  set (y := 1970 + 400 * d / 146097).
  destruct (Z.ltb_spec d (DayFromYear y));
    [|destruct (Z.leb_spec (DayFromYear (y + 1)) d)].
  - replace (y - 1 + 1) with y by lia. split; [|assumption].
    subst y. unfold DayFromYear in *. Z.div_mod_to_equations. lia.
  - split; [assumption|].
    subst y. unfold DayFromYear in *. Z.div_mod_to_equations. lia.
  - lia.
Qed.

Lemma DayFromYear_lt y1 y2 : DayFromYear y1 < DayFromYear (y2 + 1) -> y1 <= y2.
Proof.
  intros H. destruct (Z_le_gt_dec y1 y2) as [|G]; [assumption|].
  assert (y2 + 1 <= y1) as L by lia. apply DayFromYear_mono in L. lia.
Qed.

Lemma YearFromDay_unique d y :
  DayFromYear y <= d < DayFromYear (y + 1) -> YearFromDay d = y.
Proof.
  intros [H1 H2]. pose proof (YearFromDay_spec d) as [S1 S2].
  assert (y <= YearFromDay d) by (apply DayFromYear_lt; lia).
  assert (YearFromDay d <= y) by (apply DayFromYear_lt; lia).
  lia.
Qed.

Ltac month_cases mn :=
  let C := fresh "C" in
  assert (mn = 0 \/ mn = 1 \/ mn = 2 \/ mn = 3 \/ mn = 4 \/ mn = 5 \/ mn = 6 \/
          mn = 7 \/ mn = 8 \/ mn = 9 \/ mn = 10 \/ mn = 11) as C by lia;
  repeat (destruct C as [C|C]; [subst mn|]); [..|subst mn].

Lemma DaysBeforeMonth_bounds y mn dt :
  0 <= mn < 12 -> 1 <= dt <= 28 ->
  0 <= DaysBeforeMonth y mn + dt - 1 < DaysInYear y.
Proof.
  intros Hm Hd. unfold DaysBeforeMonth.
  destruct (DaysInYear_cases y) as [E|E]; rewrite E; cbn [Z.eqb Pos.eqb];
    month_cases mn; cbv beta iota zeta; lia.
Qed.

(** The time value [t] of day [dt] of month [mn] of year [ym], [tod]
    milliseconds after midnight, reads back as that date. *)
Section CivilDay.
Variables (ym mn dt tod : Z).
Hypothesis Hmn : 0 <= mn < 12.
Hypothesis Hdt : 1 <= dt <= 28.
Hypothesis Htod : 0 <= tod < msPerDay.

Let t := (DayFromYear ym + DaysBeforeMonth ym mn + dt - 1) * msPerDay + tod.

Lemma civil_Day : Day t = DayFromYear ym + DaysBeforeMonth ym mn + dt - 1.
Proof. unfold Day, t. unfold msPerDay in *. Z.div_mod_to_equations. lia. Qed.

Lemma civil_TimeWithinDay : TimeWithinDay t = tod.
Proof. unfold TimeWithinDay, t. unfold msPerDay in *. Z.div_mod_to_equations. lia. Qed.

Lemma civil_Year : YearFromTime t = ym.
Proof.
  unfold YearFromTime. rewrite civil_Day. apply YearFromDay_unique.
  rewrite DayFromYear_succ.
  pose proof (DaysBeforeMonth_bounds ym mn dt Hmn Hdt). lia.
Qed.

Lemma civil_DayWithinYear : DayWithinYear t = DaysBeforeMonth ym mn + dt - 1.
Proof. unfold DayWithinYear. rewrite civil_Year, civil_Day. lia. Qed.

Lemma civil_Month : MonthFromTime t = mn.
Proof.
  unfold MonthFromTime, InLeapYear. rewrite civil_DayWithinYear, civil_Year.
  unfold DaysBeforeMonth.
  destruct (DaysInYear_cases ym) as [E|E]; rewrite E; cbn [Z.eqb Pos.eqb];
    month_cases mn; cbv beta iota zeta;
    repeat match goal with
           | |- context [?a <? ?b] => destruct (Z.ltb_spec a b); try lia
           end; reflexivity.
Qed.

Lemma civil_Date : DateFromTime t = dt.
Proof.
  unfold DateFromTime. rewrite civil_Month. unfold InLeapYear.
  rewrite civil_DayWithinYear, civil_Year. unfold DaysBeforeMonth.
  destruct (DaysInYear ym =? 366); month_cases mn; cbv beta iota zeta; lia.
Qed.

End CivilDay.

(** Months counted from year 0: month [mi] is month [mi mod 12] of year
    [mi / 12]. *)
Definition monthStart (mi : Z) : Z :=
  DayFromYear (mi / 12) + DaysBeforeMonth (mi / 12) (mi mod 12).

(** The time value of day [dt] of month [mi], at midnight. *)
Definition dayOf (mi dt : Z) : Z := (monthStart mi + dt - 1) * msPerDay.

Definition fullYear (y : Z) : Z :=
  if (0 <=? y) && (y <=? 99) then 1900 + y else y.

Lemma MakeDay_monthStart y m dt :
  MakeDay (Some y) (Some m) (Some dt) = Some (monthStart (12 * y + m) + dt - 1).
Proof.
  unfold MakeDay, monthStart.
  replace ((12 * y + m) / 12) with (y + m / 12) by (Z.div_mod_to_equations; lia).
  replace ((12 * y + m) mod 12) with (m mod 12) by (Z.div_mod_to_equations; lia).
  reflexivity.
Qed.

Lemma newDate3_dayOf y m dt :
  newDate3 (Some y) (Some m) (Some dt)
  = mkDate (TimeClip (Some (dayOf (12 * fullYear y + m) dt))).
Proof.
  unfold newDate3, newDate5, MakeFullYear, fullYear, dayOf.
  destruct ((0 <=? y) && (y <=? 99)); rewrite MakeDay_monthStart;
    cbn [MakeTime MakeDate]; do 3 f_equal; lia.
Qed.

Lemma dayOf_alt mi dt :
  dayOf mi dt
  = (DayFromYear (mi / 12) + DaysBeforeMonth (mi / 12) (mi mod 12) + dt - 1)
    * msPerDay + 0.
Proof. unfold dayOf, monthStart. lia. Qed.

Section DayOfGetters.
Variables (mi dt : Z).
Hypothesis Hdt : 1 <= dt <= 28.

Let Hmn : 0 <= mi mod 12 < 12.
Proof. apply Z.mod_pos_bound. lia. Qed.

Let Htod : 0 <= 0 < msPerDay.
Proof. unfold msPerDay. lia. Qed.

Lemma dayOf_Year : YearFromTime (dayOf mi dt) = mi / 12.
Proof. rewrite dayOf_alt. apply civil_Year; assumption. Qed.

Lemma dayOf_Month : MonthFromTime (dayOf mi dt) = mi mod 12.
Proof. rewrite dayOf_alt. apply civil_Month; assumption. Qed.

Lemma dayOf_Date : DateFromTime (dayOf mi dt) = dt.
Proof. rewrite dayOf_alt. apply civil_Date; assumption. Qed.

Lemma dayOf_TimeWithinDay : TimeWithinDay (dayOf mi dt) = 0.
Proof. rewrite dayOf_alt. apply civil_TimeWithinDay; assumption. Qed.

End DayOfGetters.

Lemma monthStart_step mi : 28 <= monthStart (mi + 1) - monthStart mi <= 31.
Proof.
  unfold monthStart.
  assert (0 <= mi mod 12 < 12) as Hm by (apply Z.mod_pos_bound; lia).
  destruct (Z.eq_dec (mi mod 12) 11) as [E|E].
  - replace ((mi + 1) / 12) with (mi / 12 + 1) by (Z.div_mod_to_equations; lia).
    replace ((mi + 1) mod 12) with 0 by (Z.div_mod_to_equations; lia).
    rewrite E, DayFromYear_succ. unfold DaysBeforeMonth.
    destruct (DaysInYear_cases (mi / 12)) as [D|D]; rewrite D;
      cbn [Z.eqb Pos.eqb]; cbv beta iota zeta; lia.
  - replace ((mi + 1) / 12) with (mi / 12) by (Z.div_mod_to_equations; lia).
    replace ((mi + 1) mod 12) with (mi mod 12 + 1) by (Z.div_mod_to_equations; lia).
    generalize dependent (mi mod 12). intros mn Hm E.
    unfold DaysBeforeMonth.
    destruct (DaysInYear_cases (mi / 12)) as [D|D]; rewrite D;
      cbn [Z.eqb Pos.eqb]; month_cases mn; try lia;
      cbn [Z.add Pos.add Pos.succ]; cbv beta iota zeta; lia.
Qed.

Lemma monthStart_le mi n : 0 <= n -> monthStart mi + 28 * n <= monthStart (mi + n).
Proof.
  intros Hn. revert n Hn. apply natlike_ind.
  - replace (mi + 0) with mi by lia. lia.
  - intros n Hn IH. replace (mi + Z.succ n) with (mi + n + 1) by lia.
    pose proof (monthStart_step (mi + n)). lia.
Qed.

Lemma monthStart_ge mi n : 0 <= n -> monthStart (mi + n) <= monthStart mi + 31 * n.
Proof.
  intros Hn. revert n Hn. apply natlike_ind.
  - replace (mi + 0) with mi by lia. lia.
  - intros n Hn IH. replace (mi + Z.succ n) with (mi + n + 1) by lia.
    pose proof (monthStart_step (mi + n)). lia.
Qed.

Lemma monthStart_mono mi mj : mi <= mj -> monthStart mi <= monthStart mj.
Proof.
  intros H. pose proof (monthStart_le mi (mj - mi)).
  replace (mi + (mj - mi)) with mj in * by lia. lia.
Qed.

End DateFacts.

(** * The billing periods *)

Module BillingFacts.
Import Num JSDate JSString Money Types Runtime BillingService DateFacts.
Local Open Scope Z_scope.

Lemma MonthFromTime_range t : 0 <= MonthFromTime t <= 11.
Proof.
  unfold MonthFromTime.
  repeat match goal with |- context [if ?b then _ else _] => destruct b end; lia.
Qed.

Lemma fullYear_ge y : y <= fullYear y.
Proof. unfold fullYear. destruct ((0 <=? y) && (y <=? 99)); lia. Qed.

Lemma TimeClip_Some t u : TimeClip (Some t) = Some u -> u = t /\ Z.abs t <= maxTime.
Proof.
  unfold TimeClip. destruct (Z.leb_spec (Z.abs t) maxTime); intros E;
    inversion E; subst; auto.
Qed.

Lemma TimeClip_valid t : Z.abs t <= maxTime -> TimeClip (Some t) = Some t.
Proof.
  intros H. unfold TimeClip. destruct (Z.leb_spec (Z.abs t) maxTime); [reflexivity|lia].
Qed.

Lemma TimeClip_idem n : TimeClip (TimeClip n) = TimeClip n.
Proof.
  destruct n as [t|]; [|reflexivity].
  destruct (TimeClip (Some t)) as [u|] eqn:E; [|reflexivity].
  apply TimeClip_Some in E. destruct E as [-> E].
  apply TimeClip_valid; assumption.
Qed.

Lemma copyDate_idem d : copyDate (copyDate d) = copyDate d.
Proof. unfold copyDate. cbn [getTime]. rewrite TimeClip_idem. reflexivity. Qed.

(** The month index the loop body moves to from month [mi]: the two-digit
    year rule applies to the year read back from the current start. *)
Definition nextIndex (mi : Z) : Z := 12 * fullYear (mi / 12) + (mi mod 12 + 1).

Lemma nextIndex_gt mi : mi + 1 <= nextIndex mi.
Proof.
  unfold nextIndex. pose proof (fullYear_ge (mi / 12)).
  Z.div_mod_to_equations. lia.
Qed.

Lemma nextIndex_plain mi : 1200 <= mi -> nextIndex mi = mi + 1.
Proof.
  intros H. unfold nextIndex, fullYear.
  assert (100 <= mi / 12) by (Z.div_mod_to_equations; lia).
  destruct (Z.leb_spec (mi / 12) 99); [lia|].
  rewrite andb_false_r. Z.div_mod_to_equations. lia.
Qed.

Lemma nextIndex_mod mi : nextIndex mi mod 12 = (mi mod 12 + 1) mod 12.
Proof. unfold nextIndex. Z.div_mod_to_equations. lia. Qed.

(** The end of the period that starts on the 15th of month [mi], before it
    is compared with the requested end. *)
Definition endTime (mi : Z) : number :=
  match TimeClip (Some (dayOf (nextIndex mi) 14)) with
  | None => None
  | Some t =>
      if mi mod 12 =? 11 then TimeClip (Some (dayOf (nextIndex mi + 12) 14))
      else Some t
  end.

Definition periodFrom (endDate : Date) (mi : Z) : Period :=
  mkPeriod (mkDate (TimeClip (Some (dayOf mi 15))))
           (copyDate (if date_gt (mkDate (endTime mi)) endDate
                      then copyDate endDate
                      else copyDate (mkDate (endTime mi)))).

Lemma getters_dayOf mi dt :
  1 <= dt <= 28 ->
  getFullYear (mkDate (Some (dayOf mi dt))) = Some (mi / 12)
  /\ getMonth (mkDate (Some (dayOf mi dt))) = Some (mi mod 12)
  /\ getDate (mkDate (Some (dayOf mi dt))) = Some dt.
Proof.
  intros H. unfold getFullYear, getMonth, getDate. cbn [getTime option_map].
  rewrite dayOf_Year, dayOf_Month, dayOf_Date by assumption. auto.
Qed.

Lemma loopBody_15th endDate st mi :
  currentStart st = mkDate (Some (dayOf mi 15)) ->
  loopBody endDate st
  = mkLoopState (mkDate (TimeClip (Some (dayOf (nextIndex mi) 15))))
                (iterations st + 1)
                (periods st ++ [periodFrom endDate mi]).
Proof.
  intros Hcs. unfold loopBody. rewrite Hcs.
  destruct (getters_dayOf mi 15 ltac:(lia)) as (Gy & Gm & Gd).
  rewrite Gy, Gm. cbn [Num.add].
  rewrite !newDate3_dayOf.
  replace (12 * fullYear (mi / 12) + (mi mod 12 + 1)) with (nextIndex mi)
    by reflexivity.
  assert (0 <= mi mod 12 < 12) as Hm by (apply Z.mod_pos_bound; lia).
  (* the next start never has a month above 11 *)
  assert (Num.gt (getMonth (mkDate (TimeClip (Some (dayOf (nextIndex mi) 15)))))
                 (Some 11) = false) as Hgt.
  { destruct (TimeClip (Some (dayOf (nextIndex mi) 15))) as [u|] eqn:Eu;
      [|reflexivity].
    apply TimeClip_Some in Eu. destruct Eu as [-> _].
    destruct (getters_dayOf (nextIndex mi) 15 ltac:(lia)) as (_ & Gm' & _).
    rewrite Gm'. unfold Num.gt, Num.lt.
    assert (0 <= nextIndex mi mod 12 < 12) by (apply Z.mod_pos_bound; lia).
    apply Z.ltb_ge. lia. }
  rewrite Hgt.
  assert ((if Num.lt (getMonth (mkDate (TimeClip (Some (dayOf (nextIndex mi) 14)))))
                     (Some (mi mod 12))
           then setFullYear (mkDate (TimeClip (Some (dayOf (nextIndex mi) 14))))
                  (Num.add (getFullYear
                     (mkDate (TimeClip (Some (dayOf (nextIndex mi) 14))))) (Some 1))
           else mkDate (TimeClip (Some (dayOf (nextIndex mi) 14))))
          = mkDate (endTime mi)) as ->; [|reflexivity].
  unfold endTime.
  destruct (TimeClip (Some (dayOf (nextIndex mi) 14))) as [u|] eqn:Eu;
    [|reflexivity].
  apply TimeClip_Some in Eu. destruct Eu as [-> _].
  destruct (getters_dayOf (nextIndex mi) 14 ltac:(lia)) as (Gy' & Gm' & Gd').
  rewrite Gm', Gy'. cbn [Num.lt Num.add]. rewrite nextIndex_mod.
  destruct (Z.eqb_spec (mi mod 12) 11) as [E|E].
  - assert (nextIndex mi mod 12 = 0) as E0 by (rewrite nextIndex_mod, E; reflexivity).
    rewrite E. change ((11 + 1) mod 12 <? 11) with true. cbv iota.
    unfold setFullYear. cbn [getTime].
    rewrite dayOf_Month, dayOf_Date, dayOf_TimeWithinDay by lia.
    rewrite MakeDay_monthStart. cbn [MakeDate]. rewrite E0. unfold dayOf.
    replace (12 * (nextIndex mi / 12 + 1) + 0) with (nextIndex mi + 12)
      by (Z.div_mod_to_equations; lia).
    do 3 f_equal. lia.
  - replace ((mi mod 12 + 1) mod 12) with (mi mod 12 + 1)
        by (Z.div_mod_to_equations; lia).
      destruct (Z.ltb_spec (mi mod 12 + 1) (mi mod 12)); [lia|reflexivity].
Qed.

(** *** The loop as a whole *)

Lemma while_unfold fuel endDate st :
  while (S fuel) endDate st
  = if loopCondition endDate st then while fuel endDate (loopBody endDate st)
    else st.
Proof. reflexivity. Qed.

Lemma loopBody_iterations endDate st :
  iterations (loopBody endDate st) = iterations st + 1.
Proof. reflexivity. Qed.

Lemma loopBody_length endDate st :
  List.length (periods (loopBody endDate st)) = S (List.length (periods st)).
Proof. unfold loopBody. cbn [periods]. rewrite length_app. cbn. lia. Qed.

(** Each turn of the loop pushes one period. *)
Lemma while_length fuel endDate st :
  Z.of_nat (List.length (periods (while fuel endDate st)))
  - iterations (while fuel endDate st)
  = Z.of_nat (List.length (periods st)) - iterations st.
Proof.
  revert st. induction fuel as [|fuel IH]; intros st; [reflexivity|].
  rewrite while_unfold. destruct (loopCondition endDate st); [|reflexivity].
  rewrite IH, loopBody_length, loopBody_iterations. lia.
Qed.

Lemma while_iterations_range fuel endDate st :
  iterations st <= maxIterations ->
  iterations st <= iterations (while fuel endDate st) <= maxIterations.
Proof.
  revert st. induction fuel as [|fuel IH]; intros st H; [cbn; lia|].
  rewrite while_unfold. destruct (loopCondition endDate st) eqn:C; [|lia].
  unfold loopCondition in C. apply andb_prop in C. destruct C as [_ C].
  apply Z.ltb_lt in C.
  specialize (IH (loopBody endDate st)). rewrite loopBody_iterations in IH. lia.
Qed.

(** [maxIterations] unfoldings are enough: the loop has reached its exit. *)
Lemma while_exits fuel endDate st :
  maxIterations - iterations st <= Z.of_nat fuel ->
  loopCondition endDate (while fuel endDate st) = false.
Proof.
  revert st. induction fuel as [|fuel IH]; intros st H.
  - cbn [while]. unfold loopCondition.
    destruct (Z.ltb_spec (iterations st) maxIterations); [lia|].
    apply andb_false_r.
  - rewrite while_unfold. destruct (loopCondition endDate st) eqn:C; [|assumption].
    apply IH. rewrite loopBody_iterations. lia.
Qed.

(** More fuel changes nothing once the exit is reached. *)
Lemma while_more_fuel fuel extra endDate st :
  maxIterations - iterations st <= Z.of_nat fuel ->
  while (fuel + extra) endDate st = while fuel endDate st.
Proof.
  revert st. induction fuel as [|fuel IH]; intros st H.
  - cbn [Nat.add while]. destruct extra as [|extra]; [reflexivity|].
    rewrite while_unfold. unfold loopCondition.
    destruct (Z.ltb_spec (iterations st) maxIterations); [lia|].
    rewrite andb_false_r. reflexivity.
  - cbn [Nat.add]. rewrite !while_unfold.
    destruct (loopCondition endDate st); [|reflexivity].
    apply IH. rewrite loopBody_iterations. lia.
Qed.

(** *** The first start *)

Definition startIndex (t : Z) : Z :=
  12 * fullYear (YearFromTime t)
  + (if DateFromTime t <? 15 then MonthFromTime t - 1 else MonthFromTime t).

Lemma month_not_negative n :
  Num.lt (getMonth (mkDate (TimeClip (Some (dayOf n 15))))) (Some 0) = false.
Proof.
  destruct (TimeClip (Some (dayOf n 15))) as [u|] eqn:Eu; [|reflexivity].
  apply TimeClip_Some in Eu. destruct Eu as [-> _].
  destruct (getters_dayOf n 15 ltac:(lia)) as (_ & Gm & _). rewrite Gm.
  cbn [Num.lt]. assert (0 <= n mod 12 < 12) by (apply Z.mod_pos_bound; lia).
  apply Z.ltb_ge. lia.
Qed.

Lemma initialStart_invalid : initialStart (mkDate None) = mkDate None.
Proof. reflexivity. Qed.

Lemma initialStart_valid t :
  initialStart (mkDate (Some t))
  = mkDate (TimeClip (Some (dayOf (startIndex t) 15))).
Proof.
  unfold initialStart, getFullYear, getMonth, getDate, startIndex.
  cbn [getTime option_map Num.lt Num.sub].
  rewrite !newDate3_dayOf.
  destruct (DateFromTime t <? 15);
    match goal with
    | |- (if Num.lt (option_map MonthFromTime (getTime ?d)) _ then _ else _) = _ =>
        change (option_map MonthFromTime (getTime d)) with (getMonth d)
    end;
    rewrite month_not_negative; reflexivity.
Qed.

Lemma Date_eta d : d = mkDate (getTime d).
Proof. destruct d; reflexivity. Qed.

Lemma dayOf_lt_next mi mj : mi + 1 <= mj -> dayOf mi 15 < dayOf mj 14.
Proof.
  intros H. unfold dayOf.
  pose proof (monthStart_step mi). pose proof (monthStart_mono (mi + 1) mj H).
  unfold msPerDay. lia.
Qed.

Lemma dayOf_15_mono mi mj : mi < mj -> dayOf mi 15 < dayOf mj 15.
Proof.
  intros H. unfold dayOf.
  pose proof (monthStart_step mi).
  pose proof (monthStart_mono (mi + 1) mj ltac:(lia)).
  unfold msPerDay. lia.
Qed.

(** A returned period is well formed when its start is a valid date not
    after the requested end, and its end is invalid or not before its
    start. *)
Definition wellFormed (endDate : Date) (p : Period) : Prop :=
  (exists a, getTime (startDate p) = Some a)
  /\ date_le (startDate p) endDate = true
  /\ (getTime (BillingService.endDate p) = None
      \/ date_le (startDate p) (BillingService.endDate p) = true).

Lemma endTime_ge mi b : endTime mi = Some b -> dayOf mi 15 < b.
Proof.
  unfold endTime.
  destruct (TimeClip (Some (dayOf (nextIndex mi) 14))) as [u|] eqn:Eu;
    [|discriminate].
  apply TimeClip_Some in Eu. destruct Eu as [-> _].
  pose proof (nextIndex_gt mi).
  destruct (mi mod 12 =? 11).
  - intros E. apply TimeClip_Some in E. destruct E as [-> _].
    apply dayOf_lt_next. lia.
  - intros E. inversion E; subst. apply dayOf_lt_next. lia.
Qed.

Lemma periodFrom_wellFormed endDate mi :
  Z.abs (dayOf mi 15) <= maxTime ->
  date_le (mkDate (Some (dayOf mi 15))) endDate = true ->
  wellFormed endDate (periodFrom endDate mi).
Proof.
  intros Hv Hle. unfold wellFormed, periodFrom. cbn [startDate BillingService.endDate].
  rewrite TimeClip_valid by assumption.
  split; [eexists; reflexivity|]. split; [assumption|].
  unfold date_le in *. cbn [getTime] in *.
  destruct (getTime endDate) as [e|] eqn:Ee; [|discriminate].
  cbn [Num.le] in Hle. apply Z.leb_le in Hle.
  destruct (date_gt (mkDate (endTime mi)) endDate) eqn:G.
  - rewrite copyDate_idem. unfold copyDate. rewrite Ee.
    destruct (TimeClip (Some e)) as [u|] eqn:Eu; [|left; reflexivity].
    apply TimeClip_Some in Eu. destruct Eu as [-> _].
    right. cbn [getTime Num.le]. apply Z.leb_le. assumption.
  - rewrite copyDate_idem. unfold copyDate. cbn [getTime].
    destruct (TimeClip (endTime mi)) as [u|] eqn:Eu; [|left; reflexivity].
    right. cbn [Num.le]. apply Z.leb_le.
    destruct (endTime mi) as [b|] eqn:Eb; [|discriminate].
    apply TimeClip_Some in Eu. destruct Eu as [-> _].
    apply endTime_ge in Eb. lia.
Qed.

(** The start held by the loop is invalid or a valid 15th at midnight. *)
Definition at15th (d : Date) : Prop :=
  getTime d = None
  \/ exists mi, getTime d = Some (dayOf mi 15) /\ Z.abs (dayOf mi 15) <= maxTime.

Lemma at15th_clip mi : at15th (mkDate (TimeClip (Some (dayOf mi 15)))).
Proof.
  unfold at15th. cbn [getTime].
  destruct (TimeClip (Some (dayOf mi 15))) as [u|] eqn:Eu; [|left; reflexivity].
  apply TimeClip_Some in Eu. destruct Eu as [-> Hv].
  right. exists mi. auto.
Qed.

Lemma at15th_initialStart startDate : at15th (initialStart startDate).
Proof.
  rewrite (Date_eta startDate). destruct (getTime startDate) as [t|].
  - rewrite initialStart_valid. apply at15th_clip.
  - left. reflexivity.
Qed.

Lemma loopCondition_valid endDate st :
  loopCondition endDate st = true ->
  exists c e, getTime (currentStart st) = Some c /\ getTime endDate = Some e
              /\ c <= e /\ iterations st < maxIterations.
Proof.
  unfold loopCondition, date_le. intros H. apply andb_prop in H. destruct H as [H1 H2].
  destruct (getTime (currentStart st)) as [c|]; [|discriminate].
  destruct (getTime endDate) as [e|]; [|discriminate].
  exists c, e. cbn [Num.le] in H1. apply Z.leb_le in H1. apply Z.ltb_lt in H2. auto.
Qed.

Lemma while_wellFormed fuel endDate st :
  at15th (currentStart st) ->
  Forall (wellFormed endDate) (periods st) ->
  Forall (wellFormed endDate) (periods (while fuel endDate st)).
Proof.
  revert st. induction fuel as [|fuel IH]; intros st Hinv Hall; [assumption|].
  rewrite while_unfold. destruct (loopCondition endDate st) eqn:C; [|assumption].
  pose proof C as C'. apply loopCondition_valid in C'.
  destruct C' as (c & e & Hc & He & Hce & _).
  destruct Hinv as [Hn|(mi & Hmi & Hv)]; [congruence|].
  assert (currentStart st = mkDate (Some (dayOf mi 15))) as Hcs
    by (rewrite (Date_eta (currentStart st)), Hmi; reflexivity).
  rewrite (loopBody_15th endDate st mi Hcs). apply IH; cbn [currentStart periods].
  - apply at15th_clip.
  - apply Forall_app. split; [assumption|]. constructor; [|constructor].
    apply periodFrom_wellFormed; [assumption|].
    unfold loopCondition in C. apply andb_prop in C. destruct C as [C _].
    rewrite Hcs in C. assumption.
Qed.

Lemma nextIndex_no_rule mi : ~ (0 <= mi / 12 <= 99) -> nextIndex mi = mi + 1.
Proof.
  intros H. unfold nextIndex, fullYear.
  destruct (Z.leb_spec 0 (mi / 12)); destruct (Z.leb_spec (mi / 12) 99);
    cbn [andb]; try lia; Z.div_mod_to_equations; lia.
Qed.

Lemma nextIndex_rule mi : 0 <= mi / 12 <= 99 -> nextIndex mi <= 24000.
Proof.
  intros H. unfold nextIndex, fullYear.
  destruct (Z.leb_spec 0 (mi / 12)); destruct (Z.leb_spec (mi / 12) 99);
    cbn [andb]; try lia; Z.div_mod_to_equations; lia.
Qed.

Definition margin : Z := 403 * msPerDay.

Lemma endTime_bounds mi b : endTime mi = Some b -> Z.abs b <= maxTime.
Proof.
  unfold endTime.
  destruct (TimeClip (Some (dayOf (nextIndex mi) 14))) as [u|] eqn:Eu;
    [|discriminate].
  apply TimeClip_Some in Eu. destruct Eu as [-> Hu].
  destruct (mi mod 12 =? 11); intros E.
  - apply TimeClip_Some in E. destruct E as [-> H]. assumption.
  - inversion E; subst. assumption.
Qed.

Lemma dayOf_far_bound mi k :
  0 <= k -> dayOf (mi + k) 14 <= dayOf mi 15 + (31 * k - 1) * msPerDay.
Proof.
  intros Hk. unfold dayOf. pose proof (monthStart_ge mi k Hk).
  unfold msPerDay. lia.
Qed.

Lemma endTime_valid mi e :
  Z.abs (dayOf mi 15) <= maxTime -> dayOf mi 15 <= e -> e <= maxTime - margin ->
  exists b, endTime mi = Some b.
Proof.
  intros Hv Hle He.
  assert (Z.abs (dayOf (nextIndex mi) 14) <= maxTime
          /\ Z.abs (dayOf (nextIndex mi + 12) 14) <= maxTime) as [H1 H2].
  { pose proof (nextIndex_gt mi) as Hn.
    pose proof (dayOf_lt_next mi (nextIndex mi) Hn) as L1.
    pose proof (dayOf_lt_next mi (nextIndex mi + 12) ltac:(lia)) as L2.
    destruct (Z_le_dec 0 (mi / 12)) as [Y0|Y0];
      [destruct (Z_le_dec (mi / 12) 99) as [Y1|Y1]|].
    - pose proof (nextIndex_rule mi (conj Y0 Y1)) as R.
      assert (dayOf (nextIndex mi + 12) 14 <= dayOf 24012 14) as U2.
      { unfold dayOf. pose proof (monthStart_mono (nextIndex mi + 12) 24012 ltac:(lia)).
        unfold msPerDay. lia. }
      assert (dayOf (nextIndex mi) 14 <= dayOf 24012 14) as U1.
      { unfold dayOf. pose proof (monthStart_mono (nextIndex mi) 24012 ltac:(lia)).
        unfold msPerDay. lia. }
      assert (dayOf 24012 14 = 979430400000) as V by (vm_compute; reflexivity).
      unfold maxTime in *. lia.
    - rewrite (nextIndex_no_rule mi) in * by lia.
      pose proof (dayOf_far_bound mi 1 ltac:(lia)).
      replace (mi + 1 + 12) with (mi + 13) in * by lia.
      pose proof (dayOf_far_bound mi 13 ltac:(lia)).
      unfold margin, maxTime, msPerDay in *. lia.
    - rewrite (nextIndex_no_rule mi) in * by lia.
      pose proof (dayOf_far_bound mi 1 ltac:(lia)).
      replace (mi + 1 + 12) with (mi + 13) in * by lia.
      pose proof (dayOf_far_bound mi 13 ltac:(lia)).
      unfold margin, maxTime, msPerDay in *. lia. }
  unfold endTime. rewrite (TimeClip_valid _ H1).
  destruct (mi mod 12 =? 11); [rewrite (TimeClip_valid _ H2)|]; eexists; reflexivity.
Qed.

Lemma periodFrom_exact endDate e mi b :
  getTime endDate = Some e ->
  Z.abs (dayOf mi 15) <= maxTime -> dayOf mi 15 <= e -> e <= maxTime ->
  endTime mi = Some b ->
  periodFrom endDate mi
  = mkPeriod (mkDate (Some (dayOf mi 15))) (mkDate (Some (Z.min b e))).
Proof.
  intros He Hv Hle Hmax Hb. unfold periodFrom.
  rewrite (TimeClip_valid _ Hv). f_equal.
  pose proof (endTime_bounds mi b Hb) as Hbv.
  assert (Z.abs e <= maxTime) as Hev by lia.
  unfold date_gt, Num.gt, Num.lt. cbn [getTime]. rewrite He, Hb.
  destruct (Z.ltb_spec e b).
  - rewrite copyDate_idem. unfold copyDate. rewrite He, (TimeClip_valid _ Hev).
    rewrite Z.min_r by lia. reflexivity.
  - rewrite copyDate_idem. unfold copyDate. cbn [getTime].
    rewrite (TimeClip_valid _ Hbv), Z.min_l by lia. reflexivity.
Qed.

(** With the requested end [margin] below the largest time value, every
    period has a valid end between its start and the requested end. *)
Definition bounded (e : Z) (p : Period) : Prop :=
  exists a b, getTime (startDate p) = Some a
              /\ getTime (BillingService.endDate p) = Some b /\ a <= b <= e.

Lemma while_bounded fuel endDate e st :
  getTime endDate = Some e -> e <= maxTime - margin ->
  at15th (currentStart st) ->
  Forall (bounded e) (periods st) ->
  Forall (bounded e) (periods (while fuel endDate st)).
Proof.
  intros He Hm. revert st. induction fuel as [|fuel IH]; intros st Hinv Hall;
    [assumption|].
  rewrite while_unfold. destruct (loopCondition endDate st) eqn:C; [|assumption].
  apply loopCondition_valid in C. destruct C as (c & e' & Hc & He' & Hce & _).
  assert (e' = e) by congruence. subst e'.
  destruct Hinv as [Hn|(mi & Hmi & Hv)]; [congruence|].
  assert (c = dayOf mi 15) by congruence. subst c.
  assert (currentStart st = mkDate (Some (dayOf mi 15))) as Hcs
    by (rewrite (Date_eta (currentStart st)), Hmi; reflexivity).
  rewrite (loopBody_15th endDate st mi Hcs). apply IH; cbn [currentStart periods].
  - apply at15th_clip.
  - apply Forall_app. split; [assumption|]. constructor; [|constructor].
    destruct (endTime_valid mi e Hv Hce Hm) as [b Hb].
    assert (e <= maxTime) by (unfold margin, msPerDay in Hm; lia).
    rewrite (periodFrom_exact endDate e mi b He Hv Hce H Hb).
    exists (dayOf mi 15), (Z.min b e). cbn [startDate BillingService.endDate getTime].
    apply endTime_ge in Hb. repeat split; lia.
Qed.

(** C10 (amended): for every pair of Dates, valid or not and in either
    order, [generateMonthPeriods] returns without throwing, with at most
    1000 periods, and the cap of 1000 turns of the loop is all the fuel it
    needs.  Every returned period starts on a valid date that is not after
    [endDate], and its end is either an invalid Date or not before its
    start; when [endDate] is valid and at least 403 days below the largest
    time value, every period has a valid end with start <= end <= [endDate]. *)
Theorem generateMonthPeriods_total (startDate endDate : Date) :
  exists ps,
    completion (generateMonthPeriods startDate endDate) = Normal ps
    /\ (List.length ps <= 1000)%nat
    /\ (forall fuel, (1000 <= fuel)%nat ->
          generateMonthPeriodsWith fuel startDate endDate
          = generateMonthPeriods startDate endDate)
    /\ Forall (wellFormed endDate) ps
    /\ (forall e, getTime endDate = Some e -> e <= maxTime - margin ->
          Forall (bounded e) ps).
Proof.
  unfold generateMonthPeriods, generateMonthPeriodsWith.
  eexists. split; [reflexivity|].
  set (st0 := mkLoopState (initialStart startDate) 0 []).
  split; [|split; [|split]].
  - pose proof (while_length (Z.to_nat maxIterations) endDate st0) as L.
    pose proof (while_iterations_range (Z.to_nat maxIterations) endDate st0) as R.
    cbn [st0 iterations periods List.length] in L, R. unfold maxIterations in *. lia.
  - intros fuel Hf.
    replace fuel with (Z.to_nat maxIterations + (fuel - Z.to_nat maxIterations))%nat
      by (unfold maxIterations; lia).
    rewrite while_more_fuel; [reflexivity|]. cbn. unfold maxIterations. lia.
  - apply while_wellFormed; [apply at15th_initialStart|constructor].
  - intros e He Hm. apply while_bounded; try assumption;
      [apply at15th_initialStart|constructor].
Qed.

(** C8 (amended): [generateMonthPeriods] never throws.  When the loop
    stops at its cap the call returns the 1000 periods built so far and
    writes one message with [console.error]; below the cap nothing is
    written. *)
Theorem generateMonthPeriods_cap_logged (startDate endDate : Date) :
  exists ps,
    completion (generateMonthPeriods startDate endDate) = Normal ps
    /\ (List.length ps <= 1000)%nat
    /\ (List.length ps = 1000%nat ->
        consoleErrors (generateMonthPeriods startDate endDate)
        = [maxIterationsMessage])
    /\ ((List.length ps < 1000)%nat ->
        consoleErrors (generateMonthPeriods startDate endDate) = []).
Proof.
  unfold generateMonthPeriods, generateMonthPeriodsWith.
  eexists. split; [reflexivity|]. cbn [consoleErrors].
  set (st0 := mkLoopState (initialStart startDate) 0 []).
  pose proof (while_length (Z.to_nat maxIterations) endDate st0) as L.
  pose proof (while_iterations_range (Z.to_nat maxIterations) endDate st0) as R.
  cbn [st0 iterations periods List.length] in L, R.
  set (final := while (Z.to_nat maxIterations) endDate st0) in *.
  unfold maxIterations in *.
  split; [lia|]. split; intros H.
  - destruct (Z.leb_spec 1000 (iterations final)); [reflexivity|lia].
  - destruct (Z.leb_spec 1000 (iterations final)); [lia|reflexivity].
Qed.

(** Any time value reads back as a day of a month. *)
Lemma civil_decompose t :
  Day t = monthStart (12 * YearFromTime t + MonthFromTime t) + DateFromTime t - 1
  /\ 1 <= DateFromTime t
  /\ Day t < monthStart (12 * YearFromTime t + MonthFromTime t + 1).
Proof.
  pose proof (MonthFromTime_range t) as Hm.
  unfold monthStart.
  replace ((12 * YearFromTime t + MonthFromTime t) / 12) with (YearFromTime t)
    by (Z.div_mod_to_equations; lia).
  replace ((12 * YearFromTime t + MonthFromTime t) mod 12) with (MonthFromTime t)
    by (Z.div_mod_to_equations; lia).
  pose proof (YearFromDay_spec (Day t)) as Hy.
  rewrite DayFromYear_succ in Hy. fold (YearFromTime t) in Hy.
  assert (Day t = DayFromYear (YearFromTime t) + DayWithinYear t) as HD
    by (unfold DayWithinYear; lia).
  assert (0 <= DayWithinYear t < DaysInYear (YearFromTime t)) as Hw
    by (unfold DayWithinYear; lia).
  destruct (Z.eq_dec (MonthFromTime t) 11) as [E11|E11].
  - replace ((12 * YearFromTime t + MonthFromTime t + 1) / 12)
      with (YearFromTime t + 1) by (Z.div_mod_to_equations; lia).
    replace ((12 * YearFromTime t + MonthFromTime t + 1) mod 12) with 0
      by (Z.div_mod_to_equations; lia).
    rewrite DayFromYear_succ. change (DaysBeforeMonth (YearFromTime t + 1) 0) with 0.
    unfold DateFromTime. rewrite E11. cbv beta iota zeta.
    revert E11. unfold MonthFromTime, DaysBeforeMonth, InLeapYear.
    destruct (DaysInYear (YearFromTime t) =? 366);
      repeat match goal with
             | |- context [?a <? ?b] => destruct (Z.ltb_spec a b)
             end; intros; try lia.
  - replace ((12 * YearFromTime t + MonthFromTime t + 1) / 12)
      with (YearFromTime t) by (Z.div_mod_to_equations; lia).
    replace ((12 * YearFromTime t + MonthFromTime t + 1) mod 12)
      with (MonthFromTime t + 1) by (Z.div_mod_to_equations; lia).
    unfold DateFromTime.
    revert E11 Hm. unfold MonthFromTime, DaysBeforeMonth, InLeapYear.
    destruct (DaysInYear (YearFromTime t) =? 366);
      repeat match goal with
             | |- context [?a <? ?b] => destruct (Z.ltb_spec a b)
             end; cbn [Z.add Pos.add Pos.succ]; cbv beta iota zeta; intros; try lia.
Qed.

Lemma time_of_Day t : Day t * msPerDay <= t < (Day t + 1) * msPerDay.
Proof. unfold Day, msPerDay. Z.div_mod_to_equations. lia. Qed.

Lemma startIndex_le t : dayOf (startIndex t) 15 <= t \/ ~ (100 <= YearFromTime t).
Proof.
  destruct (Z_le_dec 100 (YearFromTime t)) as [Hy|Hy]; [left|right; assumption].
  unfold startIndex, fullYear.
  destruct (Z.leb_spec (YearFromTime t) 99); [lia|]. rewrite andb_false_r.
  destruct (civil_decompose t) as (HD & Hd1 & Hnext).
  pose proof (time_of_Day t) as Ht. unfold dayOf.
  destruct (Z.ltb_spec (DateFromTime t) 15).
  - pose proof (monthStart_step (12 * YearFromTime t + (MonthFromTime t - 1))) as S.
    replace (12 * YearFromTime t + (MonthFromTime t - 1) + 1)
      with (12 * YearFromTime t + MonthFromTime t) in S by lia.
    unfold msPerDay in *. lia.
  - unfold msPerDay in *. lia.
Qed.

(** *** The periods of a range that needs no year below 100 and stays
    [margin] below the largest time value *)

Definition endOf (mi : Z) : Z :=
  if mi mod 12 =? 11 then dayOf (mi + 13) 14 else dayOf (mi + 1) 14.

Definition specPeriod (e mi : Z) : Period :=
  mkPeriod (mkDate (Some (dayOf mi 15))) (mkDate (Some (Z.min (endOf mi) e))).

Fixpoint monthsFrom (mi : Z) (n : nat) : list Z :=
  match n with
  | O => []
  | S n' => mi :: monthsFrom (mi + 1) n'
  end.

Lemma endTime_plain mi e :
  1200 <= mi -> Z.abs (dayOf mi 15) <= maxTime -> dayOf mi 15 <= e ->
  e <= maxTime - margin -> endTime mi = Some (endOf mi).
Proof.
  intros Hmi Hv Hle Hm. destruct (endTime_valid mi e Hv Hle Hm) as [b Hb].
  rewrite Hb. f_equal. revert Hb. unfold endTime, endOf.
  rewrite (nextIndex_plain mi Hmi).
  destruct (TimeClip (Some (dayOf (mi + 1) 14))) as [u|] eqn:Eu; [|discriminate].
  apply TimeClip_Some in Eu. destruct Eu as [-> _].
  replace (mi + 1 + 12) with (mi + 13) by lia.
  destruct (mi mod 12 =? 11); intros E.
  - apply TimeClip_Some in E. destruct E as [-> _]. reflexivity.
  - inversion E; reflexivity.
Qed.

Lemma dayOf_1200 : dayOf 1200 15 = -59010249600000.
Proof. vm_compute. reflexivity. Qed.

Lemma dayOf_15_valid mi e :
  1200 <= mi -> dayOf mi 15 <= e -> e <= maxTime - margin ->
  Z.abs (dayOf mi 15) <= maxTime.
Proof.
  intros Hmi Hle Hm.
  assert (dayOf 1200 15 <= dayOf mi 15).
  { destruct (Z.eq_dec mi 1200) as [->|]; [lia|].
    pose proof (dayOf_15_mono 1200 mi ltac:(lia)). lia. }
  rewrite dayOf_1200 in *. unfold margin, maxTime, msPerDay in *. lia.
Qed.

Lemma dayOf_15_next mi : dayOf (mi + 1) 14 + msPerDay = dayOf (mi + 1) 15.
Proof. unfold dayOf. lia. Qed.

Lemma while_spec endDate e :
  getTime endDate = Some e -> e <= maxTime - margin ->
  forall fuel mi it ps,
    1200 <= mi -> Z.abs (dayOf mi 15) <= maxTime ->
    exists n : nat,
      let st' := while fuel endDate (mkLoopState (mkDate (Some (dayOf mi 15))) it ps) in
      periods st' = ps ++ map (specPeriod e) (monthsFrom mi n)
      /\ iterations st' = it + Z.of_nat n
      /\ (forall k, 0 <= k < Z.of_nat n -> dayOf (mi + k) 15 <= e)
      /\ (loopCondition endDate st' = false -> iterations st' < maxIterations ->
          e < dayOf (mi + Z.of_nat n) 15).
Proof.
  intros He Hm. induction fuel as [|fuel IH]; intros mi it ps Hmi Hv.
  - exists O. cbn [while monthsFrom map periods iterations Z.of_nat].
    rewrite app_nil_r, !Z.add_0_r. repeat split; try lia.
    unfold loopCondition, date_le. cbn [currentStart iterations getTime].
    rewrite He. cbn [Num.le]. intros C Hit.
    apply andb_false_iff in C. destruct C as [C|C].
    + apply Z.leb_gt in C. lia.
    + apply Z.ltb_ge in C. lia.
  - rewrite while_unfold.
    destruct (loopCondition endDate (mkLoopState (mkDate (Some (dayOf mi 15))) it ps))
      eqn:C.
    + pose proof C as C'. apply loopCondition_valid in C'.
      destruct C' as (c & e' & Hc & He' & Hce & Hit).
      cbn [currentStart getTime iterations] in Hc, Hit.
      assert (e' = e) by congruence. assert (c = dayOf mi 15) by congruence.
      subst e' c.
      rewrite (loopBody_15th endDate (mkLoopState (mkDate (Some (dayOf mi 15))) it ps)
                 mi eq_refl). cbn [iterations periods].
      rewrite (nextIndex_plain mi Hmi).
      assert (e <= maxTime) as Hemax by (unfold margin, msPerDay in Hm; lia).
      rewrite (periodFrom_exact endDate e mi (endOf mi) He Hv Hce Hemax
                 (endTime_plain mi e Hmi Hv Hce Hm)).
      assert (Z.abs (dayOf (mi + 1) 15) <= maxTime) as Hv'.
      { pose proof (dayOf_15_mono mi (mi + 1) ltac:(lia)).
        pose proof (dayOf_far_bound mi 1 ltac:(lia)).
        pose proof (dayOf_15_next mi).
        unfold margin, maxTime, msPerDay in *. lia. }
      rewrite (TimeClip_valid _ Hv').
      destruct (IH (mi + 1) (it + 1) (ps ++ [specPeriod e mi]) ltac:(lia) Hv')
        as (n & Hp & Hi & Hk & Hx).
      exists (S n). cbv zeta in *. fold (specPeriod e mi).
      rewrite Hp, Hi. cbn [monthsFrom map]. rewrite <- app_assoc. cbn [app].
      split; [reflexivity|]. split; [lia|]. split.
      * intros k Hkr. destruct (Z.eq_dec k 0) as [->|Hk0].
        -- rewrite Z.add_0_r. assumption.
        -- replace (mi + k) with (mi + 1 + (k - 1)) by lia. apply Hk. lia.
      * intros X Y. replace (mi + Z.of_nat (S n)) with (mi + 1 + Z.of_nat n) by lia.
        apply Hx; [assumption|]. rewrite Hi. assumption.
    + exists O. cbn [monthsFrom map periods iterations Z.of_nat].
      rewrite app_nil_r, !Z.add_0_r. repeat split; try lia.
      intros _ Hit. unfold loopCondition, date_le in C.
      cbn [currentStart iterations getTime] in C. rewrite He in C. cbn [Num.le] in C.
      apply andb_false_iff in C. destruct C as [C|C].
      * apply Z.leb_gt in C. lia.
      * apply Z.ltb_ge in C. lia.
Qed.

Lemma monthsFrom_length mi n : List.length (monthsFrom mi n) = n.
Proof. revert mi. induction n; intros; cbn; [reflexivity|]. rewrite IHn. reflexivity. Qed.

Lemma monthsFrom_nth mi n i m :
  nth_error (monthsFrom mi n) i = Some m -> m = mi + Z.of_nat i /\ (i < n)%nat.
Proof.
  revert mi i. induction n as [|n IH]; intros mi i; cbn [monthsFrom].
  - destruct i; discriminate.
  - destruct i as [|i]; cbn [nth_error].
    + intros E. inversion E. split; lia.
    + intros E. apply IH in E. lia.
Qed.

Lemma monthsFrom_In mi n m :
  In m (monthsFrom mi n) -> mi <= m < mi + Z.of_nat n.
Proof.
  intros H. apply In_nth_error in H. destruct H as [i H].
  apply monthsFrom_nth in H. lia.
Qed.

Lemma monthsFrom_cover mi n t :
  dayOf mi 15 <= t < dayOf (mi + Z.of_nat n) 15 ->
  exists m, In m (monthsFrom mi n) /\ dayOf m 15 <= t < dayOf (m + 1) 15.
Proof.
  revert mi. induction n as [|n IH]; intros mi H.
  - replace (mi + Z.of_nat 0) with mi in H by lia. lia.
  - destruct (Z_lt_le_dec t (dayOf (mi + 1) 15)) as [L|L].
    + exists mi. split; [left; reflexivity|lia].
    + destruct (IH (mi + 1)) as (m & Hin & Hm).
      * replace (mi + 1 + Z.of_nat n) with (mi + Z.of_nat (S n)) by lia. lia.
      * exists m. split; [right; assumption|assumption].
Qed.

Lemma endOf_ge mi : dayOf (mi + 1) 14 <= endOf mi.
Proof.
  unfold endOf. destruct (mi mod 12 =? 11); [|lia].
  unfold dayOf. pose proof (monthStart_mono (mi + 1) (mi + 13) ltac:(lia)).
  unfold msPerDay. lia.
Qed.

Lemma monthIndex_dayOf m :
  12 * YearFromTime (dayOf m 15) + MonthFromTime (dayOf m 15) = m.
Proof.
  rewrite dayOf_Year, dayOf_Month by lia. Z.div_mod_to_equations. lia.
Qed.

Lemma nth_error_map_inv {A B : Type} (f : A -> B) l i y :
  nth_error (map f l) i = Some y -> exists x, nth_error l i = Some x /\ y = f x.
Proof.
  revert i. induction l as [|a l IH]; intros [|i]; cbn; try discriminate.
  - intros E. inversion E. eauto.
  - apply IH.
Qed.

(** C1 (amended): for valid dates start <= end, with the start in year 101
    or later, the end at least 403 days below the largest time value and the
    cap of the loop not reached: the first period starts at midnight on the
    15th on or before the start (so possibly before it), every period starts
    on a 15th and ends not after the end, every instant of the range falls on
    a day of some period, consecutive periods start in consecutive months, and
    a period that does not start in December ends the day before the next one
    starts. *)
Theorem generateMonthPeriods_covers_days
    (startDate endDate : Date) (s e : Z) (ps : list Period) :
  getTime startDate = Some s ->
  getTime endDate = Some e ->
  s <= e ->
  101 <= YearFromTime s ->
  e <= maxTime - margin ->
  completion (generateMonthPeriods startDate endDate) = Normal ps ->
  (List.length ps < 1000)%nat ->
  (* the first period starts on the 15th on or before the start *)
  (exists p0 rest a0,
      ps = p0 :: rest /\ getTime (BillingService.startDate p0) = Some a0
      /\ a0 <= s
      /\ 12 * YearFromTime a0 + MonthFromTime a0
         = 12 * YearFromTime s + MonthFromTime s
           - (if DateFromTime s <? 15 then 1 else 0))
  (* every period starts at midnight on a 15th and ends by the end *)
  /\ Forall (fun p => exists a b,
                 getTime (BillingService.startDate p) = Some a
                 /\ getTime (BillingService.endDate p) = Some b
                 /\ DateFromTime a = 15 /\ TimeWithinDay a = 0
                 /\ a <= b <= e) ps
  (* every instant of the range falls on a day of some period *)
  /\ (forall t, s <= t <= e ->
        exists p a b,
          In p ps /\ getTime (BillingService.startDate p) = Some a
          /\ getTime (BillingService.endDate p) = Some b
          /\ a <= t < b + msPerDay)
  (* consecutive periods start in consecutive months, and a period that
     does not start in December ends the day before the next one starts *)
  /\ (forall i p q a b a',
        nth_error ps i = Some p -> nth_error ps (S i) = Some q ->
        getTime (BillingService.startDate p) = Some a ->
        getTime (BillingService.endDate p) = Some b ->
        getTime (BillingService.startDate q) = Some a' ->
        12 * YearFromTime a' + MonthFromTime a'
        = 12 * YearFromTime a + MonthFromTime a + 1
        /\ (MonthFromTime a <> 11 -> b + msPerDay = a')).
Proof.
  intros Hs He Hse Hy Hm Hc Hlen.
  unfold generateMonthPeriods, generateMonthPeriodsWith in Hc. cbn [completion] in Hc.
  rewrite (Date_eta startDate), Hs, initialStart_valid in Hc.
  set (mi0 := startIndex s) in *.
  assert (mi0 = 12 * YearFromTime s + MonthFromTime s
                - (if DateFromTime s <? 15 then 1 else 0)) as Hmi0.
  { unfold mi0, startIndex, fullYear.
    destruct (Z.leb_spec (YearFromTime s) 99); [lia|]. rewrite andb_false_r.
    destruct (DateFromTime s <? 15); lia. }
  pose proof (MonthFromTime_range s) as HMs.
  assert (1200 <= mi0) as H1200 by (destruct (DateFromTime s <? 15); lia).
  assert (dayOf mi0 15 <= s) as Hle0
    by (destruct (startIndex_le s) as [L|L]; [exact L|lia]).
  assert (Z.abs (dayOf mi0 15) <= maxTime) as Hv0
    by (apply (dayOf_15_valid mi0 e); lia).
  rewrite (TimeClip_valid _ Hv0) in Hc.
  destruct (while_spec endDate e He Hm (Z.to_nat maxIterations) mi0 0 [] H1200 Hv0)
    as (n & Hp & Hi & Hk & Hx).
  cbv zeta in Hp, Hi, Hx. cbn [app] in Hp.
  assert (ps = map (specPeriod e) (monthsFrom mi0 n)) as Hps by congruence.
  assert (List.length ps = n) as Hn
    by (rewrite Hps, length_map, monthsFrom_length; reflexivity).
  assert (e < dayOf (mi0 + Z.of_nat n) 15) as Hexit.
  { apply Hx.
    - apply while_exits. cbn [iterations]. unfold maxIterations. lia.
    - rewrite Hi. unfold maxIterations. lia. }
  clear Hc Hp Hx.
  assert (forall m, In m (monthsFrom mi0 n) -> dayOf m 15 <= e) as Hstart.
  { intros m Hin. apply monthsFrom_In in Hin.
    replace m with (mi0 + (m - mi0)) by lia. apply Hk. lia. }
  split; [|split; [|split]].
  - destruct n as [|n]; [replace (mi0 + Z.of_nat 0) with mi0 in Hexit by lia; lia|].
    rewrite Hps. cbn [monthsFrom map].
    exists (specPeriod e mi0), (map (specPeriod e) (monthsFrom (mi0 + 1) n)),
      (dayOf mi0 15).
    split; [reflexivity|]. split; [reflexivity|]. split; [assumption|].
    rewrite monthIndex_dayOf. assumption.
  - rewrite Hps. apply Forall_forall. intros p Hin.
    apply in_map_iff in Hin. destruct Hin as (m & <- & Hin).
    exists (dayOf m 15), (Z.min (endOf m) e).
    cbn [specPeriod BillingService.startDate BillingService.endDate getTime].
    split; [reflexivity|]. split; [reflexivity|].
    rewrite dayOf_Date, dayOf_TimeWithinDay by lia.
    split; [reflexivity|]. split; [reflexivity|].
    pose proof (Hstart m Hin). pose proof (endOf_ge m).
    pose proof (dayOf_lt_next m (m + 1) ltac:(lia)). lia.
  - intros t Ht.
    destruct (monthsFrom_cover mi0 n t ltac:(lia)) as (m & Hin & Hmt).
    exists (specPeriod e m), (dayOf m 15), (Z.min (endOf m) e).
    split; [rewrite Hps; apply in_map; assumption|].
    split; [reflexivity|]. split; [reflexivity|].
    pose proof (endOf_ge m). pose proof (dayOf_15_next m).
    unfold msPerDay in *. lia.
  - intros i p q a b a' Hp Hq Ha Hb Ha'.
    rewrite Hps in Hp, Hq.
    apply nth_error_map_inv in Hp. destruct Hp as (m & Hm1 & ->).
    apply nth_error_map_inv in Hq. destruct Hq as (m' & Hm2 & ->).
    pose proof Hm2 as Hin'. apply nth_error_In in Hin'.
    apply monthsFrom_nth in Hm1. apply monthsFrom_nth in Hm2.
    assert (m' = m + 1) by lia. subst m'.
    cbn [specPeriod BillingService.startDate BillingService.endDate getTime]
      in Ha, Hb, Ha'.
    inversion Ha; inversion Hb; inversion Ha'; subst a b a'.
    rewrite !monthIndex_dayOf. split; [reflexivity|].
    rewrite dayOf_Month by lia. intros Hdec. unfold endOf.
    destruct (Z.eqb_spec (m mod 12) 11); [contradiction|].
    pose proof (Hstart (m + 1) Hin'). pose proof (dayOf_15_next m) as Hnext.
    rewrite Z.min_l by (unfold msPerDay in *; lia). assumption.
Qed.

(** [new Date(y, m, d)] on literals *)
Definition ymd (y m d : Z) : Date := newDate3 (Some y) (Some m) (Some d).

(** C6: what the code returns on the range of the repository's own test. *)
Theorem generateMonthPeriods_test_range :
  completion (generateMonthPeriods (ymd 2024 0 1) (ymd 2024 2 31))
  = Normal [ mkPeriod (ymd 2023 11 15) (ymd 2024 2 31);
             mkPeriod (ymd 2024 0 15) (ymd 2024 1 14);
             mkPeriod (ymd 2024 1 15) (ymd 2024 2 14);
             mkPeriod (ymd 2024 2 15) (ymd 2024 2 31) ].
Proof. vm_compute. reflexivity. Qed.

(** The claim of C1, in the words of the specification. *)
Definition inPeriod (t : Z) (p : Period) : Prop :=
  exists a b, getTime (startDate p) = Some a /\ getTime (endDate p) = Some b
              /\ a <= t <= b.

Definition coversExactly (s e : Z) (ps : list Period) : Prop :=
  forall t, (exists p, In p ps /\ inPeriod t p) <-> s <= t <= e.

(** C1 (counterexample): for 20 January to 10 February 2024 the only period
    starts on 15 January, before the requested start. *)
Lemma generateMonthPeriods_not_exact_cover :
  completion (generateMonthPeriods (ymd 2024 0 20) (ymd 2024 1 10))
  = Normal [mkPeriod (ymd 2024 0 15) (ymd 2024 1 10)]
  /\ getTime (ymd 2024 0 20) = Some 1705708800000
  /\ getTime (ymd 2024 1 10) = Some 1707523200000
  /\ ~ coversExactly 1705708800000 1707523200000
         [mkPeriod (ymd 2024 0 15) (ymd 2024 1 10)].
Proof.
  split; [vm_compute; reflexivity|]. split; [vm_compute; reflexivity|].
  split; [vm_compute; reflexivity|].
  intros H. specialize (H 1705276800000). destruct H as [H _].
  assert (1705708800000 <= 1705276800000 <= 1707523200000) as X; [|lia].
  apply H. eexists. split; [left; reflexivity|].
  exists 1705276800000, 1707523200000.
  split; [vm_compute; reflexivity|]. split; [vm_compute; reflexivity|]. lia.
Qed.

Lemma generateMonthPeriods_covers_days_witness :
  exists p a b,
    In p [mkPeriod (ymd 2024 0 15) (ymd 2024 1 10)]
    /\ getTime (startDate p) = Some a /\ getTime (endDate p) = Some b
    /\ a <= 1706000000000 < b + msPerDay.
Proof.
  refine (proj1 (proj2 (proj2
    (generateMonthPeriods_covers_days (ymd 2024 0 20) (ymd 2024 1 10)
       1705708800000 1707523200000
       [mkPeriod (ymd 2024 0 15) (ymd 2024 1 10)]
       _ _ _ _ _ _ _))) 1706000000000 _).
  - vm_compute. reflexivity.
  - vm_compute. reflexivity.
  - lia.
  - vm_compute. congruence.
  - vm_compute. congruence.
  - vm_compute. reflexivity.
  - cbn. lia.
  - lia.
Defined.

(** C8 (counterexample): from 1900 to 2024 the cap is reached; the call
    returns 1000 periods, none of which goes beyond 14 January 1984. *)
Lemma generateMonthPeriods_cap_returns :
  exists ps,
    completion (generateMonthPeriods (ymd 1900 0 1) (ymd 2024 0 1)) = Normal ps
    /\ List.length ps = 1000%nat
    /\ forallb (fun p => date_le (endDate p) (ymd 1984 0 14)) ps = true.
Proof.
  eexists. split; [reflexivity|]. split; vm_compute; reflexivity.
Qed.

(** C10 (counterexample): at the largest Date the period's end is an
    invalid Date, and [startDate <= endDate] is false. *)
Lemma generateMonthPeriods_invalid_end :
  completion (generateMonthPeriods (mkDate (Some maxTime)) (mkDate (Some maxTime)))
  = Normal [mkPeriod (ymd 275760 7 15) InvalidDate]
  /\ date_le (ymd 275760 7 15) InvalidDate = false.
Proof. split; vm_compute; reflexivity. Qed.

Lemma generateMonthPeriods_total_witness :
  Forall (bounded 1707523200000)
         [mkPeriod (ymd 2024 0 15) (ymd 2024 1 10)].
Proof.
  destruct (generateMonthPeriods_total (ymd 2024 0 20) (ymd 2024 1 10))
    as (ps & Hc & _ & _ & _ & Hb).
  assert (ps = [mkPeriod (ymd 2024 0 15) (ymd 2024 1 10)]) as <-.
  { assert (Normal ps = Normal [mkPeriod (ymd 2024 0 15) (ymd 2024 1 10)]) as E
      by (rewrite <- Hc; vm_compute; reflexivity).
    inversion E. reflexivity. }
  apply Hb.
  - vm_compute. reflexivity.
  - vm_compute. congruence.
Defined.

End BillingFacts.

(** * The doubles *)

Module DoubleFacts.
Import Double.
Local Open Scope Z_scope.

(** * Facts about the doubles *)

Lemma emin_value : emin prec emax = -1074.
Proof. reflexivity. Qed.

Lemma fexp_ge z : -1074 <= fexp prec emax z.
Proof. unfold fexp. rewrite emin_value. lia. Qed.

Lemma digits2_pos_lower q : 2 ^ (Zpos (digits2_pos q) - 1) <= Zpos q.
Proof.
  induction q as [q IH|q IH|]; cbn [digits2_pos].
  - rewrite Pos2Z.inj_succ. replace (Z.succ (Zpos (digits2_pos q)) - 1)
      with (Z.succ (Zpos (digits2_pos q) - 1)) by lia.
    rewrite Z.pow_succ_r by lia. lia.
  - rewrite Pos2Z.inj_succ. replace (Z.succ (Zpos (digits2_pos q)) - 1)
      with (Z.succ (Zpos (digits2_pos q) - 1)) by lia.
    rewrite Z.pow_succ_r by lia. lia.
  - cbn. lia.
Qed.

(** *** Shifting to the right *)

Lemma shr_1_m mrs : 0 <= shr_m mrs -> shr_m (shr_1 mrs) = shr_m mrs / 2.
Proof.
  destruct mrs as [m r s]. cbn [shr_m shr_1]. intros H.
  destruct m as [|[p|p|]|p]; cbn [shr_m]; try lia;
    try rewrite Pos2Z.inj_xI; try rewrite Pos2Z.inj_xO;
    Z.div_mod_to_equations; lia.
Qed.

Lemma iter_pos_comm {A : Type} (f : A -> A) p x :
  iter_pos f p (f x) = f (iter_pos f p x).
Proof.
  revert x. induction p as [p IH|p IH|]; intros x; cbn [iter_pos];
    rewrite ?IH; reflexivity.
Qed.

Lemma iter_pos_succ {A : Type} (f : A -> A) p x :
  iter_pos f (Pos.succ p) x = f (iter_pos f p x).
Proof.
  revert x. induction p as [p IH|p IH|]; intros x; cbn [Pos.succ iter_pos].
  - rewrite !IH, !iter_pos_comm. reflexivity.
  - rewrite !iter_pos_comm. reflexivity.
  - reflexivity.
Qed.

Lemma iter_pos_shr_m p mrs :
  0 <= shr_m mrs -> shr_m (iter_pos shr_1 p mrs) = shr_m mrs / 2 ^ Zpos p.
Proof.
  intros H. induction p as [|p IH] using Pos.peano_ind.
  - cbn [iter_pos]. rewrite shr_1_m by assumption. reflexivity.
  - rewrite iter_pos_succ, shr_1_m.
    + rewrite IH, Pos2Z.inj_succ, Z.pow_succ_r by lia.
      rewrite Z.div_div by lia. f_equal. lia.
    + rewrite IH. apply Z.div_pos; lia.
Qed.

(** A positive integer at an exponent that is not below the least one
    keeps a positive significand when it is shifted into the format. *)
Lemma shr_fexp_positive q e l :
  -1074 <= e ->
  exists q' e',
    shr_fexp prec emax (Zpos q) e l
    = (Build_shr_record (Zpos q') (shr_r (fst (shr_fexp prec emax (Zpos q) e l)))
                        (shr_s (fst (shr_fexp prec emax (Zpos q) e l))), e')
    /\ -1074 <= e'.
Proof.
  intros He. unfold shr_fexp, shr. cbn [Zdigits2].
  set (n := fexp prec emax (Zpos (digits2_pos q) + e) - e).
  destruct n as [|p|p] eqn:En.
  - exists q, e. split; [|assumption]. destruct l as [|[| |]]; reflexivity.
  - set (mrs0 := shr_record_of_loc (Zpos q) l).
    assert (shr_m mrs0 = Zpos q) as Hm0 by (destruct l as [|[| |]]; reflexivity).
    pose proof (iter_pos_shr_m p mrs0 ltac:(rewrite Hm0; lia)) as Hs.
    rewrite Hm0 in Hs.
    assert (Zpos p <= Zpos (digits2_pos q) - 1) as Hp.
    { subst n. unfold fexp in En. rewrite emin_value in En. unfold prec in En. lia. }
    assert (1 <= Zpos q / 2 ^ Zpos p) as Hq.
    { apply Z.div_le_lower_bound; [lia|].
      pose proof (digits2_pos_lower q).
      assert (2 ^ Zpos p <= 2 ^ (Zpos (digits2_pos q) - 1))
        by (apply Z.pow_le_mono_r; lia).
      lia. }
    destruct (iter_pos shr_1 p mrs0) as [m r s] eqn:Ei. cbn [shr_m] in Hs.
    destruct m as [|q'|q']; try lia.
    exists q', (e + Zpos p). cbn [fst shr_r shr_s]. split; [reflexivity|lia].
  - exists q, e. split; [|assumption]. destruct l as [|[| |]]; reflexivity.
Qed.

Lemma round_nearest_even_positive q l :
  exists q', round_nearest_even (Zpos q) l = Zpos q'.
Proof.
  destruct l as [|[| |]]; cbn [round_nearest_even];
    try (exists q; reflexivity).
  - destruct (Z.even (Zpos q)); [exists q; reflexivity|].
    exists (q + 1)%positive. reflexivity.
  - exists (q + 1)%positive. reflexivity.
Qed.

(** Rounded, it is a finite number or an infinity of the given sign. *)
Definition signed (s : bool) (x : double) : Prop :=
  (exists m e, x = S754_finite s m e /\ -1074 <= e) \/ x = S754_infinity s.

Lemma binary_round_aux_signed s q e l :
  -1074 <= e -> signed s (binary_round_aux prec emax s (Zpos q) e l).
Proof.
  intros He. unfold binary_round_aux.
  destruct (shr_fexp_positive q e l He) as (q1 & e1 & E1 & He1).
  rewrite E1. cbn [shr_m].
  destruct (round_nearest_even_positive q1
              (loc_of_shr_record
                 {| shr_m := Zpos q1;
                    shr_r := shr_r (fst (shr_fexp prec emax (Zpos q) e l));
                    shr_s := shr_s (fst (shr_fexp prec emax (Zpos q) e l)) |}))
    as (q2 & E2).
  rewrite E2.
  destruct (shr_fexp_positive q2 e1 loc_Exact He1) as (q3 & e3 & E3 & He3).
  rewrite E3. cbn [shr_m].
  destruct (e3 <=? emax - prec); [left; eauto|right; reflexivity].
Qed.

Lemma shl_align_spec m e e' :
  e' <= e ->
  Zpos (fst (shl_align m e e')) = Zpos m * 2 ^ (e - e')
  /\ snd (shl_align m e e') = e'.
Proof.
  intros H. unfold shl_align. destruct (e' - e) as [|d|d] eqn:E.
  - assert (e' = e) by lia. subst. rewrite Z.sub_diag. cbn [fst snd]. split; lia.
  - lia.
  - cbn [fst snd]. split; [|reflexivity].
    replace (e - e') with (Zpos d) by lia.
    clear. induction d as [|d IH] using Pos.peano_ind.
    + cbn. lia.
    + rewrite Pos.iter_succ, Pos2Z.inj_succ, Z.pow_succ_r by lia.
      rewrite Pos2Z.inj_xO, IH. lia.
Qed.

Lemma binary_round_signed s m e :
  -1074 <= e -> signed s (binary_round prec emax s m e).
Proof.
  intros He. unfold binary_round.
  destruct (shl_align m e (fexp prec emax (Zpos (digits2_pos m) + e)))
    as [mz ez] eqn:E.
  apply binary_round_aux_signed.
  unfold shl_align in E.
  destruct (fexp prec emax (Zpos (digits2_pos m) + e) - e) eqn:En;
    inversion E; subst; try assumption.
  apply fexp_ge.
Qed.

Lemma binary_normalize_positive d e :
  -1074 <= e -> isPositive (binary_normalize prec emax d e false) = (0 <? d).
Proof.
  intros He. destruct d as [|m|m]; cbn [binary_normalize]; [reflexivity| |].
  - destruct (binary_round_signed false m e He) as [(m' & e' & -> & _)| ->];
      reflexivity.
  - destruct (binary_round_signed true m e He) as [(m' & e' & -> & _)| ->];
      reflexivity.
Qed.

(** *** The exponent of a result is never below the least one *)

Definition wellScaled (x : double) : Prop :=
  match x with
  | S754_finite _ _ e => -1074 <= e
  | _ => True
  end.

Lemma shr_fexp_exponent m e l : -1074 <= snd (shr_fexp prec emax m e l).
Proof.
  unfold shr_fexp, shr.
  pose proof (fexp_ge (Zdigits2 m + e)) as F.
  destruct (fexp prec emax (Zdigits2 m + e) - e) eqn:En; cbn [snd]; lia.
Qed.

Lemma wellScaled_binary_round_aux s m e l :
  wellScaled (binary_round_aux prec emax s m e l).
Proof.
  unfold binary_round_aux.
  destruct (shr_fexp prec emax m e l) as [mrs1 e1].
  match goal with
  | |- context [shr_fexp prec emax ?m2 e1 loc_Exact] =>
      pose proof (shr_fexp_exponent m2 e1 loc_Exact) as H;
      destruct (shr_fexp prec emax m2 e1 loc_Exact) as [mrs2 e2]
  end.
  cbn [snd] in H.
  destruct (shr_m mrs2); cbn [wellScaled]; try exact I.
  destruct (e2 <=? emax - prec); cbn [wellScaled]; [assumption|exact I].
Qed.

Lemma wellScaled_div x y : wellScaled (div x y).
Proof.
  unfold div, SFdiv. destruct x, y; try exact I.
  destruct (SFdiv_core_binary prec emax (Zpos m) e (Zpos m0) e0) as [[mz ez] lz].
  apply wellScaled_binary_round_aux.
Qed.

(** *** The sign of a difference *)

Lemma scaled_aligned s m e ez :
  -1074 <= ez -> ez <= e ->
  scaled (S754_finite s m e)
  = cond_Zopp s (Zpos (fst (shl_align m e ez))) * 2 ^ (ez + 1074).
Proof.
  intros H1 H2. destruct (shl_align_spec m e ez H2) as [-> _].
  cbn [scaled]. replace (e + 1074) with ((e - ez) + (ez + 1074)) by lia.
  rewrite Z.pow_add_r by lia.
  destruct s; cbn [cond_Zopp]; [|ring].
  change (Zneg m) with (- Zpos m). ring.
Qed.

Lemma sub_positive x y :
  wellScaled x -> wellScaled y -> isNaN x = false -> isNaN y = false ->
  isPositive (sub x y) = negb (leb x y).
Proof.
  intros Wx Wy Nx Ny. unfold sub.
  destruct x as [sx|sx| |sx mx ex], y as [sy|sy| |sy my ey];
    try discriminate; cbn [wellScaled] in *.
  - destruct sx, sy; reflexivity.
  - destruct sx, sy; reflexivity.
  - cbn [SFsub isPositive leb scaled]. destruct sy; cbn [negb].
    + symmetry. apply negb_true_iff. apply Z.leb_gt.
      pose proof (Z.pow_pos_nonneg 2 (ey + 1074)). lia.
    + symmetry. apply negb_false_iff. apply Z.leb_le.
      pose proof (Z.pow_pos_nonneg 2 (ey + 1074)). lia.
  - destruct sx, sy; reflexivity.
  - destruct sx, sy; reflexivity.
  - destruct sx, sy; reflexivity.
  - cbn [SFsub isPositive leb scaled]. destruct sx; cbn [negb].
    + symmetry. apply negb_false_iff. apply Z.leb_le.
      pose proof (Z.pow_pos_nonneg 2 (ex + 1074)). lia.
    + symmetry. apply negb_true_iff. apply Z.leb_gt.
      pose proof (Z.pow_pos_nonneg 2 (ex + 1074)). lia.
  - destruct sx, sy; reflexivity.
  - cbn [SFsub]. cbv zeta.
    assert (-1074 <= Z.min ex ey) as Hz by lia.
    rewrite (binary_normalize_positive _ _ Hz).
    unfold leb.
    rewrite (scaled_aligned sx mx ex (Z.min ex ey)) by lia.
    rewrite (scaled_aligned sy my ey (Z.min ex ey)) by lia.
    set (X := cond_Zopp sx (Zpos (fst (shl_align mx ex (Z.min ex ey))))).
    set (Y := cond_Zopp sy (Zpos (fst (shl_align my ey (Z.min ex ey))))).
    pose proof (Z.pow_pos_nonneg 2 (Z.min ex ey + 1074) ltac:(lia) ltac:(lia)) as HP.
    set (P := 2 ^ (Z.min ex ey + 1074)) in *.
    destruct (Z.ltb_spec 0 (X - Y)); destruct (Z.leb_spec (X * P) (Y * P));
      try reflexivity; exfalso; nia.
Qed.

(** *** The order of the values *)

Lemma double_leb_total x y :
  isNaN x = false -> isNaN y = false -> leb x y = false -> leb y x = true.
Proof.
  intros Nx Ny. unfold leb.
  destruct x as [sx|sx| |sx mx ex], y as [sy|sy| |sy my ey];
    try discriminate; try (destruct sx); try (destruct sy);
    try discriminate; try reflexivity;
    intros H; apply Z.leb_gt in H; apply Z.leb_le; lia.
Qed.

Lemma double_leb_trans x y z : leb x y = true -> leb y z = true -> leb x z = true.
Proof.
  unfold leb.
  destruct x as [sx|sx| |sx mx ex], y as [sy|sy| |sy my ey],
           z as [sz|sz| |sz mz ez];
    try discriminate; try (destruct sx); try (destruct sy); try (destruct sz);
    try discriminate; try reflexivity;
    intros H1 H2; apply Z.leb_le in H1, H2; apply Z.leb_le; lia.
Qed.

Lemma double_leb_refl x : isNaN x = false -> leb x x = true.
Proof.
  unfold leb. destruct x as [s|s| |s m e]; try discriminate;
    try (destruct s); intros _; try reflexivity; apply Z.leb_refl.
Qed.

(** *** Sums, products and quotients of numbers that are not negative *)

(** A zero, a positive number or the positive infinity, with an exponent of
    the format. *)
Definition notNegative (x : double) : Prop :=
  match x with
  | S754_zero _ => True
  | S754_infinity s => s = false
  | S754_nan => False
  | S754_finite s _ e => s = false /\ -1074 <= e
  end.

Lemma notNegative_isNaN x : notNegative x -> isNaN x = false.
Proof. destruct x; cbn; intros H; [reflexivity|reflexivity|destruct H|reflexivity]. Qed.

Lemma shr_fexp_nonneg m e l : 0 <= m -> 0 <= shr_m (fst (shr_fexp prec emax m e l)).
Proof.
  intros Hm. unfold shr_fexp, shr.
  assert (shr_m (shr_record_of_loc m l) = m) as H0
      by (destruct l as [|[| |]]; reflexivity).
  destruct (fexp prec emax (Zdigits2 m + e) - e) as [|p|p]; cbn [fst];
    rewrite ?H0; try assumption.
  rewrite iter_pos_shr_m by (rewrite H0; assumption).
  rewrite H0. apply Z.div_pos; lia.
Qed.

Lemma round_nearest_even_nonneg m l : 0 <= m -> 0 <= round_nearest_even m l.
Proof.
  intros H. destruct l as [|[| |]]; cbn [round_nearest_even]; try lia.
  destruct (Z.even m); lia.
Qed.

Lemma binary_round_aux_notNegative m e l :
  0 <= m -> notNegative (binary_round_aux prec emax false m e l).
Proof.
  intros Hm. pose proof (wellScaled_binary_round_aux false m e l) as W.
  revert W. unfold binary_round_aux.
  pose proof (shr_fexp_nonneg m e l Hm) as H1.
  destruct (shr_fexp prec emax m e l) as [mrs1 e1]. cbn [fst] in H1.
  pose proof (shr_fexp_nonneg _ e1 loc_Exact
                (round_nearest_even_nonneg _ (loc_of_shr_record mrs1) H1)) as H2.
  destruct (shr_fexp prec emax (round_nearest_even (shr_m mrs1)
                                  (loc_of_shr_record mrs1)) e1 loc_Exact)
    as [mrs2 e2].
  cbn [fst] in H2.
  destruct (shr_m mrs2) as [|q|q]; [intros _; exact I| |lia].
  destruct (e2 <=? emax - prec); cbn [wellScaled notNegative]; auto.
Qed.

Lemma signed_notNegative x : signed false x -> notNegative x.
Proof. intros [(m & e & -> & He)| ->]; cbn; auto. Qed.

Lemma notNegative_ofQ q : (0 <= q)%Q -> notNegative (ofQ q).
Proof.
  unfold ofQ, Qle. cbn [Qnum Qden]. intros H.
  destruct (Qnum q) as [|n|n]; [exact I| |lia].
  unfold SFdiv_core_binary.
  match goal with
  | |- context [Z.div_eucl ?a ?b] =>
      pose proof (Z.div_eucl_eq a b ltac:(lia)) as E;
      pose proof (Z.mod_pos_bound a b ltac:(lia)) as B;
      assert (0 <= a) as Ha;
      [|unfold Z.modulo in B; destruct (Z.div_eucl a b) as [qq r]]
  end.
  { match goal with
    | |- 0 <= match ?s with _ => _ end => destruct s
    end; try lia. apply Z.shiftl_nonneg. lia. }
  apply binary_round_aux_notNegative. nia.
Qed.

Lemma notNegative_add x y : notNegative x -> notNegative y -> notNegative (add x y).
Proof.
  unfold add. destruct x as [sx|sx| |sx mx ex], y as [sy|sy| |sy my ey];
    cbn [notNegative SFadd]; try tauto.
  - intros _ _. destruct sx, sy; exact I.
  - intros -> ->. reflexivity.
  - intros [-> Hx] [-> Hy]. cbn [cond_Zopp]. cbv zeta.
    match goal with
    | |- notNegative (binary_normalize _ _ (Zpos ?a + Zpos ?b) _ _) =>
        change (Zpos a + Zpos b) with (Zpos (a + b))
    end.
    cbn [binary_normalize]. apply signed_notNegative.
    apply binary_round_signed. lia.
Qed.

Lemma ofZ_100 : ofZ 100 = S754_finite false 7036874417766400 (-46).
Proof. reflexivity. Qed.

Lemma notNegative_mul_100 x : notNegative x -> notNegative (mul x (ofZ 100)).
Proof.
  rewrite ofZ_100. unfold mul. destruct x as [sx|sx| |sx mx ex];
    cbn [notNegative SFmul]; try tauto.
  - intros ->. reflexivity.
  - intros [-> Hx]. cbn [xorb]. apply binary_round_aux_notNegative. lia.
Qed.

Lemma notNegative_div_100 x : notNegative x -> notNegative (div x (ofZ 100)).
Proof.
  rewrite ofZ_100. unfold div. destruct x as [sx|sx| |sx mx ex];
    cbn [notNegative SFdiv]; try tauto.
  - intros ->. reflexivity.
  - intros [-> Hx]. cbn [xorb]. unfold SFdiv_core_binary.
    match goal with
    | |- context [Z.div_eucl ?a ?b] =>
        pose proof (Z.div_eucl_eq a b ltac:(lia)) as E;
        pose proof (Z.mod_pos_bound a b ltac:(lia)) as B;
        assert (0 <= a) as Ha;
        [|unfold Z.modulo in B; destruct (Z.div_eucl a b) as [qq r]]
    end.
    { match goal with
      | |- 0 <= match ?s with _ => _ end => destruct s
      end; try lia. apply Z.shiftl_nonneg. lia. }
    apply binary_round_aux_notNegative. nia.
Qed.

Lemma notNegative_Math_round x : notNegative x -> notNegative (Math_round x).
Proof.
  destruct x as [sx|sx| |sx mx ex]; cbn [notNegative Math_round]; try tauto.
  intros [-> Hx]. destruct (Z.leb_spec 0 ex); [cbn; auto|].
  set (r := (2 * Zpos mx + 2 ^ (- ex)) / (2 * 2 ^ (- ex))).
  assert (0 <= r) as Hr.
  { assert (0 < 2 ^ (- ex)) by (apply Z.pow_pos_nonneg; lia).
    apply Z.div_pos; lia. }
  destruct (r =? 0) eqn:E; [exact I|]. apply Z.eqb_neq in E.
  unfold ofZ. destruct r as [|q|q]; try lia.
  cbn [binary_normalize]. apply signed_notNegative. apply binary_round_signed. lia.
Qed.

End DoubleFacts.

(** * The aggregation of a bill *)

Module CombineFacts.
Import Num JSDate JSString Money Types Runtime BillingService DoubleFacts.

Lemma jseqb_eq (a b : jsstring) : JSString.eqb a b = true <-> a = b.
Proof.
  revert b. induction a as [|x a IH]; intros [|y b]; cbn; split; intros H;
    try reflexivity; try discriminate.
  - apply andb_prop in H. destruct H as [H1 H2].
    apply N.eqb_eq in H1. apply IH in H2. congruence.
  - inversion H; subst. rewrite N.eqb_refl. cbn. apply IH. reflexivity.
Qed.

Lemma jseqb_refl (a : jsstring) : JSString.eqb a a = true.
Proof. apply jseqb_eq. reflexivity. Qed.

Lemma jseqb_neq (a b : jsstring) : JSString.eqb a b = false <-> a <> b.
Proof.
  split.
  - intros H E. apply jseqb_eq in E. congruence.
  - intros H. destruct (JSString.eqb a b) eqn:E; [|reflexivity].
    apply jseqb_eq in E. contradiction.
Qed.

(** *** combineItems *)

Definition itemKey (t : Transaction) : jsstring := trim (toLowerCase (item t)).

(** The transactions of a list that carry a given key. *)
Definition withKey (k : jsstring) (txs : list Transaction) : list Transaction :=
  filter (fun t => JSString.eqb (itemKey t) k) txs.

(** The sum of the amounts as the code adds them: in doubles, first to
    last, starting with the first amount. *)
Definition sumAmounts (txs : list Transaction) : Double.double :=
  match txs with
  | [] => Double.ofZ 0
  | t :: rest => fold_left (fun acc u => Double.add acc (amountOf u)) rest (amountOf t)
  end.

(** The unit price before it is rounded: the amount of a single
    transaction, the average of several. *)
Definition average (txs : list Transaction) : Double.double :=
  match txs with
  | [t] => amountOf t
  | _ => Double.div (sumAmounts txs) (Double.ofZ (Z.of_nat (List.length txs)))
  end.

Lemma sumAmounts_snoc txs t :
  txs <> [] -> sumAmounts (txs ++ [t]) = Double.add (sumAmounts txs) (amountOf t).
Proof.
  destruct txs as [|a txs]; [congruence|]. intros _.
  cbn [app sumAmounts]. rewrite fold_left_app. reflexivity.
Qed.

Lemma average_snoc txs t :
  txs <> [] ->
  average (txs ++ [t])
  = Double.div (sumAmounts (txs ++ [t]))
               (Double.ofZ (Z.of_nat (List.length (txs ++ [t])))).
Proof. destruct txs as [|a [|b txs]]; [congruence| |]; reflexivity. Qed.

Lemma withKey_snoc k txs t :
  withKey k (txs ++ [t])
  = withKey k txs ++ (if JSString.eqb (itemKey t) k then [t] else []).
Proof. unfold withKey. rewrite filter_app. reflexivity. Qed.

(** What an entry of the map records about the transactions seen so far. *)
Definition records (txs : list Transaction) (e : jsstring * ItemData) : Prop :=
  let g := withKey (fst e) txs in
  g <> []
  /\ dataQuantity (snd e) = Z.of_nat (List.length g)
  /\ dataTotalPrice (snd e) = sumAmounts g
  /\ dataUnitPrice (snd e) = average g.

Definition mapInvariant (txs : list Transaction) (m : ItemMap) : Prop :=
  NoDup (map fst m)
  /\ Forall (records txs) m
  /\ (forall t, In t txs -> In (itemKey t) (map fst m)).

Lemma mapHas_In key m : mapHas key m = true <-> In key (map fst m).
Proof.
  unfold mapHas. rewrite existsb_exists. split.
  - intros ((k, d) & Hin & E). apply jseqb_eq in E. cbn in E. subst.
    apply in_map_iff. exists (key, d). auto.
  - intros H. apply in_map_iff in H. destruct H as ((k, d) & E & Hin).
    cbn in E. subst. exists (key, d). split; [assumption|]. apply jseqb_refl.
Qed.

Lemma mapUpdate_keys key f m : map fst (mapUpdate key f m) = map fst m.
Proof.
  induction m as [|(k, v) m IH]; [reflexivity|]. cbn.
  destruct (JSString.eqb k key); cbn; [reflexivity|]. rewrite IH. reflexivity.
Qed.

Lemma mapUpdate_Forall (P Q : jsstring * ItemData -> Prop) key f m :
  NoDup (map fst m) ->
  Forall P m ->
  (forall v, P (key, v) -> Q (key, f v)) ->
  (forall k v, k <> key -> P (k, v) -> Q (k, v)) ->
  Forall Q (mapUpdate key f m).
Proof.
  intros Hnd Hall Hhit Hmiss. induction m as [|(k, v) m IH]; [constructor|].
  cbn in *. inversion Hnd as [|? ? Hnot Hnd']; subst.
  inversion Hall as [|? ? Hp Hall']; subst.
  destruct (JSString.eqb k key) eqn:E.
  - apply jseqb_eq in E. subst k. constructor; [apply Hhit; assumption|].
    apply Forall_forall. intros (k', v') Hin. apply Hmiss.
    + intros ->. apply Hnot. apply in_map_iff. exists (key, v'). auto.
    + rewrite Forall_forall in Hall'. apply Hall'. assumption.
  - apply jseqb_neq in E. constructor; [apply Hmiss; assumption|].
    apply IH; assumption.
Qed.

Lemma addTransaction_eq m t :
  addTransaction m t
  = if mapHas (itemKey t) m then
      mapUpdate (itemKey t)
        (fun existing =>
           mkItemData (dataQuantity existing + 1)
             (Double.add (dataTotalPrice existing) (amountOf t))
             (Double.div (Double.add (dataTotalPrice existing) (amountOf t))
                         (Double.ofZ (dataQuantity existing + 1))))
        m
    else m ++ [(itemKey t, mkItemData 1 (amountOf t) (amountOf t))].
Proof. reflexivity. Qed.

Lemma addTransaction_invariant txs m t :
  mapInvariant txs m -> mapInvariant (txs ++ [t]) (addTransaction m t).
Proof.
  intros (Hnd & Hall & Hkeys). rewrite addTransaction_eq.
  destruct (mapHas (itemKey t) m) eqn:Hhas.
  - apply mapHas_In in Hhas. split; [|split].
    + rewrite mapUpdate_keys. assumption.
    + apply (mapUpdate_Forall (records txs)); try assumption.
      * intros v (Hne & Hq & Ht & Hu). unfold records in *. cbn [fst snd] in *.
        cbn [dataQuantity dataTotalPrice dataUnitPrice].
        rewrite withKey_snoc, jseqb_refl.
        rewrite (average_snoc _ t Hne), (sumAmounts_snoc _ t Hne), length_app.
        cbn [List.length].
        split; [destruct (withKey (itemKey t) txs); discriminate|].
        split; [lia|]. rewrite Ht, Hq. split; [reflexivity|].
        do 2 f_equal. lia.
      * intros k v Hk (Hne & Hq & Ht & Hu). unfold records in *. cbn [fst snd] in *.
        rewrite withKey_snoc.
        assert (JSString.eqb (itemKey t) k = false) as ->
          by (apply jseqb_neq; congruence).
        rewrite app_nil_r. auto.
    + rewrite mapUpdate_keys. intros t' Hin. apply in_app_or in Hin.
      destruct Hin as [Hin|[<-|[]]]; [apply Hkeys|]; assumption.
  - assert (~ In (itemKey t) (map fst m)) as Hnot.
    { intros H. apply mapHas_In in H. congruence. }
    assert (withKey (itemKey t) txs = []) as Hempty.
    { unfold withKey. destruct (filter _ txs) as [|t' l] eqn:E; [reflexivity|].
      exfalso. assert (In t' (filter (fun t0 => JSString.eqb (itemKey t0) (itemKey t)) txs))
        as Hin by (rewrite E; left; reflexivity).
      apply filter_In in Hin. destruct Hin as [Hin Heq]. apply jseqb_eq in Heq.
      apply Hnot. rewrite <- Heq. apply Hkeys. assumption. }
    split; [|split].
    + rewrite map_app. cbn. apply NoDup_app_remove_l with (l := []). cbn.
      apply Permutation_NoDup with (l := itemKey t :: map fst m).
      * apply Permutation_cons_append.
      * constructor; assumption.
    + apply Forall_app. split.
      * apply Forall_forall. intros (k, v) Hin.
        rewrite Forall_forall in Hall. specialize (Hall _ Hin).
        destruct Hall as (Hne & Hq & Ht & Hu). unfold records in *. cbn [fst snd] in *.
        rewrite withKey_snoc.
        assert (JSString.eqb (itemKey t) k = false) as ->.
        { apply jseqb_neq. intros E. subst k. apply Hnot. apply in_map_iff.
          exists (itemKey t, v). auto. }
        rewrite app_nil_r. auto.
      * constructor; [|constructor]. unfold records. cbn [fst snd].
        cbn [dataQuantity dataTotalPrice dataUnitPrice].
        rewrite withKey_snoc, jseqb_refl, Hempty. cbn [app List.length].
        split; [discriminate|]. repeat split.
    + rewrite map_app. intros t' Hin. apply in_or_app. apply in_app_or in Hin.
      destruct Hin as [Hin|[<-|[]]]; [left; apply Hkeys; assumption|].
      right. left. reflexivity.
Qed.

Lemma fold_addTransaction_invariant txs :
  mapInvariant txs (fold_left addTransaction txs []).
Proof.
  induction txs as [|t txs IH] using rev_ind.
  - split; [constructor|]. split; [constructor|]. intros t [].
  - rewrite fold_left_app. cbn [fold_left]. apply addTransaction_invariant. exact IH.
Qed.

(** *** The sort *)

Lemma insertSorted_perm {A : Type} (cmp : A -> A -> Double.double) x l :
  Permutation (x :: l) (insertSorted cmp x l).
Proof.
  induction l as [|y l IH]; cbn; [reflexivity|].
  destruct (Double.isPositive (cmp x y)); [|reflexivity].
  rewrite perm_swap. apply perm_skip. exact IH.
Qed.

Lemma sort_perm {A : Type} (cmp : A -> A -> Double.double) l :
  Permutation l (sort cmp l).
Proof.
  induction l as [|x l IH]; cbn; [constructor|].
  rewrite <- insertSorted_perm. apply perm_skip. exact IH.
Qed.

Definition byTotalPrice (a b : BillItem) : Double.double :=
  Double.sub (totalPrice b) (totalPrice a).

(** [a] may stand before [b]: the total of [b] is not above that of [a]. *)
Definition descending (a b : BillItem) : Prop :=
  Double.leb (totalPrice b) (totalPrice a) = true.

(** A total that the comparator orders: a number, with an exponent of
    the format. *)
Definition ordered (b : BillItem) : Prop :=
  Double.isNaN (totalPrice b) = false /\ wellScaled (totalPrice b).

Lemma insertSorted_sorted x l :
  ordered x -> Forall ordered l ->
  StronglySorted descending l ->
  StronglySorted descending (insertSorted byTotalPrice x l).
Proof.
  intros [Nx Wx]. induction l as [|y l IH]; intros Ho Hs; cbn [insertSorted].
  - constructor; constructor.
  - inversion Hs as [|? ? Hs' Hall]; subst.
    inversion Ho as [|? ? [Ny Wy] Ho']; subst.
    unfold byTotalPrice at 1.
    rewrite (sub_positive _ _ Wy Wx Ny Nx).
    destruct (Double.leb (totalPrice y) (totalPrice x)) eqn:E; cbn [negb].
    + constructor; [assumption|].
      constructor; [exact E|].
      apply Forall_forall. intros z Hz. rewrite Forall_forall in Hall.
      specialize (Hall z Hz). unfold descending in *.
      eapply double_leb_trans; eassumption.
    + constructor; [apply IH; assumption|].
      apply Forall_forall. intros z Hz.
      apply (Permutation_in z (Permutation_sym (insertSorted_perm byTotalPrice x l))) in Hz.
      destruct Hz as [<-|Hz].
      * unfold descending. apply double_leb_total; assumption.
      * rewrite Forall_forall in Hall. apply Hall. assumption.
Qed.

Lemma sort_sorted l :
  Forall ordered l -> StronglySorted descending (sort byTotalPrice l).
Proof.
  induction l as [|x l IH]; intros Ho; cbn [sort fold_right]; [constructor|].
  inversion Ho; subst.
  apply insertSorted_sorted; [assumption| |apply IH; assumption].
  apply Forall_forall. intros z Hz.
  apply (Permutation_in z (Permutation_sym (sort_perm byTotalPrice l))) in Hz.
  rewrite Forall_forall in H2. apply H2. assumption.
Qed.

Definition toBillItem (e : jsstring * ItemData) : BillItem :=
  mkBillItem (fst e) (dataQuantity (snd e)) (round2 (dataUnitPrice (snd e)))
             (round2 (dataTotalPrice (snd e))).

Lemma combineItems_eq txs :
  combineItems txs
  = sort byTotalPrice (map toBillItem (fold_left addTransaction txs [])).
Proof. reflexivity. Qed.

Lemma wellScaled_round2 x : wellScaled (round2 x).
Proof. unfold round2. apply wellScaled_div. Qed.

(** A code unit that [toLowerCase] maps as it maps ASCII: ASCII itself
    and the Bengali block, which has no case. *)
Definition plainUnit (c : N) : Prop :=
  (c < 128)%N \/ (2432 <= c <= 2559)%N.

Definition purchase (name : string) (price : Q) : Transaction :=
  mkTransaction [] (mkDate (Some 0%Z)) (utf16 "Monir") (utf16 name) price None
                (mkDate (Some 0%Z)) (mkDate (Some 0%Z)).

Definition milkAndBread : list Transaction :=
  [ purchase "milk" 100; purchase "bread" 50; purchase "milk" 100;
    purchase "milk" 100 ].

(** *** Totals of amounts that are not negative *)

Lemma notNegative_sumAmounts g :
  g <> [] -> Forall (fun t => 0 <= amount t) g -> notNegative (sumAmounts g).
Proof.
  destruct g as [|t g]; [congruence|]. intros _ H. inversion H as [|? ? Ht Hg]; subst.
  cbn [sumAmounts].
  assert (notNegative (amountOf t)) as H0 by (apply notNegative_ofQ; assumption).
  revert H0. generalize (amountOf t). induction g as [|u g IH]; intros acc Hacc;
    cbn [fold_left]; [assumption|].
  inversion Hg; subst. apply IH; [constructor; assumption|assumption|].
  apply notNegative_add; [assumption|]. apply notNegative_ofQ. assumption.
Qed.

Lemma notNegative_round2 x : notNegative x -> notNegative (round2 x).
Proof.
  intros H. unfold round2. apply notNegative_div_100, notNegative_Math_round,
                             notNegative_mul_100. assumption.
Qed.

Definition plainItem (t : Transaction) : bool :=
  forallb (fun c => (c <? 128)%N || ((2432 <=? c)%N && (c <=? 2559)%N)) (item t).

(** C5 (amended): for transactions whose item names are made of ASCII and
    Bengali characters, [combineItems] returns one line per lower-cased and
    trimmed item name.  The quantity of a line is the number of transactions
    with that name; its total is their amounts added in doubles, first to
    last, then rounded with [Math.round(x * 100) / 100]; its unit price is
    that sum divided by the quantity (the amount itself for a single
    transaction), rounded the same way.  The lines are sorted by descending
    total when no total is [NaN], and none is when no amount is negative.
    Three purchases of milk at 100 and one of bread at 50 give milk
    (3, 100, 300) before bread (1, 50, 50). *)
Theorem combineItems_groups (transactions : list Transaction) :
  forallb plainItem transactions = true ->
  NoDup (map billItem (combineItems transactions))
  /\ (forall t, In t transactions ->
        In (itemKey t) (map billItem (combineItems transactions)))
  /\ (forall b, In b (combineItems transactions) ->
        withKey (billItem b) transactions <> []
        /\ quantity b = Z.of_nat (List.length (withKey (billItem b) transactions))
        /\ totalPrice b = round2 (sumAmounts (withKey (billItem b) transactions))
        /\ unitPrice b = round2 (average (withKey (billItem b) transactions)))
  /\ (Forall (fun b => Double.isNaN (totalPrice b) = false)
             (combineItems transactions) ->
      StronglySorted descending (combineItems transactions))
  /\ (Forall (fun t => 0 <= amount t) transactions ->
      Forall (fun b => Double.isNaN (totalPrice b) = false)
             (combineItems transactions))
  /\ combineItems milkAndBread
     = [ mkBillItem (utf16 "milk") 3%Z (Double.ofQ 100) (Double.ofQ 300);
         mkBillItem (utf16 "bread") 1%Z (Double.ofQ 50) (Double.ofQ 50) ].
Proof.
  intros _. rewrite combineItems_eq.
  destruct (fold_addTransaction_invariant transactions) as (Hnd & Hall & Hkeys).
  set (m := fold_left addTransaction transactions []) in *.
  pose proof (sort_perm byTotalPrice (map toBillItem m)) as Hperm.
  assert (map billItem (map toBillItem m) = map fst m) as Hfst
    by (rewrite map_map; reflexivity).
  assert (forall b, In b (sort byTotalPrice (map toBillItem m)) ->
            withKey (billItem b) transactions <> []
            /\ quantity b = Z.of_nat (List.length (withKey (billItem b) transactions))
            /\ totalPrice b = round2 (sumAmounts (withKey (billItem b) transactions))
            /\ unitPrice b = round2 (average (withKey (billItem b) transactions)))
    as Hlines.
  { intros b Hin. apply (Permutation_in _ (Permutation_sym Hperm)) in Hin.
    apply in_map_iff in Hin. destruct Hin as (e & <- & Hin).
    rewrite Forall_forall in Hall. destruct (Hall e Hin) as (Hne & Hq & Ht & Hu).
    cbn [toBillItem billItem quantity totalPrice unitPrice].
    rewrite Ht, Hu. auto. }
  split; [|split; [|split; [|split; [|split]]]].
  - apply (Permutation_NoDup (Permutation_map billItem Hperm)).
    rewrite Hfst. assumption.
  - intros t Hin. apply (Permutation_in _ (Permutation_map billItem Hperm)).
    rewrite Hfst. apply Hkeys. assumption.
  - exact Hlines.
  - intros Hnan. apply sort_sorted.
    apply Forall_forall. intros b Hb.
    assert (In b (sort byTotalPrice (map toBillItem m))) as Hb'
        by (apply (Permutation_in _ Hperm); assumption).
    rewrite Forall_forall in Hnan. split; [apply Hnan; assumption|].
    apply in_map_iff in Hb. destruct Hb as (e & <- & _).
    cbn [toBillItem totalPrice]. apply wellScaled_round2.
  - intros Hpos. apply Forall_forall. intros b Hb.
    destruct (Hlines b Hb) as (Hne & _ & -> & _).
    apply notNegative_isNaN, notNegative_round2, notNegative_sumAmounts;
      [assumption|].
    apply Forall_forall. intros t Ht. unfold withKey in Ht.
    apply filter_In in Ht. destruct Ht as [Ht _].
    rewrite Forall_forall in Hpos. apply Hpos. assumption.
  - vm_compute. reflexivity.
Qed.

Lemma combineItems_groups_witness :
  StronglySorted descending (combineItems milkAndBread)
  /\ NoDup (map billItem (combineItems milkAndBread)).
Proof.
  destruct (combineItems_groups milkAndBread eq_refl) as (N & _ & _ & S & P & _).
  split; [|exact N]. apply S. apply P.
  repeat constructor; discriminate.
Defined.

(** C5, the claim as it stands fails: the total is rounded too, so one
    purchase of 0.125 is billed 0.13; and the arithmetic is that of doubles,
    so two purchases of milk at 35 and 35.01 have the unit price 35, not the
    35.01 that 35.005 rounds to. *)
Lemma combineItems_total_rounded :
  combineItems [purchase "milk" (1 # 8)]
  = [mkBillItem (utf16 "milk") 1%Z (Double.ofQ (13 # 100)) (Double.ofQ (13 # 100))]
  /\ sumAmounts [purchase "milk" (1 # 8)] = Double.ofQ (1 # 8)
  /\ Double.ofQ (13 # 100) <> Double.ofQ (1 # 8)
  /\ combineItems [purchase "milk" 35; purchase "milk" (3501 # 100)]
     = [mkBillItem (utf16 "milk") 2%Z (Double.ofQ 35) (Double.ofQ (7001 # 100))]
  /\ Double.ofQ 35 <> Double.ofQ (3501 # 100).
Proof.
  split; [vm_compute; reflexivity|]. split; [reflexivity|].
  split; [vm_compute; discriminate|].
  split; [vm_compute; reflexivity|]. vm_compute. discriminate.
Qed.

End CombineFacts.

(** * The matcher *)

Module RegExpFacts.
Import Num JSDate JSString RegExp.

(** * What a match of the backtracking matcher is *)

Inductive Matches : regex -> nat -> jsstring -> captures ->
                    nat -> jsstring -> captures -> Prop :=
| MEmpty pos rest caps : Matches Empty pos rest caps pos rest caps
| MChar p c pos rest caps :
    p c = true -> Matches (Char p) pos (c :: rest) caps (S pos) rest caps
| MSeq r1 r2 pos rest caps pos1 rest1 caps1 pos2 rest2 caps2 :
    Matches r1 pos rest caps pos1 rest1 caps1 ->
    Matches r2 pos1 rest1 caps1 pos2 rest2 caps2 ->
    Matches (Seq r1 r2) pos rest caps pos2 rest2 caps2
| MAltL r1 r2 pos rest caps pos' rest' caps' :
    Matches r1 pos rest caps pos' rest' caps' ->
    Matches (Alt r1 r2) pos rest caps pos' rest' caps'
| MAltR r1 r2 pos rest caps pos' rest' caps' :
    Matches r2 pos rest caps pos' rest' caps' ->
    Matches (Alt r1 r2) pos rest caps pos' rest' caps'
| MStarStop g r pos rest caps : Matches (Star g r) pos rest caps pos rest caps
| MStarStep g r pos rest caps pos1 rest1 caps1 pos2 rest2 caps2 :
    Matches r pos rest caps pos1 rest1 caps1 ->
    Matches (Star g r) pos1 rest1 caps1 pos2 rest2 caps2 ->
    Matches (Star g r) pos rest caps pos2 rest2 caps2
| MGroup n r pos rest caps pos' rest' caps' :
    Matches r pos rest caps pos' rest' caps' ->
    Matches (Group n r) pos rest caps pos' rest'
            ((n, firstn (pos' - pos) rest) :: caps')
| MBol rest caps : Matches Bol 0 rest caps 0 rest caps
| MEol pos caps : Matches Eol pos [] caps pos [] caps
| MLookahead r pos rest caps pos' rest' caps' :
    Matches r pos rest caps pos' rest' caps' ->
    Matches (Lookahead r) pos rest caps pos rest caps'.

Definition Sound (r : regex) : Prop :=
  forall pos rest caps k m,
    run r pos rest caps k = Some m ->
    exists pos' rest' caps',
      Matches r pos rest caps pos' rest' caps' /\ k pos' rest' caps' = Some m.

Lemma run_sound r : Sound r.
Proof.
  induction r as [|p|r1 IH1 r2 IH2|r1 IH1 r2 IH2|g r1 IH1|n r1 IH1| | |r1 IH1];
    intros pos rest caps k m H; cbn [run] in H.
  - exists pos, rest, caps. split; [constructor|assumption].
  - destruct rest as [|c rest]; [discriminate|].
    destruct (p c) eqn:E; [|discriminate].
    exists (S pos), rest, caps. split; [constructor; assumption|assumption].
  - apply IH1 in H. destruct H as (p1 & s1 & c1 & M1 & H).
    apply IH2 in H. destruct H as (p2 & s2 & c2 & M2 & H).
    exists p2, s2, c2. split; [econstructor; eassumption|assumption].
  - destruct (run r1 pos rest caps k) eqn:E.
    + inversion H; subst. apply IH1 in E. destruct E as (p1 & s1 & c1 & M1 & E).
      exists p1, s1, c1. split; [apply MAltL; assumption|assumption].
    + apply IH2 in H. destruct H as (p1 & s1 & c1 & M1 & E').
      exists p1, s1, c1. split; [apply MAltR; assumption|assumption].
  - revert H. generalize (List.length rest) as fuel.
    intros fuel. revert pos rest caps.
    induction fuel as [|fuel IHf]; intros pos rest caps H.
    + exists pos, rest, caps. split; [constructor|assumption].
    + match type of H with
      | (if g then match ?again with _ => _ end else _) = _ =>
          assert (again = Some m \/ k pos rest caps = Some m) as [A|A]
      end.
      { destruct g.
        - match type of H with
          | match ?again with _ => _ end = _ => destruct again eqn:E
          end; [left; assumption|right; assumption].
        - destruct (k pos rest caps) eqn:E; [right; assumption|left; assumption]. }
      * apply IH1 in A. destruct A as (p1 & s1 & c1 & M1 & A).
        destruct (Nat.ltb pos p1); [|discriminate].
        apply IHf in A. destruct A as (p2 & s2 & c2 & M2 & A).
        exists p2, s2, c2. split; [econstructor; eassumption|assumption].
      * exists pos, rest, caps. split; [constructor|assumption].
  - apply IH1 in H. destruct H as (p1 & s1 & c1 & M1 & H).
    eexists _, _, _. split; [constructor; eassumption|assumption].
  - destruct (Nat.eqb pos 0) eqn:E; [|discriminate].
    apply Nat.eqb_eq in E. subst. exists 0%nat, rest, caps.
    split; [constructor|assumption].
  - destruct rest; [|discriminate]. exists pos, [], caps.
    split; [constructor|assumption].
  - destruct (run r1 pos rest caps (fun p s c => Some (p, s, c))) as [[[p1 s1] c1]|] eqn:E;
      [|discriminate].
    apply IH1 in E. destruct E as (p' & s' & c' & M1 & E). inversion E; subst.
    exists pos, rest, c1. split; [econstructor; eassumption|assumption].
Qed.

Lemma matchAt_sound r pos rest e after caps :
  matchAt r pos rest = Some (e, after, caps) ->
  Matches r pos rest [] e after caps.
Proof.
  unfold matchAt. intros H. apply run_sound in H.
  destruct H as (p & s & c & M & E). inversion E; subst. assumption.
Qed.

Lemma execFrom_sound r pos rest m :
  execFrom r pos rest = Some m ->
  exists rest' e,
    Matches r (index m) rest' [] e (following m) (groups m)
    /\ matched m = firstn (e - index m) rest'.
Proof.
  revert pos. induction rest as [|c rest IH]; intros pos H; cbn [execFrom] in H.
  - destruct (matchAt r pos []) as [[[e after] caps]|] eqn:E; [|discriminate].
    inversion H; subst. cbn. apply matchAt_sound in E. eauto.
  - destruct (matchAt r pos (c :: rest)) as [[[e after] caps]|] eqn:E.
    + inversion H; subst. cbn. apply matchAt_sound in E. eauto.
    + eapply IH. eassumption.
Qed.

(** The text a match consumes. *)
Lemma Matches_consumed r pos rest caps pos' rest' caps' :
  Matches r pos rest caps pos' rest' caps' ->
  exists u, rest = u ++ rest' /\ pos' = (pos + List.length u)%nat.
Proof.
  induction 1.
  - exists []. split; [reflexivity|cbn; lia].
  - exists [c]. split; [reflexivity|cbn; lia].
  - destruct IHMatches1 as (u1 & -> & ->). destruct IHMatches2 as (u2 & -> & ->).
    exists (u1 ++ u2). rewrite app_assoc, length_app. split; [reflexivity|lia].
  - assumption.
  - assumption.
  - exists []. split; [reflexivity|cbn; lia].
  - destruct IHMatches1 as (u1 & -> & ->). destruct IHMatches2 as (u2 & -> & ->).
    exists (u1 ++ u2). rewrite app_assoc, length_app. split; [reflexivity|lia].
  - assumption.
  - exists []. split; [reflexivity|cbn; lia].
  - exists []. split; [reflexivity|cbn; lia].
  - exists []. split; [reflexivity|cbn; lia].
Qed.

End RegExpFacts.

(** * The parser *)

Module ParserFacts.
Import Num JSDate JSString RegExp Money Types Runtime Helpers WhatsAppParser DateFacts CombineFacts RegExpFacts.

(** The texts of a pattern without groups, anchors or lookahead. *)
Inductive Lang : regex -> jsstring -> Prop :=
| LEmpty : Lang Empty []
| LChar p c : p c = true -> Lang (Char p) [c]
| LSeq r1 r2 u1 u2 : Lang r1 u1 -> Lang r2 u2 -> Lang (Seq r1 r2) (u1 ++ u2)
| LAltL r1 r2 u : Lang r1 u -> Lang (Alt r1 r2) u
| LAltR r1 r2 u : Lang r2 u -> Lang (Alt r1 r2) u
| LStarStop g r : Lang (Star g r) []
| LStarStep g r u1 u2 : Lang r u1 -> Lang (Star g r) u2 -> Lang (Star g r) (u1 ++ u2).

Fixpoint plain (r : regex) : bool :=
  match r with
  | Empty | Char _ => true
  | Seq r1 r2 | Alt r1 r2 => plain r1 && plain r2
  | Star _ r1 => plain r1
  | Group _ _ | Bol | Eol | Lookahead _ => false
  end.

Lemma Matches_plain r pos rest caps pos' rest' caps' :
  Matches r pos rest caps pos' rest' caps' ->
  plain r = true ->
  exists u, rest = u ++ rest' /\ pos' = (pos + List.length u)%nat
            /\ caps' = caps /\ Lang r u.
Proof.
  induction 1; cbn [plain]; intros P; try discriminate.
  - exists []. repeat split; [cbn; lia|constructor].
  - exists [c]. repeat split; [cbn; lia|constructor; assumption].
  - apply andb_prop in P. destruct P as [P1 P2].
    destruct (IHMatches1 P1) as (u1 & -> & -> & -> & L1).
    destruct (IHMatches2 P2) as (u2 & -> & -> & -> & L2).
    exists (u1 ++ u2). rewrite app_assoc, length_app.
    repeat split; [lia|constructor; assumption].
  - apply andb_prop in P. destruct P as [P1 P2].
    destruct (IHMatches P1) as (u & -> & -> & -> & L).
    exists u. repeat split. apply LAltL. assumption.
  - apply andb_prop in P. destruct P as [P1 P2].
    destruct (IHMatches P2) as (u & -> & -> & -> & L).
    exists u. repeat split. apply LAltR. assumption.
  - exists []. repeat split; [cbn; lia|constructor].
  - destruct (IHMatches1 P) as (u1 & -> & -> & -> & L1).
    destruct (IHMatches2 P) as (u2 & -> & -> & -> & L2).
    exists (u1 ++ u2). rewrite app_assoc, length_app.
    repeat split; [lia|constructor; assumption].
Qed.

(** A capturing group around a plain pattern records the text consumed. *)
Lemma Matches_group_plain n r pos rest caps pos' rest' caps' :
  Matches (Group n r) pos rest caps pos' rest' caps' ->
  plain r = true ->
  exists u, rest = u ++ rest' /\ pos' = (pos + List.length u)%nat
            /\ caps' = (n, u) :: caps /\ Lang r u.
Proof.
  intros M P. inversion M; subst.
  match goal with H : Matches r _ _ _ _ _ _ |- _ =>
    destruct (Matches_plain _ _ _ _ _ _ _ H P) as (u & -> & -> & -> & L)
  end.
  exists u. repeat split; [|assumption].
  replace (pos + List.length u - pos)%nat with (List.length u) by lia.
  rewrite firstn_app, Nat.sub_diag, firstn_all. cbn. rewrite app_nil_r. reflexivity.
Qed.

Lemma Lang_times_char n p u :
  Lang (times n (Char p)) u -> List.length u = n /\ forallb p u = true.
Proof.
  revert u. induction n as [|n IH]; intros u L; cbn [times] in L.
  - inversion L; subst. auto.
  - inversion L as [| |? ? u1 u2 L1 L2| | | |]; subst.
    inversion L1; subst. apply IH in L2. destruct L2 as [<- F].
    cbn. rewrite F. split; [reflexivity|].
    match goal with H : p _ = true |- _ => rewrite H end. reflexivity.
Qed.

Lemma Lang_upto_char k p u :
  Lang (upto k (Char p)) u -> (List.length u <= k)%nat /\ forallb p u = true.
Proof.
  revert u. induction k as [|k IH]; intros u L; cbn [upto opt] in L.
  - inversion L; subst. auto.
  - inversion L as [| | |? ? ? L1|? ? ? L1| |]; subst.
    + inversion L1 as [| |? ? u1 u2 La Lb| | | |]; subst.
      inversion La; subst. apply IH in Lb. destruct Lb as [Hl F].
      cbn. rewrite F. split; [lia|].
      match goal with H : p _ = true |- _ => rewrite H end. reflexivity.
    + inversion L1; subst. cbn. split; [lia|reflexivity].
Qed.

Lemma Lang_rep_char n m p u :
  Lang (rep n m (Char p)) u ->
  (n <= List.length u <= n + (m - n))%nat /\ forallb p u = true.
Proof.
  unfold rep. intros L. inversion L as [| |? ? u1 u2 L1 L2| | | |]; subst.
  apply Lang_times_char in L1. apply Lang_upto_char in L2.
  destruct L1 as [<- F1]. destruct L2 as [H2 F2].
  rewrite length_app, forallb_app, F1, F2. split; [lia|reflexivity].
Qed.

Lemma Lang_chr c u : Lang (chr c) u -> u = [c].
Proof.
  unfold chr. intros L. inversion L; subst.
  match goal with H : N.eqb _ _ = true |- _ => apply N.eqb_eq in H; subst end.
  reflexivity.
Qed.

Lemma Lang_ch a u : Lang (ch a) u -> u = [N_of_ascii a].
Proof. apply Lang_chr. Qed.

Lemma Lang_seq_cons r rs u :
  Lang (seq (r :: rs)) u -> exists u1 u2, u = u1 ++ u2 /\ Lang r u1 /\ Lang (seq rs) u2.
Proof.
  unfold seq. cbn [fold_right]. intros L. inversion L; subst. eauto.
Qed.

Lemma Lang_seq_nil u : Lang (seq []) u -> u = [].
Proof. unfold seq. cbn. intros L. inversion L. reflexivity. Qed.

Lemma Matches_seq_cons r rs pos rest caps pos2 rest2 caps2 :
  Matches (seq (r :: rs)) pos rest caps pos2 rest2 caps2 ->
  exists pos1 rest1 caps1,
    Matches r pos rest caps pos1 rest1 caps1
    /\ Matches (seq rs) pos1 rest1 caps1 pos2 rest2 caps2.
Proof.
  unfold seq. cbn [fold_right]. intros M. inversion M; subst. eauto.
Qed.

(** *** The captures of the message header *)

Definition dateText (u : jsstring) : Prop :=
  exists a b c,
    u = a ++ [47%N] ++ b ++ [47%N] ++ c
    /\ (1 <= List.length a <= 2)%nat /\ forallb isDigit a = true
    /\ (1 <= List.length b <= 2)%nat /\ forallb isDigit b = true
    /\ (2 <= List.length c <= 4)%nat /\ forallb isDigit c = true.

Definition timeText (u : jsstring) : Prop :=
  exists a b,
    u = a ++ [58%N] ++ b
    /\ (1 <= List.length a <= 2)%nat /\ forallb isDigit a = true
    /\ List.length b = 2%nat /\ forallb isDigit b = true.

Ltac lang_seq L :=
  repeat match type of L with
         | Lang (seq (_ :: _)) _ =>
             let u1 := fresh "u" in let u2 := fresh "u" in
             let L1 := fresh "L" in
             apply Lang_seq_cons in L; destruct L as (u1 & u2 & -> & L1 & L)
         | Lang (seq []) _ => apply Lang_seq_nil in L; subst
         end.

Lemma dateText_of_Lang u :
  Lang (seq [rep 1 2 digit; ch "/"; rep 1 2 digit; ch "/"; rep 2 4 digit]) u ->
  dateText u.
Proof.
  intros L. lang_seq L.
  apply Lang_rep_char in L0, L2, L4. apply Lang_ch in L1, L3. subst.
  destruct L0 as [H0 F0], L2 as [H2 F2], L4 as [H4 F4].
  cbn in H0, H2, H4.
  eexists _, _, _. split; [rewrite app_nil_r; reflexivity|].
  repeat split; assumption || lia.
Qed.

Lemma timeText_of_Lang u :
  Lang (seq [rep 1 2 digit; ch ":"; rep 2 2 digit]) u -> timeText u.
Proof.
  intros L. lang_seq L.
  apply Lang_rep_char in L0, L2. apply Lang_ch in L1. subst.
  destruct L0 as [H0 F0], L2 as [H2 F2]. cbn in H0, H2.
  eexists _, _. split; [rewrite app_nil_r; reflexivity|].
  repeat split; assumption || lia.
Qed.

Ltac next_plain M :=
  let p := fresh "p" in let s := fresh "s" in let c := fresh "c" in
  let M1 := fresh "M" in let u := fresh "u" in let L := fresh "L" in
  apply Matches_seq_cons in M; destruct M as (p & s & c & M1 & M);
  apply Matches_plain in M1; [|reflexivity];
  destruct M1 as (u & -> & -> & -> & L); clear L.

Ltac next_group M u L :=
  let p := fresh "p" in let s := fresh "s" in let c := fresh "c" in
  let M1 := fresh "M" in
  apply Matches_seq_cons in M; destruct M as (p & s & c & M1 & M);
  apply Matches_group_plain in M1; [|reflexivity];
  destruct M1 as (u & -> & -> & -> & L).

Lemma header_captures line m :
  exec messagePattern line = Some m ->
  dateText (group 1 m) /\ timeText (group 2 m).
Proof.
  unfold exec. intros H. apply execFrom_sound in H.
  destruct H as (rest' & e & M & _). unfold messagePattern in M.
  (* ^ *)
  apply Matches_seq_cons in M. destruct M as (p0 & s0 & c0 & M0 & M).
  inversion M0; subst. clear M0.
  next_group M g1 L1.
  next_plain M. next_plain M.
  next_group M g2 L2.
  next_plain M.
  (* (am|pm)? *)
  apply Matches_seq_cons in M. destruct M as (p3 & s3 & c3 & M3 & M).
  assert (capture 1 c3 = Some g1 /\ capture 2 c3 = Some g2) as [C1 C2].
  { unfold opt in M3.
    inversion M3 as [| | |? ? ? ? ? ? ? ? MG|? ? ? ? ? ? ? ? ME| | | | | |]; subst.
    - apply Matches_group_plain in MG; [|reflexivity].
      destruct MG as (u3' & _ & _ & Hc & _). rewrite Hc. split; reflexivity.
    - inversion ME; subst. split; reflexivity. }
  clear M3.
  next_plain M. next_plain M. next_plain M.
  next_group M g4 L4.
  next_plain M. next_plain M.
  next_group M g5 L5.
  apply Matches_seq_cons in M. destruct M as (p6 & s6 & c6 & M6 & M).
  inversion M6; subst. clear M6.
  unfold seq in M. cbn [fold_right] in M. inversion M; subst.
  unfold group.
  match goal with H : _ = groups m |- _ => rewrite <- H end.
  cbn [capture Nat.eqb]. rewrite C1, C2.
  split; [apply dateText_of_Lang|apply timeText_of_Lang]; assumption.
Qed.

(** *** parseDate on the captures of a header *)

Lemma splitUnit_no_sep sep u :
  forallb (fun c => negb (N.eqb c sep)) u = true -> splitUnit sep u = [u].
Proof.
  induction u as [|c u IH]; cbn; [reflexivity|]. intros H.
  apply andb_prop in H. destruct H as [Hc Hu].
  apply negb_true_iff in Hc. rewrite Hc, (IH Hu). reflexivity.
Qed.

Lemma splitUnit_app sep u v :
  forallb (fun c => negb (N.eqb c sep)) u = true ->
  splitUnit sep (u ++ sep :: v) = u :: splitUnit sep v.
Proof.
  induction u as [|c u IH]; cbn [app splitUnit forallb].
  - rewrite N.eqb_refl. reflexivity.
  - intros H. apply andb_prop in H. destruct H as [Hc Hu].
    apply negb_true_iff in Hc. rewrite Hc, (IH Hu). reflexivity.
Qed.

Lemma digits_no_sep sep u :
  (sep < 48 \/ 57 < sep)%N -> forallb isDigit u = true ->
  forallb (fun c => negb (N.eqb c sep)) u = true.
Proof.
  intros Hs H. rewrite forallb_forall in *. intros c Hc. specialize (H c Hc).
  unfold isDigit, inRange in H. apply andb_prop in H. destruct H as [H1 H2].
  apply N.leb_le in H1, H2. apply negb_true_iff. apply N.eqb_neq. lia.
Qed.

Lemma digitsValue_from v u :
  forallb isDigit u = true ->
  (fold_left (fun acc c => acc * 10 + (c - 48)) u v
   < (v + 1) * 10 ^ N.of_nat (List.length u))%N.
Proof.
  revert v. induction u as [|c u IH]; intros v H.
  - cbn. lia.
  - cbn [forallb] in H. apply andb_prop in H. destruct H as [Hc Hu].
    unfold isDigit, inRange in Hc. apply andb_prop in Hc. destruct Hc as [H1 H2].
    apply N.leb_le in H1, H2.
    cbn [fold_left List.length]. specialize (IH (v * 10 + (c - 48))%N Hu).
    rewrite Nat2N.inj_succ, N.pow_succ_r'.
    eapply N.lt_le_trans; [exact IH|].
    assert (0 < 10 ^ N.of_nat (List.length u))%N
      by (apply N.neq_0_lt_0; apply N.pow_nonzero; lia).
    nia.
Qed.

Lemma digitsValue_bound u n :
  forallb isDigit u = true -> (List.length u <= n)%nat ->
  (digitsValue u < 10 ^ N.of_nat n)%N.
Proof.
  intros H Hn. unfold digitsValue.
  pose proof (digitsValue_from 0 u H) as B.
  eapply N.lt_le_trans; [exact B|].
  rewrite N.mul_1_l. apply N.pow_le_mono_r; lia.
Qed.

Lemma DayFromYear_bound y :
  (0 <= y <= 12000)%Z -> (-720000 <= DayFromYear y <= 3670000)%Z.
Proof. intros H. unfold DayFromYear. Z.div_mod_to_equations. lia. Qed.

Lemma DaysBeforeMonth_range y mn : (0 <= DaysBeforeMonth y mn <= 335)%Z.
Proof.
  unfold DaysBeforeMonth.
  destruct (DaysInYear y =? 366)%Z;
    repeat match goal with |- context [match ?x with _ => _ end] => destruct x end;
    lia.
Qed.

Lemma newDate5_valid y m d h mi :
  (100 <= y <= 9999)%Z -> (-1 <= m <= 98)%Z -> (0 <= d <= 99)%Z ->
  (0 <= h <= 111)%Z -> (0 <= mi <= 99)%Z ->
  exists t, getTime (newDate5 (Some y) (Some m) (Some d) (Some h) (Some mi)) = Some t.
Proof.
  intros Hy Hm Hd Hh Hmi. unfold newDate5, MakeFullYear.
  destruct (Z.leb_spec y 99); [lia|]. rewrite andb_false_r.
  unfold MakeDay, MakeTime, MakeDate. cbn [getTime].
  rewrite BillingFacts.TimeClip_valid; [eexists; reflexivity|].
  assert (0 <= y + m / 12 <= 12000)%Z as Hym by (Z.div_mod_to_equations; lia).
  pose proof (DayFromYear_bound _ Hym).
  pose proof (DaysBeforeMonth_range (y + m / 12) (m mod 12)).
  unfold maxTime, msPerDay, msPerHour, msPerMinute, msPerSecond. lia.
Qed.

Lemma parseDate_header dateStr timeStr ampm :
  dateText dateStr -> timeText timeStr ->
  exists d t, parseDate dateStr timeStr ampm = Some d /\ getTime d = Some t.
Proof.
  intros (a & b & c & -> & Ha & Fa & Hb & Fb & Hc & Fc)
         (h & mi & -> & Hh & Fh & Hmi & Fmi).
  unfold parseDate, numbersOf.
  cbn [app].
  rewrite (splitUnit_app 47 a) by (apply digits_no_sep; [lia|assumption]).
  rewrite (splitUnit_app 47 b) by (apply digits_no_sep; [lia|assumption]).
  rewrite (splitUnit_no_sep 47 c) by (apply digits_no_sep; [lia|assumption]).
  rewrite (splitUnit_app 58 h) by (apply digits_no_sep; [lia|assumption]).
  rewrite (splitUnit_no_sep 58 mi) by (apply digits_no_sep; [lia|assumption]).
  cbn [map].
  pose proof (digitsValue_bound a 2 Fa ltac:(lia)) as Ba.
  pose proof (digitsValue_bound b 2 Fb ltac:(lia)) as Bb.
  pose proof (digitsValue_bound c 4 Fc ltac:(lia)) as Bc.
  pose proof (digitsValue_bound h 2 Fh ltac:(lia)) as Bh.
  pose proof (digitsValue_bound mi 2 Fmi ltac:(lia)) as Bmi.
  change (10 ^ N.of_nat 2)%N with 100%N in *.
  change (10 ^ N.of_nat 4)%N with 10000%N in *.
  set (day := Z.of_N (digitsValue a)) in *.
  set (month := Z.of_N (digitsValue b)) in *.
  set (year := Z.of_N (digitsValue c)) in *.
  set (hours := Z.of_N (digitsValue h)) in *.
  set (minutes := Z.of_N (digitsValue mi)) in *.
  match goal with
  | |- exists d t, match getTime (newDate5 (Some ?y) (Some ?m) (Some ?dd) (Some ?hh) (Some ?mm)) with _ => _ end = _ /\ _ =>
      destruct (newDate5_valid y m dd hh mm) as [t Ht]
  end.
  - destruct (Z.ltb_spec year 100); lia.
  - lia.
  - lia.
  - destruct ampm as [[|x ampm]|]; try lia.
    repeat match goal with |- context [if ?b then _ else _] => destruct b end; lia.
  - lia.
  - rewrite Ht. eexists _, t. split; [reflexivity|assumption].
Qed.

(** * The parser: what a run produces *)

(** A computation that returns, whatever the world. *)
Definition returns {A : Type} (c : M A) : Prop :=
  forall w, exists a w', c w = (Normal a, w').

Lemma returns_ret {A : Type} (a : A) : returns (ret a).
Proof. intros w. exists a, w. reflexivity. Qed.

Lemma returns_bind {A B : Type} (c : M A) (f : A -> M B) :
  returns c -> (forall a, returns (f a)) -> returns (bind c f).
Proof.
  intros Hc Hf w. destruct (Hc w) as (a & w1 & E).
  destruct (Hf a w1) as (b & w2 & E2). exists b, w2.
  unfold bind. rewrite E. exact E2.
Qed.

Lemma returns_tryCatch {A : Type} (body : M A) (handler : Error -> M A) :
  (forall e, returns (handler e)) -> returns (tryCatch body handler).
Proof.
  intros Hh w. unfold tryCatch. destruct (body w) as [[a|e] w1].
  - exists a, w1. reflexivity.
  - apply Hh.
Qed.

Lemma returns_newDateNow : returns newDateNow.
Proof. intros w. eexists _, _. reflexivity. Qed.

Lemma returns_performance_now : returns performance_now.
Proof. intros w. eexists _, _. reflexivity. Qed.

Lemma returns_forEachM {A S : Type} (body : S -> A -> M S) xs acc :
  (forall s x, returns (body s x)) -> returns (forEachM body xs acc).
Proof.
  intros Hb. revert acc. induction xs as [|x xs IH]; intros acc; cbn [forEachM].
  - apply returns_ret.
  - apply returns_bind; [apply Hb|]. intros a. apply IH.
Qed.

Lemma returns_catchLine i line ctx e : returns (catchLine i line ctx e).
Proof. apply returns_ret. Qed.

Lemma returns_processLine ctx entry : returns (processLine ctx entry).
Proof.
  destruct entry as [i raw]. unfold processLine.
  destruct (isEmpty (trim raw)); [apply returns_ret|].
  destruct (exec messagePattern (trim raw)) as [mm|].
  - destruct (parseDate _ _ _) as [d|]; [|apply returns_ret].
    destruct (JSString.eqb _ monir); [|apply returns_ret].
    apply returns_tryCatch. intros e. apply returns_catchLine.
  - destruct (exec dateOnlyPattern (trim raw)) as [dm|].
    + destruct (parseDateFromComponents _ _ _); apply returns_ret.
    + apply returns_bind.
      * destruct (currentDate ctx); [apply returns_ret|apply returns_newDateNow].
      * intros useDate. destruct (JSString.eqb _ monir); [|apply returns_ret].
        apply returns_tryCatch. intros e. apply returns_catchLine.
Qed.

Lemma returns_enhancedContextBasedParsing lines errs :
  returns (enhancedContextBasedParsing lines errs).
Proof.
  unfold enhancedContextBasedParsing. apply returns_bind.
  - apply returns_forEachM. intros s x. apply returns_processLine.
  - intros ctx. apply returns_ret.
Qed.

Lemma returns_parseFile content : returns (parseFile content).
Proof.
  unfold parseFile. apply returns_bind; [apply returns_performance_now|].
  intros startTime. apply returns_bind; [apply returns_enhancedContextBasedParsing|].
  intros [txs errs]. apply returns_bind; [apply returns_performance_now|].
  intros now_. apply returns_ret.
Qed.

(** *** Inversion of the monad *)

Lemma bind_Normal {A B : Type} (c : M A) (f : A -> M B) w b w' :
  bind c f w = (Normal b, w') ->
  exists a w1, c w = (Normal a, w1) /\ f a w1 = (Normal b, w').
Proof.
  unfold bind. destruct (c w) as [[a|e] w1]; intros H; [eauto|discriminate].
Qed.

Lemma ret_Normal {A : Type} (a b : A) w w' :
  ret a w = (Normal b, w') -> b = a /\ w' = w.
Proof. unfold ret. intros H. inversion H. auto. Qed.

Lemma lift_Normal {A : Type} (c : Completion A) a w w' :
  lift c w = (Normal a, w') -> c = Normal a /\ w' = w.
Proof. unfold lift. intros H. inversion H. auto. Qed.

Lemma tryCatch_Normal {A : Type} (body : M A) handler w (a : A) w' :
  tryCatch body handler w = (Normal a, w') ->
  body w = (Normal a, w')
  \/ exists e w1, body w = (Throw e, w1) /\ handler e w1 = (Normal a, w').
Proof.
  unfold tryCatch. destruct (body w) as [[x|e] w1]; intros H; [left|right; eauto].
  assumption.
Qed.

Lemma forEachM_invariant {A S : Type} (P : S -> Prop) (body : S -> A -> M S) :
  (forall s x w s' w', P s -> body s x w = (Normal s', w') -> P s') ->
  forall xs acc w r w',
    P acc -> forEachM body xs acc w = (Normal r, w') -> P r.
Proof.
  intros Hb. induction xs as [|x xs IH]; intros acc w r w' Hacc H; cbn [forEachM] in H.
  - apply ret_Normal in H. destruct H as [-> _]. assumption.
  - apply bind_Normal in H. destruct H as (s1 & w1 & H1 & H2).
    eapply IH; [|exact H2]. eapply Hb; eassumption.
Qed.

Lemma forEachC_invariant {A S : Type} (P : S -> Prop) (body : S -> A -> Completion S) :
  (forall s x s', P s -> body s x = Normal s' -> P s') ->
  forall xs acc r, P acc -> forEachC body xs acc = Normal r -> P r.
Proof.
  intros Hb. induction xs as [|x xs IH]; intros acc r Hacc H; cbn [forEachC] in H.
  - inversion H; subst. assumption.
  - unfold bindC in H. destruct (body acc x) as [s1|e] eqn:E; [|discriminate].
    eapply IH; [|exact H]. eapply Hb; eassumption.
Qed.

(** *** The amounts of the pairs *)

Definition boundedAmount (a : Q) : Prop := 0 < a /\ a <= 1000.

Lemma gtb_lt a b : gtb a b = true -> b < a.
Proof.
  unfold gtb. intros H. apply negb_true_iff in H.
  apply Qnot_le_lt. intros L. apply Qle_bool_iff in L. congruence.
Qed.

Lemma leb_le a b : leb a b = true -> a <= b.
Proof. unfold leb. apply Qle_bool_iff. Qed.

Lemma findSimpleItemAmountPairs_bounded text pairs :
  findSimpleItemAmountPairs text = Normal pairs ->
  Forall (fun p : Pair => boundedAmount (snd p)) pairs.
Proof.
  unfold findSimpleItemAmountPairs, bindC.
  match goal with
  | |- match ?c with _ => _ end = _ -> _ => destruct c as [pairs1|e] eqn:E1
  end; [|discriminate].
  assert (Forall (fun p : Pair => boundedAmount (snd p)) pairs1) as H1.
  { revert E1. apply forEachC_invariant; [|constructor].
    intros s [currentWord nextWord] s' Hs.
    destruct (test startsWithItemChar currentWord && test numberPattern nextWord);
      [|intros E; inversion E; subst; assumption].
    destruct (isValidItem (trim currentWord) && gtb (parseFloat nextWord) 0
              && leb (parseFloat nextWord) 1000) eqn:C; [|discriminate].
    intros E. inversion E; subst. apply Forall_app. split; [assumption|].
    constructor; [|constructor]. cbn [snd].
    apply andb_prop in C. destruct C as [C C3]. apply andb_prop in C.
    destruct C as [_ C2]. split; [apply gtb_lt|apply leb_le]; assumption. }
  destruct (matchGlobal attachedPattern (convertBengaliNumerals text)) as [ms|].
  - apply forEachC_invariant; [|assumption].
    intros s match_ s' Hs.
    destruct (exec attachedPattern match_) as [result|];
      [|intros E; inversion E; subst; assumption].
    match goal with
    | |- (if ?isTypo then _ else _) = _ -> _ => destruct isTypo
    end; [intros E; inversion E; subst; assumption|].
    match goal with
    | |- (if ?c then _ else _) = _ -> _ => destruct c eqn:C
    end; [|discriminate].
    intros E. inversion E; subst. apply Forall_app. split; [assumption|].
    constructor; [|constructor]. cbn [snd].
    apply andb_prop in C. destruct C as [C C3]. apply andb_prop in C.
    destruct C as [_ C2]. split; [apply gtb_lt|apply leb_le]; assumption.
  - intros E. inversion E; subst. assumption.
Qed.

(** *** The transactions of one message *)

Definition producedFrom (text sender : jsstring) (date : Date) (t : Transaction)
  : Prop :=
  Types.sender t = sender
  /\ Types.date t = copyDate date
  /\ originalMessage t = Some text
  /\ (boundedAmount (amount t)
      \/ exec kenaPattern (convertBengaliNumerals text) <> None).

Lemma newTransaction_Normal date sender item amount text w t w' :
  newTransaction date sender item amount text w = (Normal t, w') ->
  Types.sender t = sender /\ Types.date t = copyDate date
  /\ Types.item t = item /\ Types.amount t = amount
  /\ originalMessage t = Some text.
Proof.
  unfold newTransaction, generateId, bind, Date_now, Math_random_base36,
    newDateNow, ret. intros H. inversion H; subst. cbn. auto.
Qed.

Lemma createTransactions_produced text sender date ps :
  Forall (fun p : Pair => boundedAmount (snd p)) ps ->
  forall acc w r w',
    Forall (producedFrom text sender date) acc ->
    forEachM
      (fun (transactions : list Transaction) (pair : Pair) =>
         if gtb (snd pair) 0 then
           match fst pair with
           | ItemString item =>
               if isValidItem item then
                 bind (newTransaction date sender item (snd pair) text)
                      (fun t => ret (transactions ++ [t]))
               else ret transactions
           | InheritedProperty => throw (TypeError (utf16 "item.toLowerCase"))
           end
         else ret transactions)
      ps acc w = (Normal r, w') ->
    Forall (producedFrom text sender date) r.
Proof.
  induction 1 as [|p ps Hb Hps IH]; intros acc w r w' Hacc H; cbn [forEachM] in H.
  - apply ret_Normal in H. destruct H as [-> _]. assumption.
  - apply bind_Normal in H. destruct H as (acc1 & w6 & H1 & H2).
    apply (IH acc1 w6 r w'); [|exact H2].
    destruct (gtb (snd p) 0);
      [|apply ret_Normal in H1; destruct H1 as [-> _]; assumption].
    destruct (fst p) as [item|]; [|discriminate].
    destruct (isValidItem item);
      [|apply ret_Normal in H1; destruct H1 as [-> _]; assumption].
    apply bind_Normal in H1. destruct H1 as (t & w7 & Ht & H1).
    apply ret_Normal in H1. destruct H1 as [-> _].
    apply newTransaction_Normal in Ht. destruct Ht as (S & D & _ & A & O).
    apply Forall_app. split; [assumption|]. constructor; [|constructor].
    repeat split; try assumption. left. rewrite A. assumption.
Qed.

Lemma validateAndExtractTransactions_produced text sender date lineNumber w r w' :
  validateAndExtractTransactions text sender date lineNumber w = (Normal r, w') ->
  Forall (producedFrom text sender date) (extractedTransactions r).
Proof.
  unfold validateAndExtractTransactions.
  destruct (exec kenaPattern (convertBengaliNumerals text)) as [km|] eqn:K.
  - intros H. apply bind_Normal in H. destruct H as (t & w1 & Ht & H).
    apply ret_Normal in H. destruct H as [-> _]. cbn [extractedTransactions].
    apply newTransaction_Normal in Ht. destruct Ht as (S & D & _ & _ & O).
    constructor; [|constructor]. repeat split; try assumption.
    right. rewrite K. discriminate.
  - intros H. apply bind_Normal in H. destruct H as (pairs & w1 & Hp & H).
    apply lift_Normal in Hp. destruct Hp as [Hp ->].
    apply findSimpleItemAmountPairs_bounded in Hp.
    apply bind_Normal in H. destruct H as (iwa & w2 & _ & H).
    apply bind_Normal in H. destruct H as (s1 & w3 & _ & H).
    apply bind_Normal in H. destruct H as (s2 & w4 & _ & H).
    apply bind_Normal in H. destruct H as (txs & w5 & Htx & H).
    apply ret_Normal in H. destruct H as [-> _]. cbn [extractedTransactions].
    eapply createTransactions_produced; [exact Hp|constructor|exact Htx].
Qed.

(** *** What every line preserves *)

Definition fromMonir (t : Transaction) : Prop := toLowerCase (sender t) = monir.

Definition amountWithinBound (t : Transaction) : Prop :=
  boundedAmount (amount t)
  \/ exists text, originalMessage t = Some text
                  /\ exec kenaPattern (convertBengaliNumerals text) <> None.

Definition accepted (t : Transaction) : Prop := fromMonir t /\ amountWithinBound t.

Lemma producedFrom_accepted text sender date t :
  JSString.eqb (toLowerCase sender) monir = true ->
  producedFrom text sender date t -> accepted t.
Proof.
  intros Hs (S & _ & O & A). split.
  - unfold fromMonir. rewrite S. apply jseqb_eq. assumption.
  - destruct A as [A|A]; [left; assumption|right; eauto].
Qed.

Lemma catchLine_Normal i line ctx e w ctx' w' :
  catchLine i line ctx e w = (Normal ctx', w') ->
  transactions ctx' = transactions ctx /\ currentSender ctx' = currentSender ctx
  /\ currentDate ctx' = currentDate ctx
  /\ errors ctx' = errors ctx ++ [mkParseError (Z.of_nat i + 1) (errorMessage e) line].
Proof.
  unfold catchLine. intros H. apply ret_Normal in H. destruct H as [-> _].
  cbn. auto.
Qed.

(** The shapes a turn of the loop can take. *)
Lemma processLine_cases ctx i raw w ctx' w' :
  processLine ctx (i, raw) w = (Normal ctx', w') ->
  (* nothing extracted *)
  (transactions ctx' = transactions ctx
   /\ (errors ctx' = errors ctx
       \/ exists e, errors ctx'
                    = errors ctx ++ [mkParseError (Z.of_nat i + 1) (errorMessage e)
                                                  (trim raw)]))
  \/
  (* the transactions of a message of the carried sender *)
  (exists text date r w0 w1,
      JSString.eqb (toLowerCase (currentSender ctx')) monir = true
      /\ validateAndExtractTransactions text (currentSender ctx') date
                                          (Z.of_nat i + 1) w0 = (Normal r, w1)
      /\ transactions ctx' = transactions ctx ++ extractedTransactions r
      /\ errors ctx' = errors ctx).
Proof.
  unfold processLine.
  destruct (isEmpty (trim raw)).
  { intros H. apply ret_Normal in H. destruct H as [-> _]. left. auto. }
  destruct (exec messagePattern (trim raw)) as [mm|].
  - destruct (parseDate _ _ _) as [d|];
      [|intros H; apply ret_Normal in H; destruct H as [-> _]; left; cbn; auto].
    destruct (JSString.eqb _ monir) eqn:Hm;
      [|intros H; apply ret_Normal in H; destruct H as [-> _]; left; cbn; auto].
    intros H. apply tryCatch_Normal in H. destruct H as [H|(e & w1 & _ & H)].
    + apply bind_Normal in H. destruct H as (r & w1 & Hr & H).
      apply ret_Normal in H. destruct H as [-> _]. right.
      cbn [currentSender transactions errors].
      eexists _, _, _, _, _. split; [exact Hm|]. split; [exact Hr|]. auto.
    + apply catchLine_Normal in H. destruct H as (T & _ & _ & E).
      left. cbn in T, E. split; [assumption|]. right. eauto.
  - destruct (exec dateOnlyPattern (trim raw)) as [dm|].
    + destruct (parseDateFromComponents _ _ _);
        intros H; apply ret_Normal in H; destruct H as [-> _]; left; cbn; auto.
    + intros H. apply bind_Normal in H. destruct H as (useDate & w1 & _ & H).
      destruct (JSString.eqb _ monir) eqn:Hm;
        [|apply ret_Normal in H; destruct H as [-> _]; left; auto].
      assert ((if isEmpty (currentSender ctx) then utf16 "unknown"
               else currentSender ctx) = currentSender ctx) as Hu.
      { destruct (isEmpty (currentSender ctx)); [|reflexivity].
        vm_compute in Hm. discriminate. }
      rewrite Hu in *.
      apply tryCatch_Normal in H. destruct H as [H|(e & w2 & _ & H)].
      * apply bind_Normal in H. destruct H as (r & w2 & Hr & H).
        apply ret_Normal in H. destruct H as [-> _]. right.
        cbn [currentSender transactions errors].
        eexists _, _, _, _, _. split; [exact Hm|]. split; [exact Hr|]. auto.
      * apply catchLine_Normal in H. destruct H as (T & _ & _ & E).
        left. split; [assumption|]. right. eauto.
Qed.

Lemma processLine_accepted ctx entry w ctx' w' :
  Forall accepted (transactions ctx) ->
  processLine ctx entry w = (Normal ctx', w') ->
  Forall accepted (transactions ctx').
Proof.
  destruct entry as [i raw]. intros Hall H. apply processLine_cases in H.
  destruct H as [(T & _)|(text & date & r & w0 & w1 & Hm & Hr & T & _)];
    rewrite T; [assumption|].
  apply Forall_app. split; [assumption|].
  apply validateAndExtractTransactions_produced in Hr.
  eapply Forall_impl; [|exact Hr]. intros t. apply producedFrom_accepted. assumption.
Qed.

Lemma enhancedContextBasedParsing_accepted lines errs w txs errs' w' :
  enhancedContextBasedParsing lines errs w = (Normal (txs, errs'), w') ->
  Forall accepted txs.
Proof.
  unfold enhancedContextBasedParsing. intros H.
  apply bind_Normal in H. destruct H as (ctx & w1 & H & R).
  apply ret_Normal in R. destruct R as [R _]. inversion R; subst.
  revert H. apply (forEachM_invariant (fun c => Forall accepted (transactions c))).
  - intros s x w0 s' w0' Hs Hb. eapply processLine_accepted; eassumption.
  - constructor.
Qed.

Lemma fold_left_invariant {A S : Type} (P : S -> Prop) (f : S -> A -> S) l s :
  (forall s x, In x l -> P s -> P (f s x)) -> P s -> P (fold_left f l s).
Proof.
  revert s. induction l as [|x l IH]; intros s Hf Hs; cbn [fold_left]; [assumption|].
  apply IH.
  - intros s' y Hy. apply Hf. right. assumption.
  - apply Hf; [left; reflexivity|assumption].
Qed.

(** *** Maps *)

Lemma mapGet_In {V : Type} key (m : StringMap V) v :
  mapGet key m = Some v -> In (key, v) m.
Proof.
  unfold mapGet. destruct (find _ m) as [[k v0]|] eqn:E; [|discriminate].
  intros H. inversion H; subst. apply find_some in E. destruct E as [Hin Hk].
  cbn in Hk. apply jseqb_eq in Hk. subst. assumption.
Qed.

Lemma mapSet_Forall {V : Type} (P : V -> Prop) key v (m : StringMap V) :
  Forall (fun e => P (snd e)) m -> P v ->
  Forall (fun e => P (snd e)) (mapSet key v m).
Proof.
  intros Hm Hv. induction m as [|[k v0] m IH]; cbn [mapSet].
  - constructor; [assumption|constructor].
  - inversion Hm; subst. destruct (JSString.eqb k key); constructor; auto.
Qed.

Lemma groupOf_Forall (P : list Transaction -> Prop) key m :
  Forall (fun e => P (snd e)) m -> P [] -> P (groupOf key m).
Proof.
  intros Hm Hnil. unfold groupOf. destruct (mapGet key m) as [g|] eqn:E; [|assumption].
  apply mapGet_In in E. rewrite Forall_forall in Hm. apply (Hm (key, g)). assumption.
Qed.

(** *** contextBasedCategorizing keeps every transaction but its item *)

Definition renamedFrom (l : list Transaction) (t' : Transaction) : Prop :=
  exists t name, In t l /\ t' = setItem t name.

Lemma contextBasedCategorizing_renames l t' :
  In t' (contextBasedCategorizing l) -> renamedFrom l t'.
Proof.
  unfold contextBasedCategorizing.
  match goal with
  | |- context [fold_left ?f l []] => set (exactGroups := fold_left f l []) in *
  end.
  assert (Forall (fun e => incl (snd e) l) exactGroups) as Hex.
  { subst exactGroups.
    apply (fold_left_invariant
             (fun m : StringMap (list Transaction) =>
                Forall (fun e => incl (snd e) l) m)); [|constructor].
    intros m t Ht Hm.
    apply (mapSet_Forall (fun g => incl g l)); [assumption|].
    apply incl_app.
    - apply (groupOf_Forall (fun g => incl g l)); [assumption|].
      intros x [].
    - intros x [<-|[]]. assumption. }
  match goal with
  | |- context [fold_left ?f (map fst exactGroups) ([], [])] =>
      destruct (fold_left f (map fst exactGroups) ([], [])) as [merged processed] eqn:E
  end.
  assert (Forall (fun e : jsstring * list Transaction =>
                    Forall (renamedFrom l) (snd e)) merged) as Hm.
  { change merged with (fst (merged, processed)). rewrite <- E. clear E.
    apply (fold_left_invariant
             (fun st : StringMap (list Transaction) * list jsstring =>
                Forall (fun e => Forall (renamedFrom l) (snd e)) (fst st)));
      [|constructor].
    intros [mg pr] key1 _ Hmg. cbn [fst] in Hmg.
    destruct (setHas key1 pr); [assumption|].
    match goal with
    | |- context [fold_left ?f (map fst exactGroups) ([groupOf key1 exactGroups], pr)] =>
        destruct (fold_left f (map fst exactGroups) ([groupOf key1 exactGroups], pr))
          as [similarGroups pr'] eqn:E2
    end.
    cbn [fst].
    assert (Forall (fun g => incl g l) similarGroups) as Hsim.
    { change similarGroups with (fst (similarGroups, pr')). rewrite <- E2. clear E2.
      apply (fold_left_invariant
               (fun st : list (list Transaction) * list jsstring =>
                  Forall (fun g => incl g l) (fst st))).
      - intros [sg pr0] key2 _ Hsg. cbn [fst] in Hsg.
        destruct (negb (JSString.eqb key1 key2) && negb (setHas key2 pr0));
          [|assumption].
        destruct (calculateSimilarity key1 key2) as [sim|]; [|assumption].
        destruct (gtb sim (2 # 10)); [|assumption].
        cbn [fst]. apply Forall_app. split; [assumption|].
        constructor; [|constructor].
        apply (groupOf_Forall (fun g => incl g l)); [assumption|]. intros x [].
      - cbn [fst]. constructor; [|constructor].
        apply (groupOf_Forall (fun g => incl g l)); [assumption|]. intros x []. }
    apply (mapSet_Forall (fun g => Forall (renamedFrom l) g)); [assumption|].
    apply Forall_forall. intros x Hx. apply in_map_iff in Hx.
    destruct Hx as (t & <- & Ht). apply in_concat in Ht.
    destruct Ht as (g & Hg & Ht). rewrite Forall_forall in Hsim.
    exists t, (chooseBestItemName (map item (List.concat similarGroups))).
    split; [apply (Hsim g Hg); assumption|reflexivity]. }
  intros Hin. apply in_concat in Hin. destruct Hin as (g & Hg & Hin).
  apply in_map_iff in Hg. destruct Hg as (e & <- & He).
  rewrite Forall_forall in Hm. specialize (Hm e He).
  rewrite Forall_forall in Hm. apply Hm. assumption.
Qed.

(** *** removeDuplicates keeps a part of its input *)

Lemma removeDuplicatesFrom_incl seen l :
  incl (removeDuplicatesFrom seen l) l.
Proof.
  revert seen. induction l as [|t l IH]; intros seen; cbn [removeDuplicatesFrom].
  - intros x [].
  - destruct (setHas (duplicateKey t) seen).
    + apply incl_tl. apply IH.
    + apply incl_cons; [left; reflexivity|]. apply incl_tl. apply IH.
Qed.

Lemma removeDuplicates_incl l : incl (removeDuplicates l) l.
Proof. apply removeDuplicatesFrom_incl. Qed.

Lemma accepted_setItem t name : accepted t -> accepted (setItem t name).
Proof. intros H. exact H. Qed.

(** Every transaction of a result is accepted. *)
Lemma parseFile_accepted content w r w' :
  parseFile content w = (Normal r, w') -> Forall accepted (resultTransactions r).
Proof.
  unfold parseFile. intros H.
  apply bind_Normal in H. destruct H as (startTime & w1 & _ & H).
  apply bind_Normal in H. destruct H as ([txs errs] & w2 & Hp & H).
  apply bind_Normal in H. destruct H as (now_ & w3 & _ & H).
  apply ret_Normal in H. destruct H as [-> _]. cbn [resultTransactions].
  apply enhancedContextBasedParsing_accepted in Hp.
  apply Forall_forall. intros t Ht.
  apply removeDuplicates_incl in Ht.
  apply contextBasedCategorizing_renames in Ht. destruct Ht as (t0 & name & Hin & ->).
  apply accepted_setItem. rewrite Forall_forall in Hp. apply Hp. assumption.
Qed.

Lemma forEachM_invariant_In {A S : Type} (P : S -> Prop) (body : S -> A -> M S) xs :
  (forall s x w s' w', In x xs -> P s -> body s x w = (Normal s', w') -> P s') ->
  forall acc w r w',
    P acc -> forEachM body xs acc w = (Normal r, w') -> P r.
Proof.
  induction xs as [|x xs IH]; intros Hb acc w r w' Hacc H; cbn [forEachM] in H.
  - apply ret_Normal in H. destruct H as [-> _]. assumption.
  - apply bind_Normal in H. destruct H as (s1 & w1 & H1 & H2).
    eapply IH; [|
      eapply Hb; [left; reflexivity|exact Hacc|exact H1] | exact H2].
    intros s y w0 s' w0' Hy. apply Hb. right. assumption.
Qed.

Lemma indexed_In {A : Type} (l : list A) n i x :
  In (i, x) (indexed n l) -> (n <= i)%nat /\ nth_error l (i - n) = Some x.
Proof.
  revert n. induction l as [|y l IH]; intros n; cbn [indexed]; [intros []|].
  intros [E|H].
  - inversion E; subst. rewrite Nat.sub_diag. split; [lia|reflexivity].
  - apply IH in H. destruct H as [Hn Hx]. split; [lia|].
    replace (i - n)%nat with (S (i - S n)) by lia. exact Hx.
Qed.



Lemma validateAndExtractTransactions_bounded text sender date lineNumber w r w' :
  exec kenaPattern (convertBengaliNumerals text) = None ->
  validateAndExtractTransactions text sender date lineNumber w = (Normal r, w') ->
  Forall (fun t => boundedAmount (amount t)) (extractedTransactions r).
Proof.
  intros K H. apply validateAndExtractTransactions_produced in H.
  eapply Forall_impl; [|exact H].
  intros t (_ & _ & _ & [B|B]); [assumption|contradiction].
Qed.

Lemma processLine_other_sender ctx entry w ctx' w' :
  processLine ctx entry w = (Normal ctx', w') ->
  toLowerCase (currentSender ctx') <> monir ->
  transactions ctx' = transactions ctx.
Proof.
  destruct entry as [i raw]. intros H N. apply processLine_cases in H.
  destruct H as [(T & _)|(text & date & r & w0 & w1 & Hm & _)]; [assumption|].
  apply jseqb_eq in Hm. contradiction.
Qed.

Definition totalOnly : jsstring :=
  Eval vm_compute in utf16 "03/01/2024, 9:35 pm - Monir: কেনা ৫০০০".

Definition otherSender : jsstring :=
  Eval vm_compute in utf16 "03/01/2024, 9:35 pm - Munia: milk 100
dim 50
03/01/2024, 9:36 pm - Monir: milk 100".

(** C3: the pairs [findSimpleItemAmountPairs] returns (its two strategies:
    a word followed by a number, a number attached to a word) have an amount
    above 0 and at most 1000; so have the transactions
    [validateAndExtractTransactions] makes of a text without a total; and
    every transaction [parseFile] returns has such an amount or comes from a
    message with a total.  A total of 5000 is kept as it is. *)
Theorem amounts_within_bound :
  (forall text,
      match findSimpleItemAmountPairs text with
      | Normal pairs => Forall (fun p : Pair => 0 < snd p /\ snd p <= 1000) pairs
      | Throw _ => True
      end)
  /\ findSimpleItemAmountPairs (utf16 "milk 100")
     = Normal [(ItemString (utf16 "milk"), 100)]
  /\ (forall text sender date lineNumber w,
         exec kenaPattern (convertBengaliNumerals text) = None ->
         match fst (validateAndExtractTransactions text sender date lineNumber w) with
         | Normal r =>
             Forall (fun t => 0 < amount t /\ amount t <= 1000)
                    (extractedTransactions r)
         | Throw _ => True
         end)
  /\ (forall content w,
         exists r w',
           parseFile content w = (Normal r, w')
           /\ Forall (fun t =>
                        (0 < amount t /\ amount t <= 1000)
                        \/ exists text,
                            originalMessage t = Some text
                            /\ exec kenaPattern (convertBengaliNumerals text) <> None)
                     (resultTransactions r))
  /\ (forall w,
         exists r w',
           parseFile totalOnly w = (Normal r, w')
           /\ map amount (resultTransactions r) = [5000]).
Proof.
  split; [|split; [|split; [|split]]].
  - intros text. destruct (findSimpleItemAmountPairs text) as [pairs|e] eqn:E;
      [|exact I].
    apply findSimpleItemAmountPairs_bounded in E. exact E.
  - vm_compute. reflexivity.
  - intros text sender date lineNumber w K.
    destruct (validateAndExtractTransactions text sender date lineNumber w)
      as [[r|e] w'] eqn:E; [|exact I].
    cbn [fst]. eapply validateAndExtractTransactions_bounded; eassumption.
  - intros content w. destruct (returns_parseFile content w) as (r & w' & E).
    exists r, w'. split; [exact E|].
    apply parseFile_accepted in E.
    eapply Forall_impl; [|exact E]. intros t [_ B]. exact B.
  - intros w. destruct (returns_parseFile totalOnly w) as (r & w' & E).
    exists r, w'. split; [exact E|].
    assert (match fst (parseFile totalOnly w) with
            | Normal r => map amount (resultTransactions r) = [5000]
            | Throw _ => False
            end) as X by (vm_compute; reflexivity).
    rewrite E in X. exact X.
Qed.

(** C4: every transaction [parseFile] returns has a sender that is
    [monir] in lower case; a line after which the carried sender is another
    one, or none, adds no transaction; for example the message and the
    continuation line of another sender are dropped and the message of the
    target sender is kept. *)
Theorem parseFile_only_target_sender :
  (forall content w,
      exists r w',
        parseFile content w = (Normal r, w')
        /\ Forall (fun t => toLowerCase (sender t) = utf16 "monir")
                  (resultTransactions r))
  /\ (forall ctx entry w,
         exists ctx' w',
           processLine ctx entry w = (Normal ctx', w')
           /\ (toLowerCase (currentSender ctx') <> utf16 "monir" ->
               transactions ctx' = transactions ctx))
  /\ (forall w,
         exists r w',
           parseFile otherSender w = (Normal r, w')
           /\ map (fun t => (sender t, item t, amount t)) (resultTransactions r)
              = [(utf16 "Monir", utf16 "milk", 100)]).
Proof.
  split; [|split].
  - intros content w. destruct (returns_parseFile content w) as (r & w' & E).
    exists r, w'. split; [exact E|].
    apply parseFile_accepted in E.
    eapply Forall_impl; [|exact E]. intros t [S _]. exact S.
  - intros ctx entry w.
    destruct (returns_processLine ctx entry w) as (ctx' & w' & E).
    exists ctx', w'. split; [exact E|].
    intros N. eapply processLine_other_sender; [exact E|exact N].
  - intros w. destruct (returns_parseFile otherSender w) as (r & w' & E).
    exists r, w'. split; [exact E|].
    assert (match fst (parseFile otherSender w) with
            | Normal r =>
                map (fun t => (sender t, item t, amount t)) (resultTransactions r)
                = [(utf16 "Monir", utf16 "milk", 100)]
            | Throw _ => False
            end) as X by (vm_compute; reflexivity).
    rewrite E in X. exact X.
Qed.

(** *** Printing an integer is injective *)

Definition valueFrom (v : N) (s : jsstring) : N :=
  fold_left (fun acc c => acc * 10 + (c - 48))%N s v.

Lemma valueFrom_shift v s :
  valueFrom v s = (v * 10 ^ N.of_nat (List.length s) + valueFrom 0 s)%N.
Proof.
  revert v. induction s as [|c s IH]; intros v.
  - cbn. lia.
  - cbn [valueFrom fold_left List.length].
    fold (valueFrom (v * 10 + (c - 48)) s). fold (valueFrom (0 * 10 + (c - 48)) s).
    rewrite (IH (v * 10 + (c - 48))%N), (IH (0 * 10 + (c - 48))%N).
    rewrite Nat2N.inj_succ, N.pow_succ_r'. lia.
Qed.

Lemma digitsFuel_value fuel n acc :
  (n < 10 ^ N.of_nat fuel)%N -> (1 <= fuel)%nat ->
  valueFrom 0 (digitsFuel fuel n acc)
  = (n * 10 ^ N.of_nat (List.length acc) + valueFrom 0 acc)%N.
Proof.
  revert n acc. induction fuel as [|fuel IH]; intros n acc Hn Hf; [lia|].
  cbn [digitsFuel]. destruct (n <? 10)%N eqn:L.
  - apply N.ltb_lt in L. cbn [valueFrom fold_left]. fold (valueFrom (0 * 10 + (48 + n mod 10 - 48)) acc).
    rewrite valueFrom_shift. rewrite N.mod_small by assumption.
    replace (0 * 10 + (48 + n - 48))%N with n by lia. reflexivity.
  - apply N.ltb_ge in L.
    rewrite Nat2N.inj_succ, N.pow_succ_r' in Hn.
    assert (n / 10 < 10 ^ N.of_nat fuel)%N as Hd
        by (apply N.Div0.div_lt_upper_bound; assumption).
    assert (1 <= fuel)%nat as Hf'.
    { destruct fuel; [|lia]. cbn in Hn. lia. }
    rewrite IH by assumption.
    cbn [List.length valueFrom fold_left].
    fold (valueFrom (0 * 10 + (48 + n mod 10 - 48)) acc).
    rewrite (valueFrom_shift (0 * 10 + (48 + n mod 10 - 48))).
    rewrite Nat2N.inj_succ, N.pow_succ_r'.
    pose proof (N.div_mod n 10 ltac:(lia)) as Hdm.
    assert (forall m, (0 * 10 + (48 + m - 48))%N = m) as Hz by (clear; intros m; lia). rewrite Hz.
    set (q := (n / 10)%N) in *. set (r := (n mod 10)%N) in *. clearbody q r. subst n. ring.
Qed.

Lemma natToString_value n : digitsValue (natToString n) = n.
Proof.
  unfold natToString. change (digitsValue ?s) with (valueFrom 0 s).
  rewrite digitsFuel_value; [cbn; lia| |lia].
  rewrite Nat2N.inj_succ, N2Nat.id, N.pow_succ_r'.
  pose proof (N.size_gt n) as Hs.
  assert (2 ^ N.size n <= 10 ^ N.size n)%N by (apply N.pow_le_mono_l; lia).
  lia.
Qed.

Definition startsWithDigit (s : jsstring) : Prop :=
  exists c rest, s = c :: rest /\ (48 <= c)%N.

Lemma digitsFuel_head fuel n acc :
  (1 <= fuel)%nat \/ startsWithDigit acc -> startsWithDigit (digitsFuel fuel n acc).
Proof.
  revert n acc. induction fuel as [|fuel IH]; intros n acc H.
  - destruct H as [H|H]; [lia|exact H].
  - cbn [digitsFuel].
    assert (startsWithDigit ((48 + n mod 10)%N :: acc)) as Hd
        by (eexists _, _; split; [reflexivity|generalize (n mod 10)%N; intros; lia]).
    destruct (n <? 10)%N; [exact Hd|]. apply IH. right. exact Hd.
Qed.

Lemma intToString_inj a b : intToString a = intToString b -> a = b.
Proof.
  assert (forall n, startsWithDigit (natToString n)) as Hh
      by (intros n; apply digitsFuel_head; left; lia).
  assert (forall p n, 45%N :: natToString (Npos p) <> natToString n) as Hneg.
  { intros p n E. destruct (Hh n) as (c & rest & Hc & Hge).
    rewrite Hc in E. inversion E. lia. }
  assert (forall x y, natToString x = natToString y -> x = y) as Hinj.
  { intros x y E. rewrite <- (natToString_value x), <- (natToString_value y).
    rewrite E. reflexivity. }
  unfold intToString. destruct a as [|p|p], b as [|q|q]; intros E;
    try reflexivity;
    try (apply Hinj in E; cbn in E; congruence);
    try (exfalso; eapply Hneg; exact E);
    try (exfalso; eapply Hneg; symmetry; exact E).
  inversion E as [E']. apply Hinj in E'. congruence.
Qed.

Lemma toString_proper a b : a == b -> Money.toString a = Money.toString b.
Proof.
  intros E. unfold Money.toString. rewrite (Qred_complete a b E). reflexivity.
Qed.

(** *** removeDuplicates *)

Lemma setHas_In key seen : setHas key seen = true <-> In key seen.
Proof.
  unfold setHas. rewrite existsb_exists. split.
  - intros (x & Hx & E). apply jseqb_eq in E. subst. assumption.
  - intros H. exists key. split; [assumption|apply jseqb_refl].
Qed.

Lemma removeDuplicatesFrom_keys seen l :
  NoDup (map duplicateKey (removeDuplicatesFrom seen l))
  /\ (forall t, In t (removeDuplicatesFrom seen l) -> ~ In (duplicateKey t) seen)
  /\ (forall t, In t l ->
                In (duplicateKey t) seen
                \/ In (duplicateKey t) (map duplicateKey (removeDuplicatesFrom seen l))).
Proof.
  revert seen. induction l as [|x l IH]; intros seen; cbn [removeDuplicatesFrom].
  - repeat split; [constructor|intros t []|intros t []].
  - destruct (setHas (duplicateKey x) seen) eqn:Hs.
    + destruct (IH seen) as (N & D & C). repeat split; try assumption.
      intros t [<-|Ht]; [left; apply setHas_In; assumption|apply C; assumption].
    + destruct (IH (duplicateKey x :: seen)) as (N & D & C).
      assert (~ In (duplicateKey x) seen) as Hx.
      { intros H. apply setHas_In in H. congruence. }
      repeat split.
      * cbn [map]. constructor; [|assumption].
        intros H. apply in_map_iff in H. destruct H as (t & E & Ht).
        apply (D t Ht). left. symmetry. assumption.
      * intros t [<-|Ht]; [assumption|].
        intros H. apply (D t Ht). right. assumption.
      * intros t [<-|Ht]; [right; left; reflexivity|].
        destruct (C t Ht) as [[E|H]|H].
        -- right. left. assumption.
        -- left. assumption.
        -- right. right. assumption.
Qed.

Lemma dateKey_valid d t :
  getTime d = Some t -> dateKey d = intToString (t / 300000).
Proof. unfold dateKey. intros ->. reflexivity. Qed.

Lemma duplicateKey_window t1 t2 a b :
  sender t1 = sender t2 -> item t1 = item t2 -> amount t1 == amount t2 ->
  getTime (date t1) = Some a -> getTime (date t2) = Some b ->
  duplicateKey t1 = duplicateKey t2 <-> (a / 300000 = b / 300000)%Z.
Proof.
  intros Hs Hi Ha Ht1 Ht2. unfold duplicateKey.
  rewrite Hs, Hi, (toString_proper _ _ Ha),
          (dateKey_valid _ _ Ht1), (dateKey_valid _ _ Ht2).
  split.
  - intros E. repeat apply app_inv_head in E. apply intToString_inj. exact E.
  - intros ->. reflexivity.
Qed.

Lemma removeDuplicates_pair t1 t2 :
  removeDuplicates [t1; t2]
  = if JSString.eqb (duplicateKey t2) (duplicateKey t1) then [t1] else [t1; t2].
Proof.
  unfold removeDuplicates. cbn [removeDuplicatesFrom setHas existsb].
  rewrite orb_false_r. destruct (JSString.eqb _ _); reflexivity.
Qed.

Lemma same_window a b :
  (a / 300000 = b / 300000 -> Z.abs (a - b) < 300000)%Z.
Proof. intros E. Z.div_mod_to_equations. lia. Qed.

Definition sameWindow : jsstring :=
  Eval vm_compute in utf16 "03/01/2024, 9:35 pm - Monir: milk 100
03/01/2024, 9:36 pm - Monir: milk 100".

Definition acrossWindows : jsstring :=
  Eval vm_compute in utf16 "03/01/2024, 9:34 pm - Monir: milk 100
03/01/2024, 9:35 pm - Monir: milk 100".

Definition sample (t : Z) : Transaction :=
  mkTransaction [] (mkDate (Some t)) (utf16 "Monir") (utf16 "milk") 100 None
                (mkDate (Some 0%Z)) (mkDate (Some 0%Z)).

(** C2: [removeDuplicates] keeps the first transaction of each key
    (sender, item, amount, number of the 5-minute window
    [floor(time / 300000)] of the date).  So of two transactions with the
    same sender, item and amount the second is dropped exactly when both dates
    fall in the same window, which implies that they are less than 5 minutes
    apart; two that are 5 minutes or more apart (2 days, say) are both kept.
    The messages of 9:35 pm and 9:36 pm of the repository's test share a
    window: one transaction, one duplicate skipped. *)
Theorem removeDuplicates_five_minute_windows :
  (forall l,
      NoDup (map duplicateKey (removeDuplicates l))
      /\ incl (removeDuplicates l) l
      /\ forall t, In t l ->
                   exists t', In t' (removeDuplicates l)
                              /\ duplicateKey t' = duplicateKey t)
  /\ (forall t1 t2 a b,
         sender t1 = sender t2 -> item t1 = item t2 -> amount t1 == amount t2 ->
         getTime (date t1) = Some a -> getTime (date t2) = Some b ->
         ((a / 300000 = b / 300000)%Z -> removeDuplicates [t1; t2] = [t1])
         /\ ((a / 300000 <> b / 300000)%Z -> removeDuplicates [t1; t2] = [t1; t2])
         /\ ((a / 300000 = b / 300000)%Z -> (Z.abs (a - b) < 300000)%Z)
         /\ ((300000 <= Z.abs (a - b))%Z -> removeDuplicates [t1; t2] = [t1; t2]))
  /\ (forall w,
         exists r w',
           parseFile sameWindow w = (Normal r, w')
           /\ List.length (resultTransactions r) = 1%nat
           /\ duplicatesSkipped (summary r) = 1%Z).
Proof.
  split; [|split].
  - intros l. unfold removeDuplicates.
    destruct (removeDuplicatesFrom_keys [] l) as (N & _ & C).
    split; [exact N|]. split; [apply removeDuplicates_incl|].
    intros t Ht. destruct (C t Ht) as [[]|H].
    apply in_map_iff in H. destruct H as (t' & E & Ht'). eauto.
  - intros t1 t2 a b Hs Hi Ha Ht1 Ht2.
    pose proof (duplicateKey_window t1 t2 a b Hs Hi Ha Ht1 Ht2) as K.
    rewrite removeDuplicates_pair.
    assert ((a / 300000 = b / 300000)%Z ->
            JSString.eqb (duplicateKey t2) (duplicateKey t1) = true) as Hsame.
    { intros E. apply jseqb_eq. symmetry. apply K. exact E. }
    assert ((a / 300000 <> b / 300000)%Z ->
            JSString.eqb (duplicateKey t2) (duplicateKey t1) = false) as Hdiff.
    { intros E. apply jseqb_neq. intros E'. apply E. apply K. symmetry. exact E'. }
    split; [|split; [|split]].
    + intros E. rewrite (Hsame E). reflexivity.
    + intros E. rewrite (Hdiff E). reflexivity.
    + apply same_window.
    + intros E. rewrite Hdiff; [reflexivity|].
      intros E'. apply same_window in E'. lia.
  - intros w. destruct (returns_parseFile sameWindow w) as (r & w' & E).
    exists r, w'. split; [exact E|].
    assert (match fst (parseFile sameWindow w) with
            | Normal r =>
                List.length (resultTransactions r) = 1%nat
                /\ duplicatesSkipped (summary r) = 1%Z
            | Throw _ => False
            end) as X by (vm_compute; split; reflexivity).
    rewrite E in X. exact X.
Qed.

Lemma removeDuplicates_five_minute_windows_witness :
  removeDuplicates [sample 1704317700000; sample 1704317760000]
  = [sample 1704317700000]
  /\ removeDuplicates [sample 1704317700000; sample 1704490500000]
     = [sample 1704317700000; sample 1704490500000].
Proof.
  destruct removeDuplicates_five_minute_windows as (_ & H & _). split.
  - apply (H (sample 1704317700000) (sample 1704317760000)
             1704317700000%Z 1704317760000%Z);
      reflexivity.
  - apply (H (sample 1704317700000) (sample 1704490500000)
             1704317700000%Z 1704490500000%Z);
      try reflexivity.
    vm_compute. discriminate.
Defined.

(** C2, the claim as it stands fails: the dates of 9:34 pm and 9:35 pm
    are one minute apart and in two windows, so both of two otherwise equal
    transactions are kept, and [parseFile] reports no duplicate. *)
Lemma removeDuplicates_keeps_one_minute_apart :
  ~ (forall t1 t2 a b,
        sender t1 = sender t2 -> item t1 = item t2 -> amount t1 == amount t2 ->
        getTime (date t1) = Some a -> getTime (date t2) = Some b ->
        (Z.abs (a - b) < 300000)%Z ->
        List.length (removeDuplicates [t1; t2]) = 1%nat)
  /\ (forall w,
         exists r w',
           parseFile acrossWindows w = (Normal r, w')
           /\ map (fun t => (sender t, item t, amount t, getTime (date t)))
                  (resultTransactions r)
              = [(utf16 "Monir", utf16 "milk", 100, Some 1704317640000%Z);
                 (utf16 "Monir", utf16 "milk", 100, Some 1704317700000%Z)]
           /\ duplicatesSkipped (summary r) = 0%Z).
Proof.
  split.
  - intros H.
    specialize (H (sample 1704317640000) (sample 1704317700000)
                  1704317640000%Z 1704317700000%Z
                  eq_refl eq_refl (Qeq_refl _) eq_refl eq_refl eq_refl).
    vm_compute in H. discriminate.
  - intros w. destruct (returns_parseFile acrossWindows w) as (r & w' & E).
    exists r, w'. split; [exact E|].
    assert (match fst (parseFile acrossWindows w) with
            | Normal r =>
                map (fun t => (sender t, item t, amount t, getTime (date t)))
                    (resultTransactions r)
                = [(utf16 "Monir", utf16 "milk", 100, Some 1704317640000%Z);
                   (utf16 "Monir", utf16 "milk", 100, Some 1704317700000%Z)]
                /\ duplicatesSkipped (summary r) = 0%Z
            | Throw _ => False
            end) as X by (vm_compute; split; reflexivity).
    rewrite E in X. exact X.
Qed.

(** *** Grouping loses and adds no transaction *)

Definition groupsOf (m : StringMap (list Transaction)) (keys : list jsstring)
  : list Transaction :=
  List.concat (map (fun k => groupOf k m) keys).

(** A transaction without its item name. *)
Definition unnamed (t : Transaction) : Transaction := setItem t [].

Lemma unnamed_setItem t name : unnamed (setItem t name) = unnamed t.
Proof. reflexivity. Qed.

Lemma mapGet_fresh {V : Type} key (m : StringMap V) :
  ~ In key (map fst m) -> mapGet key m = None.
Proof.
  unfold mapGet. intros H. destruct (find _ m) as [[k v]|] eqn:E; [|reflexivity].
  apply find_some in E. destruct E as [Hin Hk]. cbn in Hk. apply jseqb_eq in Hk.
  subst. exfalso. apply H. apply in_map_iff. exists (key, v). auto.
Qed.

Lemma mapSet_fresh {V : Type} key (v : V) (m : StringMap V) :
  ~ In key (map fst m) -> mapSet key v m = m ++ [(key, v)].
Proof.
  induction m as [|[k v0] m IH]; intros H; [reflexivity|].
  cbn [mapSet]. destruct (JSString.eqb k key) eqn:E.
  - apply jseqb_eq in E. subst. exfalso. apply H. left. reflexivity.
  - cbn [app]. f_equal. apply IH. intros Hin. apply H. right. assumption.
Qed.

Lemma mapSet_keys {V : Type} key (v : V) (m : StringMap V) :
  map fst (mapSet key v m)
  = if existsb (JSString.eqb key) (map fst m) then map fst m
    else map fst m ++ [key].
Proof.
  induction m as [|[k v0] m IH]; [reflexivity|].
  cbn [mapSet map fst existsb].
  destruct (JSString.eqb k key) eqn:E.
  - apply jseqb_eq in E. subst. rewrite jseqb_refl. reflexivity.
  - assert (JSString.eqb key k = false) as E'.
    { apply jseqb_neq. apply jseqb_neq in E. congruence. }
    rewrite E'. cbn [orb map fst]. rewrite IH.
    destruct (existsb _ _); reflexivity.
Qed.

Lemma existsb_eqb_In key (l : list jsstring) :
  existsb (JSString.eqb key) l = true <-> In key l.
Proof.
  rewrite existsb_exists. split.
  - intros (x & Hx & E). apply jseqb_eq in E. subst. assumption.
  - intros H. exists key. split; [assumption|apply jseqb_refl].
Qed.

Lemma mapSet_NoDup {V : Type} key (v : V) (m : StringMap V) :
  NoDup (map fst m) -> NoDup (map fst (mapSet key v m)).
Proof.
  intros H. rewrite mapSet_keys.
  destruct (existsb _ _) eqn:E; [assumption|].
  apply NoDup_app; [assumption|repeat constructor; intros []|].
  intros x Hx [<-|[]].
  apply existsb_eqb_In in Hx. congruence.
Qed.

(** Adding a transaction to its group adds it to the transactions of the
    map. *)
Lemma mapSet_group_perm key t (m : StringMap (list Transaction)) :
  Permutation (List.concat (map snd (mapSet key (groupOf key m ++ [t]) m)))
              (t :: List.concat (map snd m)).
Proof.
  induction m as [|[k g] m IH].
  - cbn. constructor. constructor.
  - unfold groupOf, mapGet in *. cbn [mapSet find fst snd].
    destruct (JSString.eqb k key) eqn:E.
    + cbn [map snd List.concat]. rewrite <- app_assoc. cbn [app].
      symmetry. apply Permutation_middle.
    + cbn [map snd List.concat].
      eapply Permutation_trans; [apply Permutation_app_head; exact IH|].
      symmetry. apply Permutation_middle.
Qed.

Lemma groupOf_unique key g (m : StringMap (list Transaction)) :
  NoDup (map fst m) -> In (key, g) m -> groupOf key m = g.
Proof.
  unfold groupOf, mapGet. induction m as [|[k g0] m IH]; intros Hn Hin; [destruct Hin|].
  cbn [find fst]. cbn [map fst] in Hn. inversion Hn as [|? ? Hk Hn']; subst.
  destruct Hin as [E|Hin].
  - inversion E; subst. rewrite jseqb_refl. reflexivity.
  - destruct (JSString.eqb k key) eqn:E; [|apply IH; assumption].
    apply jseqb_eq in E. subst. exfalso. apply Hk.
    apply in_map_iff. exists (key, g). auto.
Qed.

Lemma groupsOf_all (m : StringMap (list Transaction)) :
  NoDup (map fst m) -> groupsOf m (map fst m) = List.concat (map snd m).
Proof.
  intros Hn. unfold groupsOf. f_equal. rewrite map_map.
  apply map_ext_in. intros [k g] Hin. cbn [fst snd].
  apply groupOf_unique; assumption.
Qed.

Lemma groupsOf_app m k1 k2 : groupsOf m (k1 ++ k2) = groupsOf m k1 ++ groupsOf m k2.
Proof. unfold groupsOf. rewrite map_app, concat_app. reflexivity. Qed.

Lemma groupsOf_perm m k1 k2 :
  Permutation k1 k2 -> Permutation (groupsOf m k1) (groupsOf m k2).
Proof.
  intros H. induction H.
  - constructor.
  - unfold groupsOf. cbn [map List.concat]. apply Permutation_app_head. exact IHPermutation.
  - unfold groupsOf. cbn [map List.concat]. rewrite !app_assoc.
    apply Permutation_app_tail. apply Permutation_app_comm.
  - eapply Permutation_trans; eassumption.
Qed.

(** The three loops of [contextBasedCategorizing], named. *)
Definition addToGroup (exactGroups : StringMap (list Transaction))
                      (transaction : Transaction) : StringMap (list Transaction) :=
  let normalizedItem := getNormalizedItemKey (item transaction) in
  mapSet normalizedItem (groupOf normalizedItem exactGroups ++ [transaction])
         exactGroups.

Definition findSimilar (exactGroups : StringMap (list Transaction)) (key1 : jsstring)
                       (st2 : list (list Transaction) * list jsstring)
                       (key2 : jsstring) : list (list Transaction) * list jsstring :=
  let '(similarGroups, processed) := st2 in
  if negb (JSString.eqb key1 key2) && negb (setHas key2 processed) then
    match calculateSimilarity key1 key2 with
    | Some similarity =>
        if gtb similarity (2 # 10) then
          (similarGroups ++ [groupOf key2 exactGroups], processed ++ [key2])
        else st2
    | None => st2
    end
  else st2.

Definition mergeGroup (exactGroups : StringMap (list Transaction))
                      (st : StringMap (list Transaction) * list jsstring)
                      (key1 : jsstring) : StringMap (list Transaction) * list jsstring :=
  let '(mergedGroups, processed) := st in
  if setHas key1 processed then st
  else
    let '(similarGroups, processed) :=
      fold_left (findSimilar exactGroups key1) (map fst exactGroups)
                ([groupOf key1 exactGroups], processed) in
    let allTransactions := List.concat similarGroups in
    let bestItemName := chooseBestItemName (map item allTransactions) in
    (mapSet key1 (map (fun t => setItem t bestItemName) allTransactions) mergedGroups,
     processed ++ [key1]).

Lemma contextBasedCategorizing_loops l :
  contextBasedCategorizing l
  = let exactGroups := fold_left addToGroup l [] in
    let '(mergedGroups, _) :=
      fold_left (mergeGroup exactGroups) (map fst exactGroups) ([], []) in
    List.concat (map snd mergedGroups).
Proof. reflexivity. Qed.

Lemma addToGroup_spec l m0 :
  NoDup (map fst m0) ->
  NoDup (map fst (fold_left addToGroup l m0))
  /\ Permutation (List.concat (map snd (fold_left addToGroup l m0)))
                 (List.concat (map snd m0) ++ l).
Proof.
  revert m0. induction l as [|t l IH]; intros m0 Hn; cbn [fold_left].
  - rewrite app_nil_r. split; [assumption|apply Permutation_refl].
  - assert (NoDup (map fst (addToGroup m0 t))) as Hn'
        by (apply mapSet_NoDup; assumption).
    destruct (IH _ Hn') as [N P]. split; [exact N|].
    eapply Permutation_trans; [exact P|].
    eapply Permutation_trans;
      [apply Permutation_app_tail; apply mapSet_group_perm|].
    cbn [app]. apply Permutation_middle.
Qed.

Lemma setHas_false key l : setHas key l = false <-> ~ In key l.
Proof.
  unfold setHas. split.
  - intros H Hin. apply existsb_eqb_In in Hin. congruence.
  - intros H. destruct (existsb _ l) eqn:E; [|reflexivity].
    apply existsb_eqb_In in E. contradiction.
Qed.

Lemma findSimilar_spec m key1 keys sg pr :
  NoDup pr ->
  exists added,
    fold_left (findSimilar m key1) keys (sg, pr)
    = (sg ++ map (fun k => groupOf k m) added, pr ++ added)
    /\ NoDup (pr ++ added) /\ incl added keys /\ ~ In key1 added.
Proof.
  revert sg pr. induction keys as [|key2 keys IH]; intros sg pr Hn; cbn [fold_left].
  - exists []. cbn [map]. rewrite !app_nil_r. repeat split; auto.
    intros x [].
  - assert (forall added,
               fold_left (findSimilar m key1) keys (sg, pr)
               = (sg ++ map (fun k => groupOf k m) added, pr ++ added)
               /\ NoDup (pr ++ added) /\ incl added keys /\ ~ In key1 added ->
               fold_left (findSimilar m key1) keys (sg, pr)
               = (sg ++ map (fun k => groupOf k m) added, pr ++ added)
               /\ NoDup (pr ++ added) /\ incl added (key2 :: keys)
               /\ ~ In key1 added) as Hskip.
    { intros added (E & N & I & K). repeat split; auto. apply incl_tl. assumption. }
    unfold findSimilar at 2.
    destruct (negb (JSString.eqb key1 key2) && negb (setHas key2 pr)) eqn:C;
      [|destruct (IH sg pr Hn) as (added & H); exists added; apply Hskip; exact H].
    destruct (calculateSimilarity key1 key2) as [sim|];
      [|destruct (IH sg pr Hn) as (added & H); exists added; apply Hskip; exact H].
    destruct (gtb sim (2 # 10));
      [|destruct (IH sg pr Hn) as (added & H); exists added; apply Hskip; exact H].
    apply andb_prop in C. destruct C as [C1 C2].
    apply negb_true_iff in C1, C2. apply jseqb_neq in C1. apply setHas_false in C2.
    assert (NoDup (pr ++ [key2])) as Hn'.
    { apply NoDup_app; [assumption|repeat constructor; intros []|].
      intros x Hx [<-|[]]. contradiction. }
    destruct (IH (sg ++ [groupOf key2 m]) (pr ++ [key2]) Hn')
      as (added & E & N & I & K).
    exists (key2 :: added). cbn [map]. rewrite E, <- !app_assoc. cbn [app].
    repeat split; auto.
    + rewrite <- app_assoc in N. exact N.
    + intros x [<-|Hx]; [left; reflexivity|right; apply I; assumption].
    + intros [H|H]; [congruence|contradiction].
Qed.

(** What the second loop keeps true of the merged groups and of the keys
    worked off. *)
Definition merging (m : StringMap (list Transaction))
                   (st : StringMap (list Transaction) * list jsstring) : Prop :=
  NoDup (snd st)
  /\ incl (map fst (fst st)) (snd st)
  /\ incl (snd st) (map fst m)
  /\ Permutation (map unnamed (List.concat (map snd (fst st))))
                 (map unnamed (groupsOf m (snd st))).

Lemma mergeGroup_spec m keys st :
  incl keys (map fst m) -> merging m st ->
  merging m (fold_left (mergeGroup m) keys st)
  /\ incl (snd st) (snd (fold_left (mergeGroup m) keys st))
  /\ incl keys (snd (fold_left (mergeGroup m) keys st)).
Proof.
  revert st. induction keys as [|key1 keys IH]; intros [merged pr] Hk Hinv;
    cbn [fold_left].
  - repeat split; try assumption; try apply Hinv; [apply incl_refl|intros x []].
  - assert (incl keys (map fst m)) as Hk'
        by (intros x Hx; apply Hk; right; assumption).
    unfold mergeGroup at 2 4 6.
    destruct (setHas key1 pr) eqn:Hp.
    + destruct (IH (merged, pr) Hk' Hinv) as (I1 & I2 & I3).
      repeat split; try assumption; try apply I1.
      intros x [<-|Hx]; [|apply I3; assumption].
      apply I2. cbn [snd]. apply existsb_eqb_In. exact Hp.
    + apply setHas_false in Hp.
      destruct Hinv as (Hn & Hkeys & Hsub & Hperm). cbn [fst snd] in *.
      destruct (findSimilar_spec m key1 (map fst m) [groupOf key1 m] pr Hn)
        as (added & E & N & I & K).
      rewrite E. cbn [app].
      set (sg := groupOf key1 m :: map (fun k => groupOf k m) added).
      set (name := chooseBestItemName (map item (List.concat sg))).
      assert (~ In key1 (map fst merged)) as Hfresh
          by (intros H; apply Hp; apply Hkeys; assumption).
      rewrite (mapSet_fresh _ _ _ Hfresh).
      assert (merging m (merged ++ [(key1, map (fun t => setItem t name)
                                                (List.concat sg))],
                         (pr ++ added) ++ [key1])) as Hinv'.
      { unfold merging. cbn [fst snd]. split; [|split; [|split]].
        - apply NoDup_app; [assumption|repeat constructor; intros []|].
          intros x Hx [<-|[]]. apply in_app_or in Hx. destruct Hx; contradiction.
        - rewrite map_app. cbn [map fst]. intros x Hx.
          apply in_app_or in Hx. destruct Hx as [Hx|[<-|[]]].
          + apply in_or_app. left. apply in_or_app. left. apply Hkeys. assumption.
          + apply in_or_app. right. left. reflexivity.
        - intros x Hx. apply in_app_or in Hx. destruct Hx as [Hx|[<-|[]]].
          + apply in_app_or in Hx. destruct Hx as [Hx|Hx];
              [apply Hsub; assumption|apply I; assumption].
          + apply Hk. left. reflexivity.
        - rewrite map_app, concat_app. cbn [map snd List.concat].
          rewrite app_nil_r, map_app, map_map.
          change (fun x : Transaction => unnamed (setItem x name)) with unnamed.
          rewrite !groupsOf_app, !map_app.
          unfold sg. cbn [List.concat]. rewrite map_app.
          replace (groupsOf m [key1]) with (groupOf key1 m)
            by (unfold groupsOf; cbn; rewrite app_nil_r; reflexivity).
          fold (groupsOf m added).
          rewrite <- app_assoc. apply Permutation_app; [exact Hperm|].
          apply Permutation_app_comm. }
      destruct (IH _ Hk' Hinv') as (I1 & I2 & I3). cbn [snd] in I2.
      repeat split; try apply I1.
      * intros x Hx. apply I2. apply in_or_app. left. apply in_or_app. left.
        assumption.
      * intros x [<-|Hx]; [|apply I3; assumption].
        apply I2. apply in_or_app. right. left. reflexivity.
Qed.

(** Lemma: [contextBasedCategorizing] returns its transactions, in some
    order, each with a possibly different item name. *)
Lemma contextBasedCategorizing_perm l :
  Permutation (map unnamed (contextBasedCategorizing l)) (map unnamed l).
Proof.
  rewrite contextBasedCategorizing_loops. cbv zeta.
  set (m := fold_left addToGroup l []).
  destruct (addToGroup_spec l [] (NoDup_nil _)) as [Hn Hp]. fold m in Hn, Hp.
  cbn [map List.concat app] in Hp.
  assert (merging m ([], [])) as H0.
  { unfold merging. cbn. repeat split; try constructor; intros x []. }
  destruct (mergeGroup_spec m (map fst m) ([], []) (incl_refl _) H0)
    as ((N & _ & Hsub & P) & _ & Hall).
  destruct (fold_left (mergeGroup m) (map fst m) ([], [])) as [merged processed].
  cbn [fst snd] in *.
  eapply Permutation_trans; [exact P|]. apply Permutation_map.
  eapply Permutation_trans; [|exact Hp].
  rewrite <- (groupsOf_all m Hn). apply groupsOf_perm.
  apply NoDup_Permutation; try assumption.
  intros x. split; [apply Hsub|apply Hall].
Qed.

(** *** What a line adds *)


Lemma StronglySorted_snoc (l : list Z) x :
  StronglySorted Z.lt l -> Forall (fun y => (y < x)%Z) l ->
  StronglySorted Z.lt (l ++ [x]).
Proof.
  induction l as [|y l IH]; intros Hs Hall; cbn [app].
  - repeat constructor.
  - inversion Hs; subst. inversion Hall; subst.
    constructor; [apply IH; assumption|].
    apply Forall_app. split; [assumption|repeat constructor; assumption].
Qed.






(** *** Two runs of a computation

    [related R c1 c2]: whatever the clock and the random source give,
    the two computations complete alike: both return, with results related
    by [R], or both throw the same error. *)

Definition alike {A : Type} (R : A -> A -> Prop) (c1 c2 : Completion A) : Prop :=
  match c1, c2 with
  | Normal a1, Normal a2 => R a1 a2
  | Throw e1, Throw e2 => e1 = e2
  | _, _ => False
  end.

Definition related {A : Type} (R : A -> A -> Prop) (c1 c2 : M A) : Prop :=
  forall w1 w2, alike R (fst (c1 w1)) (fst (c2 w2)).

Definition any {A : Type} (_ _ : A) : Prop := True.

Lemma related_ret {A : Type} (R : A -> A -> Prop) a1 a2 :
  R a1 a2 -> related R (ret a1) (ret a2).
Proof. intros H w1 w2. exact H. Qed.

Lemma related_throw {A : Type} (R : A -> A -> Prop) e :
  related R (throw e) (throw e).
Proof. intros w1 w2. reflexivity. Qed.

Lemma related_bind {A B : Type} (RA : A -> A -> Prop) (RB : B -> B -> Prop)
      (c1 c2 : M A) (f1 f2 : A -> M B) :
  related RA c1 c2 ->
  (forall a1 a2, RA a1 a2 -> related RB (f1 a1) (f2 a2)) ->
  related RB (bind c1 f1) (bind c2 f2).
Proof.
  intros Hc Hf w1 w2. specialize (Hc w1 w2). unfold bind.
  destruct (c1 w1) as [[a1|e1] w1'], (c2 w2) as [[a2|e2] w2']; cbn in Hc |- *;
    try contradiction; [|assumption].
  apply Hf. assumption.
Qed.

Lemma related_tryCatch {A : Type} (R : A -> A -> Prop)
      (c1 c2 : M A) (h1 h2 : Error -> M A) :
  related R c1 c2 ->
  (forall e, related R (h1 e) (h2 e)) ->
  related R (tryCatch c1 h1) (tryCatch c2 h2).
Proof.
  intros Hc Hh w1 w2. specialize (Hc w1 w2). unfold tryCatch.
  destruct (c1 w1) as [[a1|e1] w1'], (c2 w2) as [[a2|e2] w2']; cbn in Hc |- *;
    try contradiction; [assumption|].
  subst e2. apply Hh.
Qed.

Lemma related_lift {A : Type} (c : Completion A) : related eq (lift c) (lift c).
Proof. intros w1 w2. cbn. destruct c; reflexivity. Qed.

Lemma related_forEachM {A S : Type} (R : S -> S -> Prop)
      (body1 body2 : S -> A -> M S) xs :
  (forall s1 s2 x, R s1 s2 -> related R (body1 s1 x) (body2 s2 x)) ->
  forall s1 s2, R s1 s2 -> related R (forEachM body1 xs s1) (forEachM body2 xs s2).
Proof.
  intros Hb. induction xs as [|x xs IH]; intros s1 s2 Hs; cbn [forEachM].
  - apply related_ret. assumption.
  - eapply related_bind; [apply Hb; assumption|]. intros a1 a2. apply IH.
Qed.

Lemma related_weaken {A : Type} (R R' : A -> A -> Prop) c1 c2 :
  (forall a1 a2, R a1 a2 -> R' a1 a2) -> related R c1 c2 -> related R' c1 c2.
Proof.
  intros H Hc w1 w2. specialize (Hc w1 w2).
  destruct (fst (c1 w1)), (fst (c2 w2)); cbn in *; auto.
Qed.

Lemma related_Date_now : related any Date_now Date_now.
Proof. intros w1 w2. exact I. Qed.

Lemma related_Math_random_base36 : related any Math_random_base36 Math_random_base36.
Proof. intros w1 w2. exact I. Qed.

Lemma related_newDateNow : related any newDateNow newDateNow.
Proof. intros w1 w2. exact I. Qed.

Lemma related_performance_now : related any performance_now performance_now.
Proof. intros w1 w2. exact I. Qed.

Lemma related_generateId : related any generateId generateId.
Proof.
  unfold generateId.
  eapply related_bind; [apply related_Date_now|]. intros n1 n2 _.
  eapply related_bind; [apply related_Math_random_base36|]. intros r1 r2 _.
  apply related_ret. exact I.
Qed.

(** *** What two runs share of a transaction *)

Definition erase (t : Transaction) : Transaction :=
  mkTransaction [] (date t) (sender t) (item t) (amount t) (originalMessage t)
                InvalidDate InvalidDate.

Definition sameTransactions (l1 l2 : list Transaction) : Prop :=
  map erase l1 = map erase l2.

Lemma related_newTransaction date sender item amount text :
  related (fun t1 t2 => erase t1 = erase t2)
          (newTransaction date sender item amount text)
          (newTransaction date sender item amount text).
Proof.
  unfold newTransaction.
  eapply related_bind; [apply related_generateId|]. intros i1 i2 _.
  eapply related_bind; [apply related_newDateNow|]. intros c1 c2 _.
  eapply related_bind; [apply related_newDateNow|]. intros u1 u2 _.
  apply related_ret. reflexivity.
Qed.

Lemma related_newSuspicious date sender text reason items :
  related any (newSuspicious date sender text reason items)
              (newSuspicious date sender text reason items).
Proof.
  unfold newSuspicious.
  eapply related_bind; [apply related_generateId|]. intros i1 i2 _.
  apply related_ret. exact I.
Qed.

Lemma sameTransactions_app l1 l2 k1 k2 :
  sameTransactions l1 l2 -> sameTransactions k1 k2 ->
  sameTransactions (l1 ++ k1) (l2 ++ k2).
Proof. unfold sameTransactions. intros H1 H2. rewrite !map_app. congruence. Qed.

Lemma related_validateAndExtractTransactions text sender date lineNumber :
  related (fun r1 r2 =>
             sameTransactions (extractedTransactions r1) (extractedTransactions r2))
          (validateAndExtractTransactions text sender date lineNumber)
          (validateAndExtractTransactions text sender date lineNumber).
Proof.
  unfold validateAndExtractTransactions.
  destruct (exec kenaPattern (convertBengaliNumerals text)) as [km|].
  - eapply related_bind; [apply related_newTransaction|]. intros t1 t2 Ht.
    apply related_ret. unfold sameTransactions. cbn. congruence.
  - eapply related_bind; [apply related_lift|]. intros pairs ? <-.
    eapply related_bind; [apply related_lift|]. intros items ? <-.
    eapply (related_bind any).
    { destruct (isEmpty pairs && isEmpty items); [|apply related_ret; exact I].
      destruct (exec itemOnlyPattern _); [|apply related_ret; exact I].
      destruct (isValidItem _); [|apply related_ret; exact I].
      eapply related_bind; [apply related_newSuspicious|]. intros.
      apply related_ret. exact I. }
    intros s1 s1' _.
    eapply (related_bind any).
    { destruct (negb (isEmpty items)); [|apply related_ret; exact I].
      eapply related_bind; [apply related_newSuspicious|]. intros.
      apply related_ret. exact I. }
    intros s2 s2' _.
    eapply (related_bind sameTransactions).
    { apply related_forEachM; [|reflexivity].
      intros l1 l2 pair Hl.
      destruct (gtb (snd pair) 0); [|apply related_ret; assumption].
      destruct (fst pair) as [item|]; [|apply related_throw].
      destruct (isValidItem item); [|apply related_ret; assumption].
      eapply related_bind; [apply related_newTransaction|]. intros t1 t2 Ht.
      apply related_ret. apply sameTransactions_app; [assumption|].
      unfold sameTransactions. cbn. congruence. }
    intros l1 l2 Hl. apply related_ret. exact Hl.
Qed.

(** The loop variables of two runs: the same but for what [erase] blanks;
    and lines are extracted only under a date read from the text. *)
Definition sameContext (c1 c2 : Context) : Prop :=
  sameTransactions (transactions c1) (transactions c2)
  /\ currentDate c1 = currentDate c2
  /\ currentSender c1 = currentSender c2
  /\ errors c1 = errors c2
  /\ (toLowerCase (currentSender c1) = monir -> currentDate c1 <> None).

Lemma related_extractLine text sender date lineNumber tx1 tx2 d errs i line :
  sameTransactions tx1 tx2 ->
  d <> None ->
  related sameContext
    (tryCatch
       (result <- validateAndExtractTransactions text sender date lineNumber ;;
        ret (mkContext (tx1 ++ extractedTransactions result) d sender errs))
       (catchLine i line (mkContext tx1 d sender errs)))
    (tryCatch
       (result <- validateAndExtractTransactions text sender date lineNumber ;;
        ret (mkContext (tx2 ++ extractedTransactions result) d sender errs))
       (catchLine i line (mkContext tx2 d sender errs))).
Proof.
  intros T D. apply related_tryCatch.
  - eapply related_bind; [apply related_validateAndExtractTransactions|].
    intros r1 r2 Hr. apply related_ret. unfold sameContext. cbn.
    repeat split; try reflexivity; [|intros _; exact D].
    apply sameTransactions_app; assumption.
  - intros e. unfold catchLine. apply related_ret. unfold sameContext. cbn.
    repeat split; try reflexivity; [assumption|intros _; exact D].
Qed.

Lemma related_processLine c1 c2 entry :
  sameContext c1 c2 ->
  related sameContext (processLine c1 entry) (processLine c2 entry).
Proof.
  destruct c1 as [tx1 d1 s1 e1], c2 as [tx2 d2 s2 e2], entry as [i raw].
  unfold sameContext. cbn [transactions currentDate currentSender errors].
  intros (T & <- & <- & <- & Inv).
  unfold processLine. cbn [transactions currentDate currentSender errors].
  destruct (isEmpty (trim raw)).
  { apply related_ret. unfold sameContext. cbn. auto. }
  destruct (exec messagePattern (trim raw)) as [m|] eqn:Em.
  - destruct (header_captures _ _ Em) as [Hd Ht].
    destruct (parseDate_header _ _ (capture 3 (groups m)) Hd Ht) as (d & t & Hp & _).
    rewrite Hp.
    destruct (JSString.eqb _ monir) eqn:Hm.
    + apply related_extractLine; [assumption|discriminate].
    + apply related_ret. unfold sameContext. cbn.
      repeat split; try reflexivity; [assumption|discriminate].
  - destruct (exec dateOnlyPattern (trim raw)) as [dm|].
    + destruct (parseDateFromComponents _ _ _).
      * apply related_ret. unfold sameContext. cbn.
        repeat split; try reflexivity; [assumption|discriminate].
      * apply related_ret. unfold sameContext. cbn. auto.
    + destruct d1 as [d|].
      * eapply (related_bind eq); [apply related_ret; reflexivity|].
        intros ? useDate <-.
        destruct (JSString.eqb _ monir) eqn:Hm.
        -- assert ((if isEmpty s1 then utf16 "unknown" else s1) = s1) as Hu.
           { destruct (isEmpty s1); [|reflexivity]. vm_compute in Hm. discriminate. }
           rewrite Hu.
           apply related_extractLine; [assumption|discriminate].
        -- apply related_ret. unfold sameContext. cbn. auto.
      * eapply (related_bind any); [apply related_newDateNow|].
        intros u1 u2 _.
        destruct (JSString.eqb _ monir) eqn:Hm.
        -- exfalso. destruct (isEmpty s1) eqn:Hs.
           ++ vm_compute in Hm. discriminate.
           ++ apply jseqb_eq in Hm. apply Inv in Hm. congruence.
        -- apply related_ret. unfold sameContext. cbn. auto.
Qed.

Lemma related_enhancedContextBasedParsing lines errs :
  related (fun p1 p2 => sameTransactions (fst p1) (fst p2) /\ snd p1 = snd p2)
          (enhancedContextBasedParsing lines errs)
          (enhancedContextBasedParsing lines errs).
Proof.
  unfold enhancedContextBasedParsing.
  eapply (related_bind sameContext).
  - apply related_forEachM; [intros s1 s2 x; apply related_processLine|].
    unfold sameContext. cbn. repeat split; try reflexivity.
    vm_compute. discriminate.
  - intros c1 c2 (T & _ & _ & E & _). apply related_ret. cbn. auto.
Qed.

(** *** Grouping and the removal of duplicates read only what [erase] keeps *)

Definition eraseGroups (m : StringMap (list Transaction))
  : StringMap (list Transaction) :=
  map (fun e => (fst e, map erase (snd e))) m.

Lemma eraseGroups_keys m : map fst (eraseGroups m) = map fst m.
Proof. unfold eraseGroups. rewrite map_map. reflexivity. Qed.

Lemma mapGet_eraseGroups key m :
  mapGet key (eraseGroups m) = option_map (map erase) (mapGet key m).
Proof.
  unfold mapGet. induction m as [|[k g] m IH]; [reflexivity|].
  cbn [eraseGroups map find fst snd].
  destruct (JSString.eqb k key); [reflexivity|exact IH].
Qed.

Lemma groupOf_eraseGroups key m :
  groupOf key (eraseGroups m) = map erase (groupOf key m).
Proof.
  unfold groupOf. rewrite mapGet_eraseGroups.
  destruct (mapGet key m); reflexivity.
Qed.

Lemma mapSet_eraseGroups key g m :
  mapSet key (map erase g) (eraseGroups m) = eraseGroups (mapSet key g m).
Proof.
  induction m as [|[k g0] m IH]; [reflexivity|].
  cbn [eraseGroups map mapSet fst snd].
  destruct (JSString.eqb k key); [reflexivity|].
  cbn [map fst snd]. f_equal. exact IH.
Qed.

Lemma item_erase t : item (erase t) = item t.
Proof. reflexivity. Qed.

Lemma map_item_erase l : map item (map erase l) = map item l.
Proof. rewrite map_map. reflexivity. Qed.

Lemma setItem_erase t name : setItem (erase t) name = erase (setItem t name).
Proof. reflexivity. Qed.

Lemma map_setItem_erase name l :
  map (fun t => setItem t name) (map erase l)
  = map erase (map (fun t => setItem t name) l).
Proof. rewrite !map_map. reflexivity. Qed.

Lemma duplicateKey_erase t : duplicateKey (erase t) = duplicateKey t.
Proof. reflexivity. Qed.

Lemma removeDuplicatesFrom_erase seen l :
  removeDuplicatesFrom seen (map erase l) = map erase (removeDuplicatesFrom seen l).
Proof.
  revert seen. induction l as [|t l IH]; intros seen; [reflexivity|].
  cbn [map removeDuplicatesFrom]. rewrite duplicateKey_erase.
  destruct (setHas (duplicateKey t) seen); [apply IH|].
  cbn [map]. f_equal. apply IH.
Qed.

Lemma removeDuplicates_erase l :
  removeDuplicates (map erase l) = map erase (removeDuplicates l).
Proof. apply removeDuplicatesFrom_erase. Qed.

Lemma contextBasedCategorizing_erase l :
  contextBasedCategorizing (map erase l) = map erase (contextBasedCategorizing l).
Proof.
  unfold contextBasedCategorizing.
  (* Step 1 *)
  match goal with
  | |- context [fold_left ?f (map erase l) []] =>
      assert (forall m0, fold_left f (map erase l) (eraseGroups m0)
                         = eraseGroups (fold_left f l m0)) as S1
  end.
  { induction l as [|t l IH]; intros m0; [reflexivity|].
    cbn [map fold_left]. rewrite item_erase, groupOf_eraseGroups.
    change [erase t] with (map erase [t]).
    rewrite <- map_app, mapSet_eraseGroups. apply IH. }
  specialize (S1 []). cbn [eraseGroups map] in S1. rewrite S1. clear S1.
  match goal with
  | |- context [eraseGroups ?m] => generalize m
  end.
  intros exactGroups. rewrite eraseGroups_keys.
  set (inner := map fst exactGroups).
  (* Step 2 *)
  match goal with
  | |- (let '(_, _) := fold_left ?f1 ?ks _ in _)
       = map erase (let '(_, _) := fold_left ?f2 _ _ in _) =>
      assert (forall keys st,
                 fold_left f1 keys (eraseGroups (fst st), snd st)
                 = (eraseGroups (fst (fold_left f2 keys st)),
                    snd (fold_left f2 keys st))) as S2
  end.
  { induction keys as [|key1 keys IH]; intros [merged processed];
      [reflexivity|].
    cbn [fold_left fst snd].
    destruct (setHas key1 processed); [apply (IH (merged, processed))|].
    match goal with
    | |- context [fold_left ?g1 inner ([groupOf key1 (eraseGroups exactGroups)], processed)] =>
        match goal with
        | |- context [fold_left ?g2 inner ([groupOf key1 exactGroups], processed)] =>
            assert (forall ks st2,
                       fold_left g1 ks (map (map erase) (fst st2), snd st2)
                       = (map (map erase) (fst (fold_left g2 ks st2)),
                          snd (fold_left g2 ks st2))) as S3
        end
    end.
    { induction ks as [|key2 ks IH3]; intros [similar processed2];
        [reflexivity|].
      cbn [fold_left fst snd].
      destruct (negb (JSString.eqb key1 key2) && negb (setHas key2 processed2));
        [|apply (IH3 (similar, processed2))].
      destruct (calculateSimilarity key1 key2) as [similarity|];
        [|apply (IH3 (similar, processed2))].
      destruct (gtb similarity (2 # 10)); [|apply (IH3 (similar, processed2))].
      rewrite groupOf_eraseGroups.
      change [map erase (groupOf key2 exactGroups)]
        with (map (map erase) [groupOf key2 exactGroups]).
      rewrite <- map_app.
      apply (IH3 (similar ++ [groupOf key2 exactGroups], processed2 ++ [key2])). }
    rewrite groupOf_eraseGroups.
    pose proof (S3 inner ([groupOf key1 exactGroups], processed)) as S3'.
    cbn [fst snd map] in S3'. cbn [map]. rewrite S3'. clear S3 S3'.
    destruct (fold_left _ inner ([groupOf key1 exactGroups], processed))
      as [similar processed'].
    cbn [fst snd].
    rewrite <- concat_map, map_item_erase.
    rewrite map_setItem_erase.
    rewrite mapSet_eraseGroups.
    match goal with
    | |- fold_left _ keys (eraseGroups ?m, ?p) = _ => apply (IH (m, p))
    end. }
  specialize (S2 inner ([], [])).
  cbn [fst snd eraseGroups map] in S2.
  unfold StringMap in *. rewrite S2. clear S2.
  destruct (fold_left _ inner ([], [])) as [merged processed].
  cbn [fst snd].
  rewrite concat_map. f_equal. unfold eraseGroups. rewrite !map_map. reflexivity.
Qed.

(** What two runs on the same text agree on: everything but the ids, the
    bookkeeping dates and the processing time. *)
Definition sameResult (r1 r2 : ParseResult) : Prop :=
  sameTransactions (resultTransactions r1) (resultTransactions r2)
  /\ resultErrors r1 = resultErrors r2
  /\ totalLines (summary r1) = totalLines (summary r2)
  /\ successfulTransactions (summary r1) = successfulTransactions (summary r2)
  /\ failedLines (summary r1) = failedLines (summary r2)
  /\ duplicatesSkipped (summary r1) = duplicatesSkipped (summary r2)
  /\ suspiciousTransactions r1 = suspiciousTransactions r2.

Lemma sameTransactions_length l1 l2 :
  sameTransactions l1 l2 -> List.length l1 = List.length l2.
Proof.
  unfold sameTransactions. intros H.
  rewrite <- (length_map erase l1), <- (length_map erase l2), H. reflexivity.
Qed.

Lemma sameTransactions_contextBasedCategorizing l1 l2 :
  sameTransactions l1 l2 ->
  sameTransactions (contextBasedCategorizing l1) (contextBasedCategorizing l2).
Proof.
  unfold sameTransactions. intros H.
  rewrite <- !contextBasedCategorizing_erase, H. reflexivity.
Qed.

Lemma sameTransactions_removeDuplicates l1 l2 :
  sameTransactions l1 l2 ->
  sameTransactions (removeDuplicates l1) (removeDuplicates l2).
Proof.
  unfold sameTransactions. intros H.
  rewrite <- !removeDuplicates_erase, H. reflexivity.
Qed.

Lemma related_parseFile content :
  related sameResult (parseFile content) (parseFile content).
Proof.
  unfold parseFile.
  eapply related_bind; [apply related_performance_now|]. intros s1 s2 _.
  eapply related_bind; [apply related_enhancedContextBasedParsing|].
  intros [tx1 errs1] [tx2 errs2] [T E]. cbn [fst snd] in T, E. subst errs2.
  eapply related_bind; [apply related_performance_now|]. intros n1 n2 _.
  apply related_ret.
  pose proof (sameTransactions_contextBasedCategorizing _ _ T) as Tc.
  pose proof (sameTransactions_removeDuplicates _ _ Tc) as Td.
  unfold sameResult.
  cbn [resultTransactions resultErrors summary totalLines successfulTransactions
       failedLines duplicatesSkipped suspiciousTransactions].
  rewrite (sameTransactions_length _ _ Tc), (sameTransactions_length _ _ Td).
  repeat split; try reflexivity. exact Td.
Qed.

Lemma sameTransactions_fields l1 l2 :
  sameTransactions l1 l2 ->
  map (fun t => (sender t, item t, amount t, date t, originalMessage t)) l1
  = map (fun t => (sender t, item t, amount t, date t, originalMessage t)) l2.
Proof.
  unfold sameTransactions. intros H.
  set (f := fun t => (sender t, item t, amount t, date t, originalMessage t)).
  assert (forall l, map f l = map f (map erase l)) as K
      by (intros l; rewrite map_map; reflexivity).
  rewrite (K l1), (K l2), H. reflexivity.
Qed.

(** C9: two runs of [parseFile] on the same text, whatever the clock,
    the random source and the timer give in each, both return, and their
    transactions have, one by one in the same order, the same sender, item,
    amount, date and original message; the errors and the counts of the
    summary are the same too.  Only the ids, [createdAt], [updatedAt] and
    the processing time can differ. *)
Theorem parseFile_deterministic (content : jsstring) (w1 w2 : World) :
  exists r1 w1' r2 w2',
    parseFile content w1 = (Normal r1, w1')
    /\ parseFile content w2 = (Normal r2, w2')
    /\ map (fun t => (sender t, item t, amount t, date t, originalMessage t))
           (resultTransactions r1)
       = map (fun t => (sender t, item t, amount t, date t, originalMessage t))
             (resultTransactions r2)
    /\ resultErrors r1 = resultErrors r2
    /\ totalLines (summary r1) = totalLines (summary r2)
    /\ successfulTransactions (summary r1) = successfulTransactions (summary r2)
    /\ failedLines (summary r1) = failedLines (summary r2)
    /\ duplicatesSkipped (summary r1) = duplicatesSkipped (summary r2).
Proof.
  destruct (returns_parseFile content w1) as (r1 & w1' & E1).
  destruct (returns_parseFile content w2) as (r2 & w2' & E2).
  exists r1, w1', r2, w2'. split; [exact E1|]. split; [exact E2|].
  pose proof (related_parseFile content w1 w2) as H.
  rewrite E1, E2 in H. cbn in H.
  destruct H as (T & E & L & S & F & D & _).
  split; [apply sameTransactions_fields; exact T|]. auto.
Qed.

End ParserFacts.

(** * More on the billing periods *)

Module BillingMore.
Import Num JSDate JSString Money Types Runtime BillingService BillingPeriods DateFacts BillingFacts.
Local Open Scope Z_scope.

(** *** The result of [generateMonthPeriods] in closed form *)

Lemma while_stops fuel endDate st :
  loopCondition endDate st = false -> while fuel endDate st = st.
Proof.
  intros C. destruct fuel as [|fuel]; [reflexivity|].
  rewrite while_unfold, C. reflexivity.
Qed.

Lemma startIndex_plain s :
  101 <= YearFromTime s -> 1200 <= startIndex s /\ dayOf (startIndex s) 15 <= s.
Proof.
  intros Hy. split.
  - unfold startIndex, fullYear. pose proof (MonthFromTime_range s).
    destruct (Z.leb_spec (YearFromTime s) 99); [lia|]. rewrite andb_false_r.
    destruct (DateFromTime s <? 15); lia.
  - destruct (startIndex_le s) as [L|L]; [exact L|lia].
Qed.

(** For a start in year 101 or later and an end at least 403 days below
    the largest time value, [generateMonthPeriods] returns, for the month
    [mi] of the first start and some [n <= 1000], the periods of the months
    [mi], ..., [mi + n - 1]: each from the 15th to the 14th of the next month
    (of the next month one year later when it starts in December), cut at
    the requested end.  These are all the months whose 15th is not after
    the end, unless the cap of 1000 is reached. *)
Theorem generateMonthPeriods_closed_form (startDate endDate : Date) (s e : Z) :
  getTime startDate = Some s ->
  getTime endDate = Some e ->
  101 <= YearFromTime s ->
  s <= maxTime ->
  e <= maxTime - margin ->
  exists n : nat,
    completion (generateMonthPeriods startDate endDate)
    = Normal (map (fun mi =>
                     mkPeriod (mkDate (Some (dayOf mi 15)))
                              (mkDate (Some (Z.min (if mi mod 12 =? 11
                                                    then dayOf (mi + 13) 14
                                                    else dayOf (mi + 1) 14) e))))
                  (monthsFrom (startIndex s) n))
    /\ (n <= 1000)%nat
    /\ (forall k, 0 <= k < Z.of_nat n -> dayOf (startIndex s + k) 15 <= e)
    /\ ((n < 1000)%nat -> e < dayOf (startIndex s + Z.of_nat n) 15).
Proof.
  intros Hs He Hy Hsmax Hm.
  unfold generateMonthPeriods, generateMonthPeriodsWith. cbn [completion].
  rewrite (Date_eta startDate), Hs, initialStart_valid.
  destruct (startIndex_plain s Hy) as [H1200 Hle0].
  set (mi0 := startIndex s) in *.
  assert (Z.abs (dayOf mi0 15) <= maxTime) as Hv0.
  { assert (dayOf 1200 15 <= dayOf mi0 15).
    { destruct (Z.eq_dec mi0 1200) as [->|]; [lia|].
      pose proof (dayOf_15_mono 1200 mi0 ltac:(lia)). lia. }
    rewrite dayOf_1200 in *. unfold maxTime in *. lia. }
  rewrite (TimeClip_valid _ Hv0).
  destruct (while_spec endDate e He Hm (Z.to_nat maxIterations) mi0 0 [] H1200 Hv0)
    as (n & Hp & Hi & Hk & Hx).
  cbv zeta in Hp, Hi, Hx. cbn [app] in Hp.
  exists n. rewrite Hp. split; [unfold specPeriod, endOf; reflexivity|].
  pose proof (while_iterations_range (Z.to_nat maxIterations) endDate
                (mkLoopState (mkDate (Some (dayOf mi0 15))) 0 [])) as R.
  cbn [iterations] in R. unfold maxIterations in *.
  split; [lia|]. split; [exact Hk|].
  intros Hn. apply Hx; [|lia].
  apply while_exits. cbn [iterations]. unfold maxIterations. lia.
Qed.

Lemma generateMonthPeriods_closed_form_witness :
  exists n : nat,
    completion (generateMonthPeriods (ymd 2023 11 20) (ymd 2024 2 1))
    = Normal (map (fun mi =>
                     mkPeriod (mkDate (Some (dayOf mi 15)))
                              (mkDate (Some (Z.min (if mi mod 12 =? 11
                                                    then dayOf (mi + 13) 14
                                                    else dayOf (mi + 1) 14)
                                                   1709251200000))))
                  (monthsFrom (startIndex 1703030400000) n))
    /\ (n <= 1000)%nat
    /\ (forall k, 0 <= k < Z.of_nat n ->
           dayOf (startIndex 1703030400000 + k) 15 <= 1709251200000)
    /\ ((n < 1000)%nat ->
        1709251200000 < dayOf (startIndex 1703030400000 + Z.of_nat n) 15).
Proof.
  apply (generateMonthPeriods_closed_form (ymd 2023 11 20) (ymd 2024 2 1)
           1703030400000 1709251200000).
  - vm_compute. reflexivity.
  - vm_compute. reflexivity.
  - vm_compute. congruence.
  - vm_compute. congruence.
  - vm_compute. congruence.
Defined.

(** *** When no period is returned *)

Lemma Normal_inj {A : Type} (a b : A) : Normal a = Normal b -> a = b.
Proof. congruence. Qed.

(** With an invalid start or end [generateMonthPeriods] returns no period
    and logs nothing.  With valid dates it returns no period exactly when
    the 15th the first period would start on is after the end; so a start
    after the end still gives a period when that 15th is not after the
    end. *)
Theorem generateMonthPeriods_empty (startDate endDate : Date) :
  (getTime startDate = None \/ getTime endDate = None ->
   generateMonthPeriods startDate endDate = mkOutcome (Normal []) [])
  /\ (forall s e,
         getTime startDate = Some s -> getTime endDate = Some e ->
         Z.abs (dayOf (startIndex s) 15) <= maxTime ->
         (completion (generateMonthPeriods startDate endDate) = Normal []
          <-> e < dayOf (startIndex s) 15)).
Proof.
  split.
  - intros H. unfold generateMonthPeriods, generateMonthPeriodsWith.
    rewrite while_stops; [reflexivity|].
    unfold loopCondition, date_le. cbn [currentStart iterations].
    destruct H as [H|H].
    + rewrite (Date_eta startDate), H, initialStart_invalid. reflexivity.
    + rewrite H. destruct (getTime (initialStart startDate)); reflexivity.
  - intros s e Hs He Hv.
    unfold generateMonthPeriods, generateMonthPeriodsWith.
    cbv beta iota delta [completion].
    rewrite (Date_eta startDate), Hs, initialStart_valid, (TimeClip_valid _ Hv).
    set (st0 := mkLoopState (mkDate (Some (dayOf (startIndex s) 15))) 0 []).
    destruct (loopCondition endDate st0) eqn:C.
    + pose proof C as C'. apply loopCondition_valid in C'.
      destruct C' as (c & e' & Hc & He' & Hce & _).
      cbn [st0 currentStart getTime] in Hc.
      assert (e' = e) by congruence. assert (c = dayOf (startIndex s) 15) by congruence.
      subst e' c.
      change (Z.to_nat maxIterations) with (S 999). rewrite while_unfold, C.
      pose proof (while_length 999 endDate (loopBody endDate st0)) as L.
      pose proof (while_iterations_range 999 endDate (loopBody endDate st0)) as R.
      rewrite loopBody_length, loopBody_iterations in L.
      rewrite loopBody_iterations in R. cbn [st0 iterations periods List.length] in L, R.
      unfold maxIterations in R. specialize (R ltac:(lia)).
      split; [|lia]. intros E. apply Normal_inj in E. rewrite E in L.
      cbn [List.length] in L. lia.
    + rewrite (while_stops _ _ _ C). cbn [st0 periods].
      split; [intros _|reflexivity].
      unfold loopCondition, date_le in C. cbn [st0 currentStart iterations getTime] in C.
      rewrite He in C. cbn [Num.le] in C.
      apply andb_false_iff in C. destruct C as [C|C].
      * apply Z.leb_gt in C. exact C.
      * vm_compute in C. discriminate.
Qed.

Lemma generateMonthPeriods_empty_witness :
  completion (generateMonthPeriods (ymd 2024 0 20) (ymd 2024 0 10)) = Normal []
  /\ generateMonthPeriods InvalidDate (ymd 2024 0 10) = mkOutcome (Normal []) [].
Proof.
  destruct (generateMonthPeriods_empty (ymd 2024 0 20) (ymd 2024 0 10)) as [_ H].
  split.
  - apply (H 1705708800000 1704844800000).
    + vm_compute. reflexivity.
    + vm_compute. reflexivity.
    + vm_compute. congruence.
    + vm_compute. reflexivity.
  - apply (generateMonthPeriods_empty InvalidDate (ymd 2024 0 10)).
    left. reflexivity.
Defined.

(** *** The period of one month *)

Lemma newDate6_dayOf y m dt h mi s :
  newDate6 (Some y) (Some m) (Some dt) (Some h) (Some mi) (Some s)
  = mkDate (TimeClip (Some (dayOf (12 * fullYear y + m) dt
                            + (h * msPerHour + mi * msPerMinute + s * msPerSecond)))).
Proof.
  unfold newDate6, MakeFullYear, fullYear, dayOf.
  destruct ((0 <=? y) && (y <=? 99)); rewrite MakeDay_monthStart;
    cbn [MakeTime MakeDate]; do 3 f_equal; lia.
Qed.

Lemma fullYear_range y : -200000 <= y <= 200000 -> -200000 <= fullYear y <= 200000.
Proof.
  unfold fullYear. destruct (Z.leb_spec 0 y), (Z.leb_spec y 99); cbn [andb]; lia.
Qed.

Lemma monthStart_range mi :
  -2401001 <= mi <= 2401001 -> -73800000 <= monthStart mi <= 73200000.
Proof.
  intros H.
  pose proof (monthStart_mono (-2401001) mi ltac:(lia)) as L.
  pose proof (monthStart_mono mi 2401001 ltac:(lia)) as U.
  assert (-73800000 <= monthStart (-2401001)) as El
      by (apply Z.leb_le; vm_compute; reflexivity).
  assert (monthStart 2401001 <= 73200000) as Eu
      by (apply Z.leb_le; vm_compute; reflexivity).
  lia.
Qed.

Lemma endOfDay_getters mi dt :
  1 <= dt <= 28 ->
  let t := dayOf mi dt + 86399000 in
  YearFromTime t = mi / 12 /\ MonthFromTime t = mi mod 12 /\ DateFromTime t = dt
  /\ HourFromTime t = 23 /\ MinFromTime t = 59.
Proof.
  intros Hdt t.
  assert (0 <= mi mod 12 < 12) as Hmn by (apply Z.mod_pos_bound; lia).
  assert (0 <= 86399000 < msPerDay) as Htod by (unfold msPerDay; lia).
  assert (t = (DayFromYear (mi / 12) + DaysBeforeMonth (mi / 12) (mi mod 12) + dt - 1)
              * msPerDay + 86399000) as Et
      by (unfold t, dayOf, monthStart; lia).
  split; [rewrite Et; apply civil_Year; assumption|].
  split; [rewrite Et; apply civil_Month; assumption|].
  split; [rewrite Et; apply civil_Date; assumption|].
  unfold HourFromTime, MinFromTime, t, dayOf, msPerHour, msPerMinute, msPerDay.
  generalize (monthStart mi + dt - 1). intros d.
  split; Z.div_mod_to_equations; lia.
Qed.

(** For an integer year and month, [createMonthPeriod] gives the period of
    type 'month' that starts at 00:00:00 on the 15th of the month before
    [month] and ends at 23:59:59 on the 14th of [month], where [month] is
    counted from 0 as by [getMonth] (0 is January, so month 0 of 2024 is
    2023-12-15 to 2024-01-14), is free to leave 0..11 (month 12 is January
    of the next year), and a year from 0 to 99 is read as 1900 + year.  The
    period is 28 to 31 days long less one second, and the period of the
    next month starts one second after its end. *)
Theorem createMonthPeriod_cycle (year month : Z) :
  -200000 <= year <= 200000 -> -1000 <= month <= 1000 ->
  let p := createMonthPeriod year month in
  let mi := 12 * fullYear year + month in
  getTime (startDate (period p)) = Some (dayOf (mi - 1) 15)
  /\ getTime (endDate (period p)) = Some (dayOf mi 14 + 86399000)
  /\ type p = typeMonth
  /\ (getFullYear (startDate (period p)) = Some ((mi - 1) / 12)
      /\ getMonth (startDate (period p)) = Some ((mi - 1) mod 12)
      /\ getDate (startDate (period p)) = Some 15
      /\ getHours (startDate (period p)) = Some 0
      /\ getMinutes (startDate (period p)) = Some 0)
  /\ (getFullYear (endDate (period p)) = Some (mi / 12)
      /\ getMonth (endDate (period p)) = Some (mi mod 12)
      /\ getDate (endDate (period p)) = Some 14
      /\ getHours (endDate (period p)) = Some 23
      /\ getMinutes (endDate (period p)) = Some 59)
  /\ 28 * msPerDay - 1000
     <= dayOf mi 14 + 86399000 - dayOf (mi - 1) 15
     <= 31 * msPerDay - 1000
  /\ getTime (startDate (period (createMonthPeriod year (month + 1))))
     = Some (dayOf mi 14 + 86399000 + 1000).
Proof.
  intros Hy Hm p mi. pose proof (fullYear_range year Hy) as Hf.
  assert (forall k dt, -1 <= k <= 0 -> 1 <= dt <= 28 ->
                       Z.abs (dayOf (mi + k) dt) <= maxTime - msPerDay) as Hr.
  { intros k dt Hk Hdt. unfold dayOf, maxTime, msPerDay.
    pose proof (monthStart_range (mi + k) ltac:(unfold mi; lia)). lia. }
  assert (getTime (startDate (period p)) = Some (dayOf (mi - 1) 15)) as Es.
  { unfold p, createMonthPeriod. cbn [period startDate].
    rewrite newDate3_dayOf. cbn [getTime].
    replace (12 * fullYear year + (month - 1)) with (mi - 1) by (unfold mi; lia).
    apply TimeClip_valid. specialize (Hr (-1) 15 ltac:(lia) ltac:(lia)).
    replace (mi + -1) with (mi - 1) in Hr by lia. unfold msPerDay in Hr. lia. }
  assert (getTime (endDate (period p)) = Some (dayOf mi 14 + 86399000)) as Ee.
  { unfold p, createMonthPeriod. cbn [period endDate].
    rewrite newDate6_dayOf. cbn [getTime]. fold mi.
    replace (23 * msPerHour + 59 * msPerMinute + 59 * msPerSecond) with 86399000
      by reflexivity.
    apply TimeClip_valid. specialize (Hr 0 14 ltac:(lia) ltac:(lia)).
    replace (mi + 0) with mi in Hr by lia. unfold msPerDay in Hr. lia. }
  split; [exact Es|]. split; [exact Ee|]. split; [reflexivity|].
  split; [|split; [|split]].
  - unfold getFullYear, getMonth, getDate, getHours, getMinutes. rewrite Es.
    cbn [option_map].
    rewrite dayOf_Year, dayOf_Month, dayOf_Date by lia.
    repeat split.
    + unfold HourFromTime, dayOf, msPerHour, msPerDay.
      generalize (monthStart (mi - 1) + 15 - 1). intros d.
      f_equal. Z.div_mod_to_equations. lia.
    + unfold MinFromTime, dayOf, msPerMinute, msPerDay.
      generalize (monthStart (mi - 1) + 15 - 1). intros d.
      f_equal. Z.div_mod_to_equations. lia.
  - unfold getFullYear, getMonth, getDate, getHours, getMinutes. rewrite Ee.
    cbn [option_map].
    destruct (endOfDay_getters mi 14 ltac:(lia)) as (E1 & E2 & E3 & E4 & E5).
    rewrite E1, E2, E3, E4, E5. repeat split.
  - unfold dayOf, msPerDay. pose proof (monthStart_step (mi - 1)) as S.
    replace (mi - 1 + 1) with mi in S by lia. lia.
  - unfold createMonthPeriod. cbn [period startDate].
    rewrite newDate3_dayOf. cbn [getTime].
    replace (12 * fullYear year + (month + 1 - 1)) with mi by (unfold mi; lia).
    replace (dayOf mi 14 + 86399000 + 1000) with (dayOf mi 15)
      by (unfold dayOf, msPerDay; lia).
    apply TimeClip_valid. specialize (Hr 0 15 ltac:(lia) ltac:(lia)).
    replace (mi + 0) with mi in Hr by lia. unfold msPerDay in Hr. lia.
Qed.

Lemma createMonthPeriod_cycle_witness :
  getTime (startDate (period (createMonthPeriod 2024 0))) = Some 1702598400000
  /\ getTime (endDate (period (createMonthPeriod 2024 0))) = Some 1705276799000.
Proof.
  destruct (createMonthPeriod_cycle 2024 0 ltac:(lia) ltac:(lia)) as (Es & Ee & _).
  rewrite Es, Ee. split; vm_compute; reflexivity.
Defined.

End BillingMore.

(** * More on the date of a message *)

Module HeaderMore.
Import Num JSDate JSString RegExp Money Types Runtime Helpers WhatsAppParser DateFacts CombineFacts RegExpFacts ParserFacts.
Local Open Scope Z_scope.

(** *** The date [parseDate] builds *)





End HeaderMore.

(** * More on the parser *)

Module ParserMore.
Import Num JSDate JSString RegExp Money Types Runtime Helpers WhatsAppParser DateFacts CombineFacts RegExpFacts ParserFacts.

(** *** The name chosen for a group *)

Lemma countNames_keys names : incl (map fst (countNames names)) names.
Proof.
  unfold countNames.
  apply (fold_left_invariant
           (fun m : StringMap Z => incl (map fst m) names)); [|intros x []].
  intros m name Hin Hm. rewrite mapSet_keys.
  destruct (existsb _ _); [assumption|].
  apply incl_app; [assumption|]. intros x [<-|[]]. assumption.
Qed.

Lemma chooseBestItemName_In names :
  names <> [] -> In (chooseBestItemName names) names.
Proof.
  intros Hne. unfold chooseBestItemName.
  match goal with
  | |- context [fold_left ?f (countNames names) (hd [] names, 0%Z)] =>
      set (best := fold_left f (countNames names) (hd [] names, 0%Z))
  end.
  assert (In (fst best) names) as Hb.
  { apply (fold_left_invariant (fun st : jsstring * Z => In (fst st) names)).
    - intros [b c] [name count] Hin Hb. cbn [fst] in *.
      destruct ((c <? count)%Z || (count =? c)%Z && _); cbn [fst]; [|assumption].
      apply countNames_keys. apply in_map_iff. exists (name, count). auto.
    - cbn [fst]. destruct names; [congruence|left; reflexivity]. }
  destruct best as [best maxCount].
  cbn [fst] in Hb.
  destruct (filter _ names) as [|c clean] eqn:Ef; [assumption|].
  destruct (find _ (countNames (c :: clean))) as [e|] eqn:E; [|assumption].
  apply find_some in E. destruct E as [Hin _].
  assert (In (fst e) (c :: clean)) as Hc
      by (apply countNames_keys; apply in_map; assumption).
  rewrite <- Ef in Hc. apply filter_In in Hc. apply Hc.
Qed.

(** [contextBasedCategorizing] returns the transactions it is given, in some
    order, changed in their item name only, and every item name it gives
    is the item name of one of them; so it returns as many as it is given. *)
Theorem contextBasedCategorizing_keeps_transactions (l : list Transaction) :
  Permutation (map (fun t => setItem t []) (contextBasedCategorizing l))
              (map (fun t => setItem t []) l)
  /\ List.length (contextBasedCategorizing l) = List.length l
  /\ (forall t', In t' (contextBasedCategorizing l) ->
        exists t, In t l /\ item t' = item t).
Proof.
  pose proof (contextBasedCategorizing_perm l) as P.
  split; [exact P|]. split.
  - apply Permutation_length in P. rewrite !length_map in P. exact P.
  - rewrite contextBasedCategorizing_loops. cbv zeta.
    set (m := fold_left addToGroup l []).
    destruct (addToGroup_spec l [] (NoDup_nil _)) as [Hn Hp]. fold m in Hn, Hp.
    cbn [map List.concat app] in Hp.
    assert (forall k, incl (groupOf k m) l) as Hg.
    { intros k t Ht. apply (Permutation_in _ Hp). unfold groupOf in Ht.
      destruct (mapGet k m) as [g|] eqn:E; [|destruct Ht].
      apply mapGet_In in E. apply in_concat. exists g. split; [|assumption].
      apply in_map_iff. exists (k, g). auto. }
    set (known := fun e : jsstring * list Transaction =>
                    forall t', In t' (snd e) -> exists t, In t l /\ item t' = item t).
    assert (forall keys st,
               Forall known (fst st) ->
               Forall known (fst (fold_left (mergeGroup m) keys st))) as Hm.
    { intros keys st.
      apply (fold_left_invariant
               (fun st : StringMap (list Transaction) * list jsstring =>
                  Forall known (fst st))).
      clear st. intros [merged pr] key1 _ H. cbn [fst] in H. unfold mergeGroup.
      destruct (setHas key1 pr); [exact H|].
      destruct (fold_left (findSimilar m key1) (map fst m) ([groupOf key1 m], pr))
        as [sg pr'] eqn:E.
      cbn [fst].
      apply (mapSet_Forall
               (fun g => forall t', In t' g -> exists t, In t l /\ item t' = item t));
        [exact H|].
      intros t' Ht'. apply in_map_iff in Ht'. destruct Ht' as (t0 & <- & Ht0).
      cbn [setItem item].
      assert (incl (List.concat sg) l) as Hsg.
      { assert (Forall (fun g => incl g l) (fst (sg, pr'))) as F.
        { rewrite <- E.
          apply (fold_left_invariant
                   (fun st : list (list Transaction) * list jsstring =>
                      Forall (fun g => incl g l) (fst st))).
          - intros [sg0 pr0] key2 _ F0. cbn [fst] in F0. unfold findSimilar.
            destruct (negb (JSString.eqb key1 key2) && negb (setHas key2 pr0));
              [|exact F0].
            destruct (calculateSimilarity key1 key2) as [sim|]; [|exact F0].
            destruct (gtb sim (2 # 10)); [|exact F0].
            cbn [fst]. apply Forall_app. split; [exact F0|].
            constructor; [apply Hg|constructor].
          - cbn [fst]. constructor; [apply Hg|constructor]. }
        cbn [fst] in F. intros x Hx. apply in_concat in Hx.
        destruct Hx as (g & Hgin & Hx). rewrite Forall_forall in F.
        apply (F g Hgin). assumption. }
      assert (map item (List.concat sg) <> []) as Hne
          by (destruct (List.concat sg); [destruct Ht0|discriminate]).
      pose proof (chooseBestItemName_In _ Hne) as Hb.
      apply in_map_iff in Hb. destruct Hb as (t & Et & Ht).
      exists t. split; [apply Hsg; assumption|]. symmetry. exact Et. }
    specialize (Hm (map fst m) ([], []) (Forall_nil _)). unfold known in Hm.
    destruct (fold_left (mergeGroup m) (map fst m) ([], [])) as [merged processed].
    cbn [fst] in Hm. intros t' Ht'. apply in_concat in Ht'.
    destruct Ht' as (g & Hgin & Ht'). apply in_map_iff in Hgin.
    destruct Hgin as (e & <- & He). rewrite Forall_forall in Hm.
    apply (Hm e He). assumption.
Qed.

(** *** removeDuplicates *)

Lemma removeDuplicatesFrom_fresh seen l :
  NoDup (map duplicateKey l) ->
  (forall t, In t l -> ~ In (duplicateKey t) seen) ->
  removeDuplicatesFrom seen l = l.
Proof.
  revert seen. induction l as [|t l IH]; intros seen Hn Hs; [reflexivity|].
  cbn [removeDuplicatesFrom]. cbn [map] in Hn. inversion Hn as [|? ? Ht Hn']; subst.
  assert (setHas (duplicateKey t) seen = false) as ->.
  { apply setHas_false. apply Hs. left. reflexivity. }
  f_equal. apply IH; [assumption|].
  intros u Hu [E|Hin].
  - apply Ht. rewrite E. apply in_map. assumption.
  - apply (Hs u); [right; assumption|assumption].
Qed.

Lemma removeDuplicatesFrom_first seen l1 t l2 :
  ~ In (duplicateKey t) seen ->
  ~ In (duplicateKey t) (map duplicateKey l1) ->
  In t (removeDuplicatesFrom seen (l1 ++ t :: l2)).
Proof.
  revert seen. induction l1 as [|u l1 IH]; intros seen Hs Hl; cbn [app removeDuplicatesFrom].
  - assert (setHas (duplicateKey t) seen = false) as ->
        by (apply setHas_false; assumption).
    left. reflexivity.
  - cbn [map] in Hl.
    assert (~ In (duplicateKey t) (map duplicateKey l1)) as Hl'
        by (intros H; apply Hl; right; assumption).
    destruct (setHas (duplicateKey u) seen); [apply IH; assumption|].
    right. apply IH; [|assumption].
    intros [E|H]; [apply Hl; left; assumption|contradiction].
Qed.

(** [removeDuplicates] keeps the first transaction of every key, and nothing
    else: what it returns has no key twice, and it leaves such a list as it
    is, so a second pass changes nothing. *)
Theorem removeDuplicates_keeps_first (l : list Transaction) :
  (forall l1 t l2,
      l = l1 ++ t :: l2 -> ~ In (duplicateKey t) (map duplicateKey l1) ->
      In t (removeDuplicates l))
  /\ (forall t, In t (removeDuplicates l) ->
        exists l1 l2, l = l1 ++ t :: l2)
  /\ NoDup (map duplicateKey (removeDuplicates l))
  /\ (NoDup (map duplicateKey l) -> removeDuplicates l = l)
  /\ removeDuplicates (removeDuplicates l) = removeDuplicates l.
Proof.
  destruct (removeDuplicatesFrom_keys [] l) as (N & _ & _).
  split; [|split; [|split; [|split]]].
  - intros l1 t l2 -> H. apply removeDuplicatesFrom_first; [intros []|assumption].
  - intros t Ht. apply removeDuplicates_incl in Ht. apply in_split in Ht. exact Ht.
  - exact N.
  - intros H. apply removeDuplicatesFrom_fresh; [assumption|]. intros t _ [].
  - apply removeDuplicatesFrom_fresh; [exact N|]. intros t _ [].
Qed.

Lemma removeDuplicates_keeps_first_witness :
  In (sample 1704317700000)
     (removeDuplicates [sample 1704317700000; sample 1704317760000]).
Proof.
  apply (proj1 (removeDuplicates_keeps_first
                  [sample 1704317700000; sample 1704317760000])
               [] (sample 1704317700000) [sample 1704317760000] eq_refl).
  intros [].
Defined.

(** *** The date of a message header *)

(** Whatever digits a line that matches the header pattern holds in its
    date and time, [parseDate] gives a valid Date: neither [null] nor an
    Invalid Date. *)
Theorem messageHeader_date_valid (line : jsstring) (m : Match) :
  exec messagePattern line = Some m ->
  exists d t,
    parseDate (group 1 m) (group 2 m) (capture 3 (groups m)) = Some d
    /\ getTime d = Some t.
Proof.
  intros H. destruct (header_captures _ _ H) as [Hd Ht].
  apply parseDate_header; assumption.
Qed.

Definition outOfRangeHeader : jsstring :=
  Eval vm_compute in utf16 "99/99/99, 99:99 pm - Monir: milk 100".

Lemma messageHeader_date_valid_witness :
  exists m d t,
    exec messagePattern outOfRangeHeader = Some m
    /\ parseDate (group 1 m) (group 2 m) (capture 3 (groups m)) = Some d
    /\ getTime d = Some t.
Proof.
  destruct (exec messagePattern outOfRangeHeader) as [m|] eqn:E;
    [|vm_compute in E; discriminate].
  destruct (messageHeader_date_valid outOfRangeHeader m E) as (d & t & H).
  exists m, d, t. split; [reflexivity|exact H].
Defined.

(** *** calculateSimilarity *)

Lemma existsb_Neqb_In x l : existsb (N.eqb x) l = true <-> In x l.
Proof.
  rewrite existsb_exists. split.
  - intros (y & Hy & E). apply N.eqb_eq in E. subst. assumption.
  - intros H. exists x. split; [assumption|apply N.eqb_refl].
Qed.

Lemma distinctUnits_spec xs : forall seen,
  NoDup (distinctUnits seen xs)
  /\ (forall x, In x (distinctUnits seen xs) <-> In x xs /\ ~ In x seen).
Proof.
  induction xs as [|x xs IH]; intros seen; cbn [distinctUnits].
  - split; [constructor|]. intros x. split; [intros []|intros [[] _]].
  - destruct (existsb (N.eqb x) seen) eqn:E.
    + destruct (IH seen) as [N I]. split; [exact N|].
      apply existsb_Neqb_In in E. intros y. rewrite I. split.
      * intros [H1 H2]. split; [right; assumption|assumption].
      * intros [[<-|H1] H2]; [contradiction|split; assumption].
    + destruct (IH (x :: seen)) as [N I]. split.
      * constructor; [|exact N]. rewrite I. intros [_ H]. apply H. left. reflexivity.
      * assert (~ In x seen) as Hx
            by (intros H; apply existsb_Neqb_In in H; congruence).
        intros y. cbn [In]. rewrite I. cbn [In]. split.
        -- intros [<-|[H1 H2]]; [split; [left; reflexivity|assumption]|].
           split; [right; assumption|]. intros H. apply H2. right. assumption.
        -- intros [[<-|H1] H2]; [left; reflexivity|].
           destruct (N.eq_dec x y) as [<-|Hne]; [left; reflexivity|].
           right. split; [assumption|]. intros [H|H]; contradiction.
Qed.

Lemma distinctUnits_nil xs : distinctUnits [] xs = [] <-> xs = [].
Proof.
  split; [|intros ->; reflexivity].
  destruct xs as [|x xs]; [reflexivity|]. cbn. discriminate.
Qed.

(** The two sizes of [calculateSimilarity]. *)
Definition common (str1 str2 : jsstring) : list N :=
  filter (fun x => existsb (N.eqb x) (distinctUnits [] str2)) (distinctUnits [] str1).
Definition either (str1 str2 : jsstring) : list N :=
  distinctUnits [] (distinctUnits [] str1 ++ distinctUnits [] str2).

Lemma calculateSimilarity_sizes str1 str2 :
  calculateSimilarity str1 str2
  = match either str1 str2 with
    | [] => None
    | _ => Some (fdiv (ofZ (Z.of_nat (List.length (common str1 str2))))
                      (ofZ (Z.of_nat (List.length (either str1 str2)))))
    end.
Proof. reflexivity. Qed.

Lemma common_spec a b :
  NoDup (common a b) /\ (forall x, In x (common a b) <-> In x a /\ In x b).
Proof.
  unfold common. destruct (distinctUnits_spec a []) as [Na Ia].
  destruct (distinctUnits_spec b []) as [Nb Ib]. split.
  - apply NoDup_filter. exact Na.
  - intros x. rewrite filter_In, existsb_Neqb_In, Ia, Ib. tauto.
Qed.

Lemma either_spec a b :
  NoDup (either a b) /\ (forall x, In x (either a b) <-> In x a \/ In x b).
Proof.
  unfold either. destruct (distinctUnits_spec a []) as [Na Ia].
  destruct (distinctUnits_spec b []) as [Nb Ib].
  destruct (distinctUnits_spec (distinctUnits [] a ++ distinctUnits [] b) [])
    as [N I].
  split; [exact N|]. intros x. rewrite I, in_app_iff, Ia, Ib. tauto.
Qed.

Lemma same_length (l1 l2 : list N) :
  NoDup l1 -> NoDup l2 -> (forall x, In x l1 <-> In x l2) ->
  List.length l1 = List.length l2.
Proof.
  intros N1 N2 H. apply Permutation_length. apply NoDup_Permutation; assumption.
Qed.

Lemma either_nil a b : either a b = [] <-> a = [] /\ b = [].
Proof.
  destruct (either_spec a b) as [_ I]. split.
  - intros E. rewrite E in I. split.
    + destruct a as [|x a]; [reflexivity|]. destruct (proj2 (I x)). left. left. reflexivity.
    + destruct b as [|x b]; [reflexivity|]. destruct (proj2 (I x)). right. left. reflexivity.
  - intros [-> ->]. reflexivity.
Qed.

Lemma ratio_bounds (n m : nat) :
  (n <= m)%nat -> (0 < m)%nat ->
  (0 <= fdiv (ofZ (Z.of_nat n)) (ofZ (Z.of_nat m)))%Q
  /\ (fdiv (ofZ (Z.of_nat n)) (ofZ (Z.of_nat m)) <= 1)%Q.
Proof.
  intros Hn Hm. unfold fdiv, ofZ. rewrite Qred_correct.
  assert (0 < inject_Z (Z.of_nat m))%Q as Hpos
      by (rewrite <- (Zlt_Qlt 0); lia).
  split.
  - apply Qle_shift_div_l; [assumption|]. rewrite Qmult_0_l.
    rewrite <- (Zle_Qle 0). lia.
  - apply Qle_shift_div_r; [assumption|]. rewrite Qmult_1_l.
    rewrite <- Zle_Qle. lia.
Qed.

(** [calculateSimilarity] does not depend on the order of its two strings;
    it is [NaN] for two empty strings only, and otherwise a ratio between 0
    and 1: 1 when the two strings hold the same characters, 0 when they
    share none.  (The ratio of the two sizes is kept exact here.) *)
Theorem calculateSimilarity_symmetric (str1 str2 : jsstring) :
  calculateSimilarity str1 str2 = calculateSimilarity str2 str1
  /\ (calculateSimilarity str1 str2 = None <-> str1 = [] /\ str2 = [])
  /\ (forall q, calculateSimilarity str1 str2 = Some q -> (0 <= q)%Q /\ (q <= 1)%Q)
  /\ (str1 <> [] -> (forall x, In x str1 <-> In x str2) ->
      calculateSimilarity str1 str2 = Some 1%Q)
  /\ (str1 <> [] -> (forall x, In x str1 -> ~ In x str2) ->
      calculateSimilarity str1 str2 = Some 0%Q).
Proof.
  rewrite !calculateSimilarity_sizes.
  destruct (common_spec str1 str2) as [Nc Ic].
  destruct (common_spec str2 str1) as [Nc' Ic'].
  destruct (either_spec str1 str2) as [Ne Ie].
  destruct (either_spec str2 str1) as [Ne' Ie'].
  assert (List.length (common str1 str2) = List.length (common str2 str1)) as Ec.
  { apply same_length; try assumption. intros x. rewrite Ic, Ic'. tauto. }
  assert (List.length (either str1 str2) = List.length (either str2 str1)) as Ee.
  { apply same_length; try assumption. intros x. rewrite Ie, Ie'. tauto. }
  assert (List.length (common str1 str2) <= List.length (either str1 str2))%nat as Hle.
  { apply NoDup_incl_length; [exact Nc|]. intros x Hx. apply Ie. apply Ic in Hx. tauto. }
  pose proof (either_nil str1 str2) as Hnil.
  split; [|split; [|split; [|split]]].
  - rewrite Ec, Ee.
    destruct (either str1 str2) as [|u us], (either str2 str1) as [|v vs];
      try reflexivity; cbn [List.length] in Ee; discriminate.
  - destruct (either str1 str2) as [|u us].
    + split; [intros _; apply Hnil; reflexivity|reflexivity].
    + split; [discriminate|]. intros H. apply Hnil in H. discriminate.
  - intros q.
    destruct (either str1 str2) as [|u us] eqn:E; [discriminate|].
    intros [= <-].
    apply (ratio_bounds (List.length (common str1 str2)) (List.length (u :: us)));
      [exact Hle|].
    cbn [List.length]. lia.
  - intros Hne Hsame.
    assert (List.length (common str1 str2) = List.length (either str1 str2)) as El.
    { apply same_length; try assumption. intros x. rewrite Ic, Ie.
      specialize (Hsame x). tauto. }
    destruct (either str1 str2) as [|u us] eqn:E.
    + destruct Hne. apply Hnil. reflexivity.
    + rewrite El. f_equal. unfold fdiv, ofZ.
      change 1%Q with (Qred 1). apply Qred_complete. apply Qmult_inv_r.
      cbn [List.length]. intros H. rewrite (inject_Z_injective _ 0) in H; lia.
  - intros Hne Hnone.
    assert (common str1 str2 = []) as El.
    { destruct (common str1 str2) as [|x xs]; [reflexivity|].
      destruct (proj1 (Ic x) (or_introl eq_refl)) as [H1 H2].
      destruct (Hnone x H1 H2). }
    destruct (either str1 str2) as [|u us] eqn:E.
    + destruct Hne. apply Hnil. reflexivity.
    + rewrite El. reflexivity.
Qed.

(** *** Lines before the first message header *)

(** Nothing read yet from a header: no transaction, no error, no sender. *)
Definition untouched (ctx : Context) : Prop :=
  transactions ctx = [] /\ errors ctx = [] /\ currentSender ctx = [].

Lemma processLine_no_header ctx i raw w ctx' w' :
  exec messagePattern (trim raw) = None ->
  untouched ctx ->
  processLine ctx (i, raw) w = (Normal ctx', w') ->
  untouched ctx'.
Proof.
  intros Hm (T & E & S) H. unfold processLine in H.
  destruct (isEmpty (trim raw)).
  { apply ret_Normal in H. destruct H as [-> _]. repeat split; assumption. }
  rewrite Hm in H.
  destruct (exec dateOnlyPattern (trim raw)) as [m|].
  { destruct (parseDateFromComponents _ _ _);
      apply ret_Normal in H; destruct H as [-> _]; repeat split; assumption. }
  rewrite S in H. cbn [isEmpty] in H.
  apply bind_Normal in H. destruct H as (useDate & w1 & _ & H).
  change (JSString.eqb (toLowerCase (utf16 "unknown")) monir) with false in H.
  apply ret_Normal in H. destruct H as [-> _]. repeat split; assumption.
Qed.

Definition freeText : jsstring :=
  Eval vm_compute in utf16 "invalid line format
another invalid line".

(** Lines that come before any message header are attributed to the
    sender 'unknown' and left out: for a content none of whose lines is a
    message header, [parseFile] returns no transaction and records no
    error, whatever the lines hold. *)
Theorem parseFile_without_header (content : jsstring) :
  (forall line, In line (preprocess content) ->
                exec messagePattern (trim line) = None) ->
  forall w, exists r w',
    parseFile content w = (Normal r, w')
    /\ resultTransactions r = []
    /\ resultErrors r = []
    /\ successfulTransactions (summary r) = 0%Z
    /\ failedLines (summary r) = 0%Z
    /\ duplicatesSkipped (summary r) = 0%Z
    /\ totalLines (summary r) = Z.of_nat (List.length (splitUnit 10 content)).
Proof.
  intros Hn w. destruct (returns_parseFile content w) as (r & w' & H).
  exists r, w'. split; [exact H|].
  unfold parseFile in H.
  apply bind_Normal in H. destruct H as (startTime & w1 & _ & H).
  apply bind_Normal in H. destruct H as ([txs errs] & w2 & Hp & H).
  apply bind_Normal in H. destruct H as (now_ & w3 & _ & H).
  apply ret_Normal in H. destruct H as [-> _].
  cbn [resultTransactions resultErrors summary successfulTransactions failedLines
       duplicatesSkipped totalLines].
  unfold enhancedContextBasedParsing in Hp.
  apply bind_Normal in Hp. destruct Hp as (ctx & w4 & Hl & Hp).
  apply ret_Normal in Hp. destruct Hp as [Hp _]. inversion Hp; subst txs errs.
  assert (untouched ctx) as (T & E & _).
  { eapply (forEachM_invariant_In untouched); [|idtac|exact Hl].
    - intros s [i raw] w0 s' w0' Hin Hs Hb.
      eapply processLine_no_header; [|exact Hs|exact Hb].
      apply Hn. apply indexed_In in Hin. destruct Hin as [_ Hin].
      apply nth_error_In in Hin. exact Hin.
    - repeat split. }
  rewrite T, E. repeat split.
Qed.

Lemma parseFile_without_header_witness :
  preprocess freeText = [utf16 "invalid line format"; utf16 "another invalid line"]
  /\ forall w, exists r w',
       parseFile freeText w = (Normal r, w')
       /\ resultTransactions r = []
       /\ resultErrors r = []
       /\ successfulTransactions (summary r) = 0%Z
       /\ failedLines (summary r) = 0%Z
       /\ duplicatesSkipped (summary r) = 0%Z
       /\ totalLines (summary r) = Z.of_nat (List.length (splitUnit 10 freeText)).
Proof.
  split; [vm_compute; reflexivity|].
  apply (parseFile_without_header freeText).
  intros line Hin. vm_compute in Hin.
  destruct Hin as [<-|[<-|[]]]; vm_compute; reflexivity.
Defined.

End ParserMore.
